(** * GOST R 34.10-2001/2012 signatures: a shallow embedding of [gost_ec_sign.c]

    The development embeds [hashsum2bn], [gost_ec_sign], [gost_ec_verify],
    [gost_ec_compute_public] and [gost_ec_keygen] of [src/gost_ec_sign.c]
    and proves properties of signing, verification and key generation.

    The C code runs against OpenSSL's BIGNUM and EC libraries.  They are
    modelled as follows.
    - A [BIGNUM] is a [Z]; every BN_ call is the corresponding operation on
      [Z], with the failure conditions of the library written out.
    - An [EC_POINT] is the point at infinity or an affine pair; the point
      arithmetic is the usual chord-and-tangent arithmetic of a short
      Weierstrass curve over a prime field, and is executable.
    - Every library call that reports a status may fail for lack of memory.
      The [world] carries a plan [faults] that says, call by call, whether
      the next such call fails.  An empty plan means that no call fails.
    - [BN_rand_range] reads the next raw draw from the tape [rand] of the
      [world]; an exhausted tape is a failure of the random source.
    - [GOSTerr] pushes a pair (function, reason) on the error queue [errq].
    - [OPENSSL_assert] ends the run with [Aborted] when its condition fails.
    - The [EC_KEY] object the functions receive by pointer lives in the
      [world]; the accessors read it and the setters write it.  The pointer
      arguments [dgst], [sig] and [ec] are taken to be non-NULL, and the
      pair ([dgst], [dlen]) is a byte list whose length is [dlen].
    - The releases at the labels [err] and [end] and the debug output under
      [DEBUG_SIGN] have no counterpart here: they change no value that the
      functions return or store.
    - [gost_nid2params] searches the parameter tables, which are declared
      in another file: it is embedded with the two tables as arguments.
      [fill_GOST_EC_params] builds the [EC_GROUP] from an entry through the
      parsing and group constructors of the library and is not embedded; the
      embedding of the other functions starts from the bound [EC_GROUP]. *)

From Stdlib Require Import ZArith List Lia Bool Zcong Zdivisibility.
From Stdlib.Strings Require Import Byte.
From Stdlib.Strings Require String.
Import ListNotations.
Local Open Scope Z_scope.

(** ** BIGNUM values *)

Definition BN_is_zero (a : Z) : bool := a =? 0.

Definition BN_cmp (a b : Z) : Z :=
  match a ?= b with Lt => -1 | Eq => 0 | Gt => 1 end.

Definition BN_num_bits (a : Z) : Z :=
  if a =? 0 then 0 else Z.log2 (Z.abs a) + 1.

(** [BN_mod] is the remainder of [BN_div]: it carries the sign of the
    dividend. *)
Definition bn_mod (m d : Z) : option Z :=
  if d =? 0 then None else Some (Z.rem m d).

(** [BN_nnmod]: [BN_mod], then the absolute value of the divisor is added to
    a negative remainder. *)
Definition bn_nnmod (m d : Z) : option Z :=
  if d =? 0 then None
  else let r := Z.rem m d in Some (if r <? 0 then r + Z.abs d else r).

Definition bn_mod_mul (a b m : Z) : option Z := bn_nnmod (a * b) m.
Definition bn_mod_add (a b m : Z) : option Z := bn_nnmod (a + b) m.

(** [BN_mod_inverse] returns NULL when there is no inverse. *)
Definition bn_mod_inverse (a n : Z) : option Z :=
  if Z.abs n <=? 1 then None
  else if Z.gcd a n =? 1 then Some (Z.invmod a n) else None.

Definition byte_val (b : byte) : Z := Z.of_N (Byte.to_N b).

(** Modelled from the spec: [getbnfrombuf] is defined in another file of the
    engine; the spec says that the buffer is parsed as a big-endian
    magnitude. *)
Definition getbnfrombuf (buf : list byte) : Z :=
  fold_left (fun acc b => acc * 256 + byte_val b) buf 0.

(** ** Elliptic-curve points and groups *)

Inductive EC_POINT : Type :=
| Infinity
| Affine (x y : Z).

(** What [fill_GOST_EC_params] binds: the field, the curve, the generator
    and its order. *)
Record EC_GROUP : Type := mkGroup {
  field_p : Z;
  curve_a : Z;
  curve_b : Z;
  generator : EC_POINT;
  order : Z
}.

Definition EC_POINT_eqb (P Q : EC_POINT) : bool :=
  match P, Q with
  | Infinity, Infinity => true
  | Affine x1 y1, Affine x2 y2 => (x1 =? x2) && (y1 =? y2)
  | _, _ => false
  end.

Definition on_curve (grp : EC_GROUP) (P : EC_POINT) : bool :=
  match P with
  | Infinity => true
  | Affine x y =>
      let p := field_p grp in
      (0 <=? x) && (x <? p) && (0 <=? y) && (y <? p)
      && ((y * y - (x * x * x + curve_a grp * x + curve_b grp)) mod p =? 0)
  end.

Definition ec_add (grp : EC_GROUP) (P Q : EC_POINT) : EC_POINT :=
  match P, Q with
  | Infinity, _ => Q
  | _, Infinity => P
  | Affine x1 y1, Affine x2 y2 =>
      let p := field_p grp in
      if x1 =? x2 then
        if (y1 + y2) mod p =? 0 then Infinity
        else
          let l := ((3 * x1 * x1 + curve_a grp) * Z.invmod (2 * y1) p) mod p in
          let x3 := (l * l - x1 - x2) mod p in
          Affine x3 ((l * (x1 - x3) - y1) mod p)
      else
        let l := ((y2 - y1) * Z.invmod (x2 - x1) p) mod p in
        let x3 := (l * l - x1 - x2) mod p in
        Affine x3 ((l * (x1 - x3) - y1) mod p)
  end.

Definition ec_neg (grp : EC_GROUP) (P : EC_POINT) : EC_POINT :=
  match P with
  | Infinity => Infinity
  | Affine x y => Affine x ((- y) mod field_p grp)
  end.

(** Double-and-add over the binary digits of the scalar. *)
Fixpoint ec_mul_pos (grp : EC_GROUP) (n : positive) (P : EC_POINT) : EC_POINT :=
  match n with
  | xH => P
  | xO n' => let R := ec_mul_pos grp n' P in ec_add grp R R
  | xI n' => let R := ec_mul_pos grp n' P in ec_add grp P (ec_add grp R R)
  end.

Definition ec_smul (grp : EC_GROUP) (n : Z) (P : EC_POINT) : EC_POINT :=
  match n with
  | Z0 => Infinity
  | Zpos n' => ec_mul_pos grp n' P
  | Zneg n' => ec_neg grp (ec_mul_pos grp n' P)
  end.

(** The value of [EC_POINT_mul(group, r, n, q, m, ctx)]: [n·G + m·q], where a
    NULL scalar or point drops its term. *)
Definition ec_mul (grp : EC_GROUP) (n : option Z) (q : option EC_POINT)
    (m : option Z) : EC_POINT :=
  ec_add grp
    (match n with Some n' => ec_smul grp n' (generator grp) | None => Infinity end)
    (match q, m with
     | Some q', Some m' => ec_smul grp m' q'
     | _, _ => Infinity
     end).

(** The point at infinity has no affine coordinates. *)
Definition affine_x (P : EC_POINT) : option Z :=
  match P with
  | Infinity => None
  | Affine x _ => Some x
  end.

(** Repeated addition, the reference for [ec_smul] in the proofs. *)
Fixpoint ec_mul_nat (grp : EC_GROUP) (n : nat) (P : EC_POINT) : EC_POINT :=
  match n with
  | O => Infinity
  | S n' => ec_add grp P (ec_mul_nat grp n' P)
  end.

(** What the code relies on from the library: the points of the curve form a
    commutative group under [ec_add], and the generator has prime order
    [order grp]. *)
Record ec_group_ok (grp : EC_GROUP) : Prop := {
  ok_order_prime : Z.prime (order grp);
  ok_generator : on_curve grp (generator grp) = true;
  ok_closed : forall P Q,
      on_curve grp P = true -> on_curve grp Q = true ->
      on_curve grp (ec_add grp P Q) = true;
  ok_comm : forall P Q,
      on_curve grp P = true -> on_curve grp Q = true ->
      ec_add grp P Q = ec_add grp Q P;
  ok_assoc : forall P Q R,
      on_curve grp P = true -> on_curve grp Q = true -> on_curve grp R = true ->
      ec_add grp P (ec_add grp Q R) = ec_add grp (ec_add grp P Q) R;
  ok_generator_order : ec_smul grp (order grp) (generator grp) = Infinity
}.

(** ** Keys, signatures, errors and the world *)

Record EC_KEY : Type := mkKey {
  group : option EC_GROUP;
  priv_key : option Z;
  pub_key : option EC_POINT
}.

Record DSA_SIG : Type := mkSig { sig_r : Z; sig_s : Z }.

Inductive gost_func : Type :=
| GOST_F_GOST_EC_SIGN
| GOST_F_GOST_EC_VERIFY
| GOST_F_GOST_EC_COMPUTE_PUBLIC
| GOST_F_GOST_EC_KEYGEN.

Inductive gost_reason : Type :=
| ERR_R_MALLOC_FAILURE
| ERR_R_INTERNAL_ERROR
| ERR_R_EC_LIB
| GOST_R_RNG_ERROR
| GOST_R_KEY_IS_NOT_INITIALIZED
| GOST_R_SIGNATURE_PARTS_GREATER_THAN_Q
| GOST_R_SIGNATURE_MISMATCH.

Record world : Type := mkWorld {
  key : EC_KEY;
  rand : list Z;
  faults : list bool;
  errq : list (gost_func * gost_reason)
}.

Definition set_key (w : world) (k : EC_KEY) : world :=
  mkWorld k (rand w) (faults w) (errq w).
Definition set_rand (w : world) (t : list Z) : world :=
  mkWorld (key w) t (faults w) (errq w).
Definition set_faults (w : world) (f : list bool) : world :=
  mkWorld (key w) (rand w) f (errq w).
Definition push_err (w : world) (e : gost_func * gost_reason) : world :=
  mkWorld (key w) (rand w) (faults w) (e :: errq w).

(** ** The monad of the embedding *)

Inductive outcome (A : Type) : Type :=
| Ret (a : A) (w : world)   (* the call returned [a] *)
| Aborted (w : world)       (* a failed OPENSSL_assert ended the process *)
| NoFuel.                   (* a loop of the model ran out of fuel *)
Arguments Ret {A} a w.
Arguments Aborted {A} w.
Arguments NoFuel {A}.

Definition M (A : Type) : Type := world -> outcome A.

Definition ret {A} (a : A) : M A := fun w => Ret a w.

Definition bind {A B} (m : M A) (f : A -> M B) : M B :=
  fun w =>
    match m w with
    | Ret a w' => f a w'
    | Aborted w' => Aborted w'
    | NoFuel => NoFuel
    end.

Notation "x <- c ;; k" := (bind c (fun x => k))
  (at level 61, c at next level, right associativity).
Notation "c ;; k" := (bind c (fun _ => k))
  (at level 61, right associativity).
Notation "'try' x <- c 'orelse' h ;; k" :=
  (bind c (fun r => match r with Some x => k | None => h end))
  (at level 61, x name, c at next level, h at next level, right associativity).

(** A library call whose value is [v] when memory suffices. *)
Definition lib {A} (v : option A) : M (option A) :=
  fun w =>
    match faults w with
    | [] => Ret v w
    | false :: f => Ret v (set_faults w f)
    | true :: f => Ret None (set_faults w f)
    end.

Definition GOSTerr (f : gost_func) (r : gost_reason) : M unit :=
  fun w => Ret tt (push_err w (f, r)).

Definition OPENSSL_assert (c : bool) : M unit :=
  fun w => if c then Ret tt w else Aborted w.

Definition OPENSSL_die {A} : M A := fun w => Aborted w.

Definition out_of_fuel {A} : M A := fun _ => NoFuel.

(** Each pass of a retry loop consumes a draw of the tape, so one more than
    the length of the tape bounds the number of passes. *)
Definition loop_bound : M nat := fun w => Ret (S (length (rand w))) w.

(** *** Allocation *)

Definition BN_CTX_new : M (option unit) := lib (Some tt).
Definition BN_CTX_get : M (option Z) := lib (Some 0).
Definition BN_new : M (option Z) := lib (Some 0).
Definition DSA_SIG_new : M (option unit) := lib (Some tt).
Definition EC_POINT_new : M (option EC_POINT) := lib (Some Infinity).
Definition BN_dup (a : Z) : M (option Z) := lib (Some a).

(** [if (!v) v = BN_CTX_get(ctx);] *)
Definition BN_CTX_get_once (v : option Z) : M (option Z) :=
  match v with
  | Some _ => ret v
  | None => BN_CTX_get
  end.

(** *** Arithmetic *)

Definition BN_add (a b : Z) : M (option Z) := lib (Some (a + b)).
Definition BN_sub (a b : Z) : M (option Z) := lib (Some (a - b)).
Definition BN_one : M (option Z) := lib (Some 1).
Definition BN_mod (m d : Z) : M (option Z) := lib (bn_mod m d).
Definition BN_nnmod (m d : Z) : M (option Z) := lib (bn_nnmod m d).
Definition BN_mod_mul (a b m : Z) : M (option Z) := lib (bn_mod_mul a b m).
Definition BN_mod_add (a b m : Z) : M (option Z) := lib (bn_mod_add a b m).
Definition BN_mod_inverse (a n : Z) : M (option Z) := lib (bn_mod_inverse a n).

(** [BN_rand_range(k, range)]: fails on a range that is not positive and on
    a failure of the random source; otherwise [0 <= k < range]. *)
Definition BN_rand_range (range : Z) : M (option Z) :=
  fun w =>
    if range <=? 0 then Ret None w
    else match rand w with
         | [] => Ret None w
         | z :: t => Ret (Some (z mod range)) (set_rand w t)
         end.

(** *** Groups, points and keys *)

(** [EC_GROUP_get_order] reports failure for a group whose order is zero. *)
Definition EC_GROUP_get_order (grp : EC_GROUP) : M (option Z) :=
  lib (if order grp =? 0 then None else Some (order grp)).

Definition EC_POINT_mul (grp : EC_GROUP) (n : option Z) (q : option EC_POINT)
    (m : option Z) : M (option EC_POINT) :=
  lib (Some (ec_mul grp n q m)).

(** Called with a NULL [y]: only the x-coordinate is stored. *)
Definition EC_POINT_get_affine_coordinates_GFp (grp : EC_GROUP) (P : EC_POINT)
    : M (option Z) :=
  lib (affine_x P).

Definition EC_KEY_get0_group : M (option EC_GROUP) :=
  fun w => Ret (group (key w)) w.
Definition EC_KEY_get0_private_key : M (option Z) :=
  fun w => Ret (priv_key (key w)) w.
Definition EC_KEY_get0_public_key : M (option EC_POINT) :=
  fun w => Ret (pub_key (key w)) w.

(** The setters release the old field and store a copy of the argument; when
    the copy cannot be made the field is left NULL. *)
Definition EC_KEY_set_private_key (d : Z) : M (option unit) :=
  fun w =>
    let k := key w in
    match faults w with
    | [] => Ret (Some tt) (set_key w (mkKey (group k) (Some d) (pub_key k)))
    | false :: f =>
        Ret (Some tt)
            (set_faults (set_key w (mkKey (group k) (Some d) (pub_key k))) f)
    | true :: f =>
        Ret None (set_faults (set_key w (mkKey (group k) None (pub_key k))) f)
    end.

Definition EC_KEY_set_public_key (P : EC_POINT) : M (option unit) :=
  fun w =>
    let k := key w in
    match faults w with
    | [] => Ret (Some tt) (set_key w (mkKey (group k) (priv_key k) (Some P)))
    | false :: f =>
        Ret (Some tt)
            (set_faults (set_key w (mkKey (group k) (priv_key k) (Some P))) f)
    | true :: f =>
        Ret None (set_faults (set_key w (mkKey (group k) (priv_key k) None)) f)
    end.

(** ** The source functions *)

(** [hashsum2bn] (lines 27-39): the bytes are reversed into [buf] and [buf]
    is parsed big-endian. *)
Definition hashsum2bn (dgst : list byte) : M (option Z) :=
  if Z.of_nat (length dgst) >? 64 then ret None
  else lib (Some (getbnfrombuf (rev dgst))).

Definition raise {A} (f : gost_func) (r : gost_reason) : M (option A) :=
  GOSTerr f r ;; ret None.

(** [!a || !b]: the second call is made only when the first succeeded. *)
Definition and_then {A B} (c1 : M (option A)) (c2 : M (option B))
    : M (option B) :=
  try _ <- c1 orelse ret None ;; c2.

(** Lines 196-210 of [gost_ec_sign]: the reduced digest [e].  The source
    does not examine the status of [BN_one] here, so the store of 1 is taken
    to succeed. *)
Definition gost_ec_sign_e (md order : Z) : M (option Z) :=
  try e <- and_then BN_CTX_get (BN_mod md order)
    orelse raise GOST_F_GOST_EC_SIGN ERR_R_INTERNAL_ERROR ;;
  ret (Some (if BN_is_zero e then 1 else e)).

(** Lines 220-231 of [gost_ec_sign]: the draw of the nonce and the scalar of
    fixed bit length that is handed to [EC_POINT_mul]. *)
Definition gost_ec_sign_nonce (order : Z) : M (option Z) :=
  try k <- BN_rand_range order
    orelse raise GOST_F_GOST_EC_SIGN GOST_R_RNG_ERROR ;;
  try k <- BN_add k order orelse ret None ;;
  if BN_num_bits k <=? BN_num_bits order then BN_add k order
  else ret (Some k).

(** Lines 218-274 of [gost_ec_sign].  Both do-while loops re-enter at line
    220, so one recursive function carries them; [X], [r], [tmp], [tmp2] and
    [s] are the local pointers, NULL until their first use. *)
Fixpoint gost_ec_sign_loop (fuel : nat) (grp : EC_GROUP)
    (order priv_key e : Z) (X r tmp tmp2 s : option Z) : M (option (Z * Z)) :=
  match fuel with
  | O => out_of_fuel
  | S fuel' =>
    try k <- gost_ec_sign_nonce order orelse ret None ;;
    try C <- EC_POINT_mul grp (Some k) None None
      orelse raise GOST_F_GOST_EC_SIGN ERR_R_EC_LIB ;;
    X <- BN_CTX_get_once X ;;
    r <- BN_CTX_get_once r ;;
    match X, r with
    | Some _, Some _ =>
      try X <- EC_POINT_get_affine_coordinates_GFp grp C
        orelse raise GOST_F_GOST_EC_SIGN ERR_R_EC_LIB ;;
      try r <- BN_nnmod X order
        orelse raise GOST_F_GOST_EC_SIGN ERR_R_INTERNAL_ERROR ;;
      if BN_is_zero r then
        gost_ec_sign_loop fuel' grp order priv_key e (Some X) (Some r) tmp tmp2 s
      else
        tmp <- BN_CTX_get_once tmp ;;
        tmp2 <- BN_CTX_get_once tmp2 ;;
        s <- BN_CTX_get_once s ;;
        match tmp, tmp2, s with
        | Some _, Some _, Some _ =>
          try tmp <- BN_mod_mul priv_key r order
            orelse raise GOST_F_GOST_EC_SIGN ERR_R_INTERNAL_ERROR ;;
          try tmp2 <- BN_mod_mul k e order
            orelse raise GOST_F_GOST_EC_SIGN ERR_R_INTERNAL_ERROR ;;
          try s <- BN_mod_add tmp tmp2 order
            orelse raise GOST_F_GOST_EC_SIGN ERR_R_INTERNAL_ERROR ;;
          if BN_is_zero s then
            gost_ec_sign_loop fuel' grp order priv_key e
              (Some X) (Some r) (Some tmp) (Some tmp2) (Some s)
          else ret (Some (r, s))
        | _, _, _ => raise GOST_F_GOST_EC_SIGN ERR_R_MALLOC_FAILURE
        end
    | _, _ => raise GOST_F_GOST_EC_SIGN ERR_R_MALLOC_FAILURE
    end
  end.

(** [gost_ec_sign] (lines 154-295); NULL is [None]. *)
Definition gost_ec_sign (dgst : list byte) : M (option DSA_SIG) :=
  let dlen := Z.of_nat (length dgst) in
  try _ <- BN_CTX_new orelse raise GOST_F_GOST_EC_SIGN ERR_R_MALLOC_FAILURE ;;
  OPENSSL_assert ((dlen =? 32) || (dlen =? 64)) ;;
  md <- hashsum2bn dgst ;;
  newsig <- DSA_SIG_new ;;
  match newsig, md with
  | Some _, Some md =>
    try grp <- EC_KEY_get0_group
      orelse raise GOST_F_GOST_EC_SIGN ERR_R_INTERNAL_ERROR ;;
    try order <- and_then BN_CTX_get (EC_GROUP_get_order grp)
      orelse raise GOST_F_GOST_EC_SIGN ERR_R_INTERNAL_ERROR ;;
    try priv_key <- EC_KEY_get0_private_key
      orelse raise GOST_F_GOST_EC_SIGN ERR_R_INTERNAL_ERROR ;;
    try e <- gost_ec_sign_e md order orelse ret None ;;
    k <- BN_CTX_get ;;
    C <- EC_POINT_new ;;
    match k, C with
    | Some _, Some _ =>
      fuel <- loop_bound ;;
      try rs <- gost_ec_sign_loop fuel grp order priv_key e
                  None None None None None
        orelse ret None ;;
      s' <- BN_dup (snd rs) ;;
      r' <- BN_dup (fst rs) ;;
      match s', r' with
      | Some s', Some r' => ret (Some (mkSig r' s'))
      | _, _ => raise GOST_F_GOST_EC_SIGN ERR_R_MALLOC_FAILURE
      end
    | _, _ => raise GOST_F_GOST_EC_SIGN ERR_R_MALLOC_FAILURE
    end
  | _, _ => raise GOST_F_GOST_EC_SIGN ERR_R_MALLOC_FAILURE
  end.

(** Lines 349-363 of [gost_ec_verify]: the reduced digest [e]. *)
Definition gost_ec_verify_e (dgst : list byte) (order : Z) : M (option Z) :=
  md <- hashsum2bn dgst ;;
  try e <- match md with None => ret None | Some md => BN_mod md order end
    orelse raise GOST_F_GOST_EC_VERIFY ERR_R_INTERNAL_ERROR ;;
  if BN_is_zero e then
    try e <- BN_one orelse raise GOST_F_GOST_EC_VERIFY ERR_R_INTERNAL_ERROR ;;
    ret (Some e)
  else ret (Some e).

Definition fail0 (f : gost_func) (r : gost_reason) : M Z :=
  GOSTerr f r ;; ret 0.

(** [gost_ec_verify] (lines 301-416). *)
Definition gost_ec_verify (dgst : list byte) (sig : DSA_SIG) : M Z :=
  let dgst_len := Z.of_nat (length dgst) in
  try grp <- EC_KEY_get0_group orelse OPENSSL_die ;;
  try _ <- BN_CTX_new orelse fail0 GOST_F_GOST_EC_VERIFY ERR_R_MALLOC_FAILURE ;;
  order <- BN_CTX_get ;;
  e <- BN_CTX_get ;;
  z1 <- BN_CTX_get ;;
  z2 <- BN_CTX_get ;;
  tmp <- BN_CTX_get ;;
  X <- BN_CTX_get ;;
  R <- BN_CTX_get ;;
  v <- BN_CTX_get ;;
  match order, e, z1, z2, tmp, X, R, v with
  | Some _, Some _, Some _, Some _, Some _, Some _, Some _, Some _ =>
    try pub_key <- EC_KEY_get0_public_key
      orelse fail0 GOST_F_GOST_EC_VERIFY ERR_R_INTERNAL_ERROR ;;
    try order <- EC_GROUP_get_order grp
      orelse fail0 GOST_F_GOST_EC_VERIFY ERR_R_INTERNAL_ERROR ;;
    if BN_is_zero (sig_s sig) || BN_is_zero (sig_r sig)
       || (BN_cmp (sig_s sig) order >=? 1) || (BN_cmp (sig_r sig) order >=? 1)
    then fail0 GOST_F_GOST_EC_VERIFY GOST_R_SIGNATURE_PARTS_GREATER_THAN_Q
    else
      OPENSSL_assert ((dgst_len =? 32) || (dgst_len =? 64)) ;;
      try e <- gost_ec_verify_e dgst order orelse ret 0 ;;
      try z <- (try v <- BN_mod_inverse e order orelse ret None ;;
                try z1 <- BN_mod_mul (sig_s sig) v order orelse ret None ;;
                try tmp <- BN_sub order (sig_r sig) orelse ret None ;;
                try z2 <- BN_mod_mul tmp v order orelse ret None ;;
                ret (Some (z1, z2)))
        orelse fail0 GOST_F_GOST_EC_VERIFY ERR_R_INTERNAL_ERROR ;;
      try _ <- EC_POINT_new
        orelse fail0 GOST_F_GOST_EC_VERIFY ERR_R_MALLOC_FAILURE ;;
      try C <- EC_POINT_mul grp (Some (fst z)) (Some pub_key) (Some (snd z))
        orelse fail0 GOST_F_GOST_EC_VERIFY ERR_R_EC_LIB ;;
      try X <- EC_POINT_get_affine_coordinates_GFp grp C
        orelse fail0 GOST_F_GOST_EC_VERIFY ERR_R_EC_LIB ;;
      try R <- BN_mod X order
        orelse fail0 GOST_F_GOST_EC_VERIFY ERR_R_INTERNAL_ERROR ;;
      if negb (BN_cmp R (sig_r sig) =? 0) then
        fail0 GOST_F_GOST_EC_VERIFY GOST_R_SIGNATURE_MISMATCH
      else ret 1
  | _, _, _, _, _, _, _, _ =>
    fail0 GOST_F_GOST_EC_VERIFY ERR_R_MALLOC_FAILURE
  end.

(** [gost_ec_compute_public] (lines 423-470). *)
Definition gost_ec_compute_public : M Z :=
  try grp <- EC_KEY_get0_group
    orelse fail0 GOST_F_GOST_EC_COMPUTE_PUBLIC GOST_R_KEY_IS_NOT_INITIALIZED ;;
  try _ <- BN_CTX_new
    orelse fail0 GOST_F_GOST_EC_COMPUTE_PUBLIC ERR_R_MALLOC_FAILURE ;;
  try priv_key <- EC_KEY_get0_private_key
    orelse fail0 GOST_F_GOST_EC_COMPUTE_PUBLIC ERR_R_EC_LIB ;;
  try _ <- EC_POINT_new
    orelse fail0 GOST_F_GOST_EC_COMPUTE_PUBLIC ERR_R_MALLOC_FAILURE ;;
  try pub_key <- EC_POINT_mul grp (Some priv_key) None None
    orelse fail0 GOST_F_GOST_EC_COMPUTE_PUBLIC ERR_R_EC_LIB ;;
  try _ <- EC_KEY_set_public_key pub_key
    orelse fail0 GOST_F_GOST_EC_COMPUTE_PUBLIC ERR_R_EC_LIB ;;
  ret 1.

(** Lines 501-507 of [gost_ec_keygen]: draw until the scalar is not zero. *)
Fixpoint gost_ec_keygen_loop (fuel : nat) (order : Z) : M (option Z) :=
  match fuel with
  | O => out_of_fuel
  | S fuel' =>
    try d <- BN_rand_range order
      orelse raise GOST_F_GOST_EC_KEYGEN GOST_R_RNG_ERROR ;;
    if BN_is_zero d then gost_ec_keygen_loop fuel' order else ret (Some d)
  end.

(** Lines 489-514 of [gost_ec_keygen]: the value of [ok] at the label
    [end]. *)
Definition gost_ec_keygen_store (grp : EC_GROUP) : M bool :=
  order <- BN_new ;;
  d <- BN_new ;;
  match order, d with
  | Some _, Some _ =>
    try order <- EC_GROUP_get_order grp
      orelse (GOSTerr GOST_F_GOST_EC_KEYGEN ERR_R_INTERNAL_ERROR ;; ret false) ;;
    fuel <- loop_bound ;;
    try d <- gost_ec_keygen_loop fuel order orelse ret false ;;
    try _ <- EC_KEY_set_private_key d
      orelse (GOSTerr GOST_F_GOST_EC_KEYGEN ERR_R_INTERNAL_ERROR ;; ret false) ;;
    ret true
  | _, _ => GOSTerr GOST_F_GOST_EC_KEYGEN ERR_R_MALLOC_FAILURE ;; ret false
  end.

(** [gost_ec_keygen] (lines 478-522). *)
Definition gost_ec_keygen : M Z :=
  try grp <- EC_KEY_get0_group
    orelse fail0 GOST_F_GOST_EC_KEYGEN ERR_R_INTERNAL_ERROR ;;
  ok <- gost_ec_keygen_store grp ;;
  if ok then gost_ec_compute_public else ret 0.

(** ** A small curve for the examples

    The curve [y^2 = x^3 + 2x + 2] over the field of 17 elements has 19
    points; [(5, 1)] generates them. *)

Definition toy_group : EC_GROUP := mkGroup 17 2 2 (Affine 5 1) 19.

Definition toy_points : list EC_POINT :=
  Infinity ::
  filter (on_curve toy_group)
    (map (fun xy => Affine (fst xy) (snd xy))
       (list_prod (map Z.of_nat (seq 0 17)) (map Z.of_nat (seq 0 17)))).

Definition toy_key : EC_KEY :=
  mkKey (Some toy_group) (Some 5) (Some (Affine 9 16)).

Definition toy_world (tape : list Z) (plan : list bool) : world :=
  mkWorld toy_key tape plan [].

Definition toy_digest : list byte := repeat x01 32.

Definition short_digest : list byte := [x01; x02; x03].

(** ** Reference definitions for the statements *)

(** The digest read as a little-endian integer. *)
Definition le_int (l : list byte) : Z :=
  fold_right (fun b acc => byte_val b + 256 * acc) 0 l.

(** The reduced digest of the specification. *)
Definition reduced_digest (dgst : list byte) (q : Z) : Z :=
  let e := le_int dgst mod q in if e =? 0 then 1 else e.

(** The scalar of the timing-safety transform. *)
Definition blinded (k q : Z) : Z :=
  if BN_num_bits (k + q) <=? BN_num_bits q then k + q + q else k + q.

(** The pair that the loop of [gost_ec_sign] computes from the raw draw
    [z]: [k] is the scalar handed to [EC_POINT_mul], [x] the x-coordinate of
    [k·G]; there is no pair when [k·G] is the point at infinity. *)
Definition sig_of_nonce (grp : EC_GROUP) (q d e z : Z) : option (Z * Z) :=
  let k := blinded (z mod q) q in
  match affine_x (ec_mul grp (Some k) None None) with
  | None => None
  | Some x => let r := x mod q in Some (r, (d * r + k * e) mod q)
  end.

(** A draw that makes the loop of [gost_ec_sign] go round again. *)
Definition retried (grp : EC_GROUP) (q d e z : Z) : Prop :=
  exists r s, sig_of_nonce grp q d e z = Some (r, s) /\ (r = 0 \/ s = 0).

(** What [gost_ec_verify] does when no library call fails for lack of
    memory: the verdict, read off the source path by path. *)
Inductive verdict : Type :=
| Valid
| Failed (r : gost_reason)
| Died.

Definition verify_calm (grp : EC_GROUP) (Q : EC_POINT) (dgst : list byte)
    (sig : DSA_SIG) : verdict :=
  let q := order grp in
  let dgst_len := Z.of_nat (length dgst) in
  if q =? 0 then Failed ERR_R_INTERNAL_ERROR
  else if BN_is_zero (sig_s sig) || BN_is_zero (sig_r sig)
          || (BN_cmp (sig_s sig) q >=? 1) || (BN_cmp (sig_r sig) q >=? 1)
  then Failed GOST_R_SIGNATURE_PARTS_GREATER_THAN_Q
  else if negb ((dgst_len =? 32) || (dgst_len =? 64)) then Died
  else
    let e0 := Z.rem (le_int dgst) q in
    let e := if BN_is_zero e0 then 1 else e0 in
    match bn_mod_inverse e q with
    | None => Failed ERR_R_INTERNAL_ERROR
    | Some v =>
      match bn_mod_mul (sig_s sig) v q, bn_mod_mul (q - sig_r sig) v q with
      | Some z1, Some z2 =>
        match affine_x (ec_mul grp (Some z1) (Some Q) (Some z2)) with
        | None => Failed ERR_R_EC_LIB
        | Some x =>
          if negb (BN_cmp (Z.rem x q) (sig_r sig) =? 0)
          then Failed GOST_R_SIGNATURE_MISMATCH
          else Valid
        end
      | _, _ => Failed ERR_R_INTERNAL_ERROR
      end
    end.

Definition verdict_outcome (w : world) (v : verdict) : outcome Z :=
  match v with
  | Valid => Ret 1 w
  | Failed r => Ret 0 (push_err w (GOST_F_GOST_EC_VERIFY, r))
  | Died => Aborted w
  end.

(** The fields of the world that a library call without side effect leaves
    alone. *)
Definition frame (w w' : world) : Prop :=
  key w' = key w /\ rand w' = rand w /\ errq w' = errq w.

(** [m], started in [w] with fewer than [n] draws left on the tape, ends
    (it returns or stops at an assertion, and does not run out of fuel) in a
    world related to [w] by [R]. *)
Definition steady (n : nat) (R : world -> world -> Prop) {A} (m : M A)
    (w : world) : Prop :=
  (length (rand w) < n)%nat ->
  match m w with
  | Ret _ w' => R w w'
  | Aborted w' => R w w'
  | NoFuel => False
  end.

(** The key object is untouched and the tape has not grown. *)
Definition same_key (w w' : world) : Prop :=
  key w' = key w /\ (length (rand w') <= length (rand w))%nat.

(** The tape has not grown. *)
Definition tape_shrinks (w w' : world) : Prop :=
  (length (rand w') <= length (rand w))%nat.

(** The world after key generation stored the scalar 7 and before the
    public point is derived, with one allocation failure ahead. *)
Definition toy_world_stored : world :=
  mkWorld (mkKey (Some toy_group) (Some 7) (Some (Affine 9 16))) []
    [false; true] [].

(** The same world after the derivation of the public point failed. *)
Definition toy_world_failed : world :=
  mkWorld (mkKey (Some toy_group) (Some 7) (Some (Affine 9 16))) [] []
    [(GOST_F_GOST_EC_COMPUTE_PUBLIC, ERR_R_MALLOC_FAILURE)].

(** ** Parameter sets

    The tables [R3410_2012_512_paramset] and [R3410_2001_paramset] and the
    type of their entries are declared in other files of the engine.  An
    entry holds the identifier of the curve and six hexadecimal strings, the
    fields that [fill_GOST_EC_params] reads; a table is the list of its
    entries, and the entry whose [nid] is [NID_undef] ends it. *)

Definition NID_undef : Z := 0.

Module R3410_ec.
Record params : Type := mk {
  nid : Z;
  a : String.string;
  b : String.string;
  p : String.string;
  q : String.string;
  x : String.string;
  y : String.string
}.
End R3410_ec.

(** The loops of lines 47-51 and 55-59 of [gost_nid2params].  The C loop
    relies on the terminator and would run past a table without one; the
    end of the list stands for this case, and the properties of the search
    are stated for tables that hold their terminator. *)
Fixpoint paramset_search (params : list R3410_ec.params) (nid : Z)
    : option R3410_ec.params :=
  match params with
  | [] => None
  | entry :: rest =>
      if R3410_ec.nid entry =? NID_undef then None
      else if R3410_ec.nid entry =? nid then Some entry
      else paramset_search rest nid
  end.

(** [gost_nid2params] (lines 41-62); the two tables are arguments. *)
Definition gost_nid2params
    (R3410_2012_512_paramset R3410_2001_paramset : list R3410_ec.params)
    (nid : Z) : option R3410_ec.params :=
  match paramset_search R3410_2012_512_paramset nid with
  | Some params => Some params
  | None => paramset_search R3410_2001_paramset nid
  end.

(** A table holds its terminator. *)
Definition terminated (params : list R3410_ec.params) : bool :=
  existsb (fun entry => R3410_ec.nid entry =? NID_undef) params.

(** The entries of a table before its terminator. *)
Fixpoint live_entries (params : list R3410_ec.params)
    : list R3410_ec.params :=
  match params with
  | [] => []
  | entry :: rest =>
      if R3410_ec.nid entry =? NID_undef then []
      else entry :: live_entries rest
  end.

Definition toy_params (n : Z) (tag : byte) : R3410_ec.params :=
  let hex := String.string_of_list_byte [tag] in
  R3410_ec.mk n hex hex hex hex hex hex.

Definition toy_paramset_2012 : list R3410_ec.params :=
  [toy_params 7 x41; toy_params 9 x42; toy_params NID_undef x30;
   toy_params 11 x45].

Definition toy_paramset_2001 : list R3410_ec.params :=
  [toy_params 9 x43; toy_params 5 x44; toy_params NID_undef x30].

(** ** What the functions report

    [silent m]: [m] queues no error.  [reports tag lax ok failed m]: when
    [m] returns a value that is [ok], it has queued nothing; when it returns
    a value that is [failed], it has queued exactly one error, of a
    function in [tag], or, if [lax] is set, possibly none. *)

Definition silent {A} (m : M A) : Prop :=
  forall w a w', m w = Ret a w' -> errq w' = errq w.

Definition reports {A} (tag : gost_func -> Prop) (lax : bool)
    (ok failed : A -> Prop) (m : M A) : Prop :=
  forall w a w', m w = Ret a w' ->
    (ok a /\ errq w' = errq w)
    \/ (failed a
        /\ ((lax = true /\ errq w' = errq w)
            \/ exists f r, tag f /\ errq w' = (f, r) :: errq w)).

Definition non_null {A} (a : option A) : Prop := a <> None.
Definition is_null {A} (a : option A) : Prop := a = None.

(** A digest of 32 bytes whose little-endian value is 19, and one whose
    value is 1: both reduce to [e = 1] modulo 19. *)
Definition toy_digest_19 : list byte := x13 :: repeat x00 31.
Definition toy_digest_1 : list byte := x01 :: repeat x00 31.
Definition toy_digest_10 : list byte := x0a :: repeat x00 31.

(** * Proofs *)

(** ** The monad *)

Lemma bind_Ret_inv {A B} (m : M A) (f : A -> M B) w b w' :
  bind m f w = Ret b w' ->
  exists a w1, m w = Ret a w1 /\ f a w1 = Ret b w'.
Proof.
  unfold bind. destruct (m w) as [a w1| |]; intro H; try discriminate.
  exists a, w1. split; [reflexivity | exact H].
Qed.

Lemma bind_Ret {A B} (m : M A) (f : A -> M B) w a w1 :
  m w = Ret a w1 -> bind m f w = f a w1.
Proof. unfold bind. intros ->. reflexivity. Qed.

Lemma frame_refl w : frame w w.
Proof. repeat split. Qed.

Lemma frame_trans w1 w2 w3 : frame w1 w2 -> frame w2 w3 -> frame w1 w3.
Proof.
  unfold frame. intros (a & b & c) (a' & b' & c').
  repeat split; congruence.
Qed.

Lemma lib_inv {A} (v : option A) w a w' :
  lib v w = Ret a w' -> frame w w' /\ (a = v \/ a = None).
Proof.
  unfold lib, frame. destruct w as [k rd f eq]; simpl.
  destruct f as [|[] f]; intro H; injection H as <- <-; simpl; auto.
Qed.

Lemma lib_calm {A} (v : option A) w : faults w = [] -> lib v w = Ret v w.
Proof. unfold lib. intros ->. reflexivity. Qed.

Lemma lib_Some_inv {A} (v : option A) w a w' :
  lib v w = Ret (Some a) w' -> frame w w' /\ v = Some a.
Proof.
  intro H. apply lib_inv in H as (F & [E | E]); [auto | discriminate].
Qed.

Lemma BN_CTX_get_once_inv v w a w' :
  BN_CTX_get_once v w = Ret a w' -> frame w w'.
Proof.
  destruct v; simpl.
  - unfold ret. intro H. injection H as <- <-. apply frame_refl.
  - intro H. apply lib_inv in H. tauto.
Qed.

Lemma and_then_Some_inv {A B} (c1 : M (option A)) (c2 : M (option B)) w b w' :
  and_then c1 c2 w = Ret (Some b) w' ->
  exists a w1, c1 w = Ret (Some a) w1 /\ c2 w1 = Ret (Some b) w'.
Proof.
  unfold and_then. intro H.
  apply bind_Ret_inv in H as (r & w1 & H1 & H2).
  destruct r as [a|]; [eauto | discriminate].
Qed.

Lemma raise_not_Some {A} f r w (a : A) w' : raise f r w <> Ret (Some a) w'.
Proof. unfold raise, bind, GOSTerr, ret. discriminate. Qed.

(** ** BIGNUM arithmetic *)

Lemma bn_nnmod_pos m q : 0 < q -> bn_nnmod m q = Some (m mod q).
Proof.
  intro Hq. unfold bn_nnmod.
  destruct (Z.eqb_spec q 0) as [->|_]; [lia|]. f_equal.
  pose proof (Z.rem_bound_abs m q ltac:(lia)) as Hb.
  pose proof (Z.quot_rem' m q) as Hqr.
  destruct (Z.ltb_spec (Z.rem m q) 0) as [Hlt|Hge].
  - rewrite Z.abs_eq by lia.
    apply Z.mod_unique with (q := Z.quot m q - 1); lia.
  - apply Z.mod_unique with (q := Z.quot m q); lia.
Qed.

Lemma byte_val_bound b : 0 <= byte_val b < 256.
Proof.
  unfold byte_val. pose proof (Byte.to_N_bounded b). lia.
Qed.

Lemma le_int_nonneg l : 0 <= le_int l.
Proof.
  induction l as [|b l IH]; [simpl; lia|].
  change (le_int (b :: l)) with (byte_val b + 256 * le_int l).
  pose proof (byte_val_bound b). lia.
Qed.

Lemma getbnfrombuf_app l b :
  getbnfrombuf (l ++ [b]) = getbnfrombuf l * 256 + byte_val b.
Proof. unfold getbnfrombuf. rewrite fold_left_app. reflexivity. Qed.

(** Parsing the reversed buffer big-endian reads the digest little-endian. *)
Lemma getbnfrombuf_rev l : getbnfrombuf (rev l) = le_int l.
Proof.
  induction l as [|b l IH]; [reflexivity|].
  simpl rev. rewrite getbnfrombuf_app, IH.
  change (le_int (b :: l)) with (byte_val b + 256 * le_int l). lia.
Qed.

Lemma hashsum2bn_Some_inv dgst w md w' :
  hashsum2bn dgst w = Ret (Some md) w' -> frame w w' /\ md = le_int dgst.
Proof.
  unfold hashsum2bn. destruct (Z.of_nat (length dgst) >? 64).
  - discriminate.
  - intro H. apply lib_Some_inv in H as (F & E).
    injection E as <-. split; [exact F | apply getbnfrombuf_rev].
Qed.

Lemma BN_num_bits_pos a : 0 < a -> BN_num_bits a = Z.log2 a + 1.
Proof.
  intro H. unfold BN_num_bits.
  destruct (Z.eqb_spec a 0); [lia|]. rewrite Z.abs_eq by lia. reflexivity.
Qed.

Lemma blinded_cases k q :
  blinded k q = k + q \/ blinded k q = k + q + q.
Proof. unfold blinded. destruct (_ <=? _); auto. Qed.

Lemma blinded_mod k q : 0 <= k < q -> blinded k q mod q = k.
Proof.
  intro H. destruct (blinded_cases k q) as [-> | ->].
  - replace (k + q) with (k + 1 * q) by ring.
    rewrite Z.mod_add by lia. apply Z.mod_small; lia.
  - replace (k + q + q) with (k + 2 * q) by ring.
    rewrite Z.mod_add by lia. apply Z.mod_small; lia.
Qed.

Lemma blinded_bits k q :
  0 <= k < q -> BN_num_bits q < BN_num_bits (blinded k q).
Proof.
  intro H. unfold blinded.
  destruct (Z.leb_spec (BN_num_bits (k + q)) (BN_num_bits q)) as [Hle|Hgt].
  - rewrite !BN_num_bits_pos by lia.
    assert (Z.log2 (2 * q) <= Z.log2 (k + q + q))
      by (apply Z.log2_le_mono; lia).
    rewrite Z.log2_double in * by lia. lia.
  - exact Hgt.
Qed.

Lemma blinded_pos k q : 0 <= k < q -> 0 < blinded k q.
Proof. intro H. destruct (blinded_cases k q) as [-> | ->]; lia. Qed.

(** ** The group of points *)

Lemma EC_POINT_eqb_eq P Q : EC_POINT_eqb P Q = true <-> P = Q.
Proof.
  destruct P as [|x1 y1], Q as [|x2 y2]; simpl; split; intro H;
    try reflexivity; try discriminate.
  - apply andb_true_iff in H as (Hx & Hy).
    apply Z.eqb_eq in Hx, Hy. congruence.
  - injection H as -> ->. rewrite !Z.eqb_refl. reflexivity.
Qed.

Lemma ec_add_inf_r grp P : ec_add grp P Infinity = P.
Proof. destruct P; reflexivity. Qed.

Lemma ec_mul_nat_inf grp n : ec_mul_nat grp n Infinity = Infinity.
Proof. induction n as [|n IH]; simpl; [reflexivity | exact IH]. Qed.

Lemma on_curve_nonneg grp x y :
  on_curve grp (Affine x y) = true -> 0 <= x.
Proof.
  simpl. rewrite !andb_true_iff. intros ((((Hx & _) & _) & _) & _).
  apply Z.leb_le. exact Hx.
Qed.

Section GroupLaws.
Variable grp : EC_GROUP.
Hypothesis Hok : ec_group_ok grp.

Lemma order_ge_2 : 2 <= order grp.
Proof. apply Z.prime_ge_2, (ok_order_prime _ Hok). Qed.

Lemma on_curve_mul_nat n P :
  on_curve grp P = true -> on_curve grp (ec_mul_nat grp n P) = true.
Proof.
  intro HP. induction n as [|n IH]; simpl; [reflexivity|].
  apply (ok_closed _ Hok); assumption.
Qed.

Lemma ec_mul_nat_add n m P :
  on_curve grp P = true ->
  ec_mul_nat grp (n + m) P
  = ec_add grp (ec_mul_nat grp n P) (ec_mul_nat grp m P).
Proof.
  intro HP. induction n as [|n IH]; simpl; [reflexivity|].
  rewrite IH. apply (ok_assoc _ Hok); auto using on_curve_mul_nat.
Qed.

Lemma ec_mul_pos_nat p P :
  on_curve grp P = true ->
  ec_mul_pos grp p P = ec_mul_nat grp (Pos.to_nat p) P.
Proof.
  intro HP. induction p as [p IH|p IH|]; simpl ec_mul_pos.
  - rewrite IH, Pos2Nat.inj_xI.
    change (S (2 * Pos.to_nat p)) with (1 + (Pos.to_nat p + (Pos.to_nat p + 0)))%nat.
    rewrite Nat.add_0_r, ec_mul_nat_add by exact HP.
    rewrite ec_mul_nat_add by exact HP.
    simpl. rewrite ec_add_inf_r. reflexivity.
  - rewrite IH, Pos2Nat.inj_xO.
    change (2 * Pos.to_nat p)%nat with (Pos.to_nat p + (Pos.to_nat p + 0))%nat.
    rewrite Nat.add_0_r, ec_mul_nat_add by exact HP. reflexivity.
  - simpl. rewrite ec_add_inf_r. reflexivity.
Qed.

Lemma ec_smul_nat n P :
  0 <= n -> on_curve grp P = true ->
  ec_smul grp n P = ec_mul_nat grp (Z.to_nat n) P.
Proof.
  intros Hn HP. destruct n as [|p|p]; simpl.
  - reflexivity.
  - apply ec_mul_pos_nat, HP.
  - lia.
Qed.

Lemma on_curve_smul n P :
  0 <= n -> on_curve grp P = true -> on_curve grp (ec_smul grp n P) = true.
Proof.
  intros Hn HP. rewrite ec_smul_nat by assumption.
  apply on_curve_mul_nat, HP.
Qed.

Lemma ec_smul_add n m P :
  0 <= n -> 0 <= m -> on_curve grp P = true ->
  ec_smul grp (n + m) P = ec_add grp (ec_smul grp n P) (ec_smul grp m P).
Proof.
  intros Hn Hm HP. rewrite !ec_smul_nat by (assumption || lia).
  rewrite Z2Nat.inj_add by assumption. apply ec_mul_nat_add, HP.
Qed.

Lemma ec_mul_nat_mul n m P :
  on_curve grp P = true ->
  ec_mul_nat grp (n * m) P = ec_mul_nat grp n (ec_mul_nat grp m P).
Proof.
  intro HP. induction n as [|n IH]; simpl; [reflexivity|].
  rewrite ec_mul_nat_add, IH by exact HP. reflexivity.
Qed.

Lemma ec_smul_smul n m P :
  0 <= n -> 0 <= m -> on_curve grp P = true ->
  ec_smul grp n (ec_smul grp m P) = ec_smul grp (n * m) P.
Proof.
  intros Hn Hm HP.
  rewrite (ec_smul_nat m P), (ec_smul_nat n), (ec_smul_nat (n * m))
    by (auto using on_curve_mul_nat; lia).
  rewrite Z2Nat.inj_mul by assumption. symmetry. apply ec_mul_nat_mul, HP.
Qed.

(** The scalar only matters modulo the order of the generator. *)
Lemma ec_smul_mod_order n :
  0 <= n ->
  ec_smul grp n (generator grp) = ec_smul grp (n mod order grp) (generator grp).
Proof.
  intro Hn. pose proof order_ge_2 as Hq.
  pose proof (ok_generator _ Hok) as HG.
  pose proof (Z.mod_pos_bound n (order grp) ltac:(lia)) as Hb.
  assert (Hd : 0 <= n / order grp) by (apply Z.div_pos; lia).
  rewrite (Z.div_mod n (order grp)) at 1 by lia.
  rewrite ec_smul_add by (assumption || nia).
  rewrite (Z.mul_comm (order grp)), <- ec_smul_smul by (assumption || lia).
  rewrite (ok_generator_order _ Hok).
  rewrite ec_smul_nat by (reflexivity || lia).
  rewrite ec_mul_nat_inf. reflexivity.
Qed.

Lemma ec_smul_congr n m :
  0 <= n -> 0 <= m -> n mod order grp = m mod order grp ->
  ec_smul grp n (generator grp) = ec_smul grp m (generator grp).
Proof.
  intros Hn Hm E.
  rewrite (ec_smul_mod_order n), (ec_smul_mod_order m), E by assumption.
  reflexivity.
Qed.

Lemma ec_smul_blinded k :
  0 <= k < order grp ->
  ec_smul grp (blinded k (order grp)) (generator grp)
  = ec_smul grp k (generator grp).
Proof.
  intro Hk. apply ec_smul_congr.
  - pose proof (blinded_pos k (order grp) Hk). lia.
  - lia.
  - rewrite blinded_mod by exact Hk. symmetry. apply Z.mod_small, Hk.
Qed.

(** [EC_POINT_mul] with one scalar. *)
Lemma ec_mul_generator n :
  ec_mul grp (Some n) None None = ec_smul grp n (generator grp).
Proof. unfold ec_mul. apply ec_add_inf_r. Qed.

(** [EC_POINT_mul] with two scalars, on a multiple of the generator. *)
Lemma ec_mul_combined z1 z2 d :
  0 <= z1 -> 0 <= z2 -> 0 <= d ->
  ec_mul grp (Some z1) (Some (ec_smul grp d (generator grp))) (Some z2)
  = ec_smul grp (z1 + z2 * d) (generator grp).
Proof.
  intros H1 H2 Hd. pose proof (ok_generator _ Hok) as HG.
  unfold ec_mul.
  rewrite ec_smul_smul, ec_smul_add by (assumption || nia).
  reflexivity.
Qed.
End GroupLaws.

(** ** The small curve *)

Lemma in_Z_range (lo len : nat) (n : Z) :
  Z.of_nat lo <= n < Z.of_nat (lo + len) ->
  In n (map Z.of_nat (seq lo len)).
Proof.
  intro H. apply in_map_iff. exists (Z.to_nat n). split; [lia|].
  apply in_seq. lia.
Qed.

Lemma prime_19 : Z.prime 19.
Proof.
  split; [lia|]. intros n Hn Hd.
  apply Z.mod_divide in Hd; [|lia].
  assert (Hin : In n (map Z.of_nat (seq 2 17))) by (apply in_Z_range; lia).
  assert (Hall : forallb (fun n => negb (19 mod n =? 0)) (map Z.of_nat (seq 2 17)) = true)
    by (vm_compute; reflexivity).
  rewrite forallb_forall in Hall. specialize (Hall n Hin).
  rewrite Hd in Hall. discriminate.
Qed.

Lemma toy_points_complete P : on_curve toy_group P = true -> In P toy_points.
Proof.
  intro H. destruct P as [|x y]; [left; reflexivity|]. right.
  apply filter_In. split; [|exact H].
  apply in_map_iff. exists (x, y). split; [reflexivity|].
  simpl in H. rewrite !andb_true_iff in H.
  destruct H as ((((Hx0 & Hx1) & Hy0) & Hy1) & _).
  apply Z.leb_le in Hx0, Hy0. apply Z.ltb_lt in Hx1, Hy1.
  apply in_prod; apply in_Z_range; simpl; lia.
Qed.

Lemma toy_group_ok : ec_group_ok toy_group.
Proof.
  assert (Hall :
    forallb (fun P => forallb (fun Q =>
      on_curve toy_group (ec_add toy_group P Q)
      && EC_POINT_eqb (ec_add toy_group P Q) (ec_add toy_group Q P)
      && forallb (fun R =>
           EC_POINT_eqb (ec_add toy_group P (ec_add toy_group Q R))
                        (ec_add toy_group (ec_add toy_group P Q) R))
         toy_points) toy_points) toy_points = true)
    by (vm_compute; reflexivity).
  assert (Hpq : forall P Q,
    on_curve toy_group P = true -> on_curve toy_group Q = true ->
    on_curve toy_group (ec_add toy_group P Q) = true
    /\ ec_add toy_group P Q = ec_add toy_group Q P
    /\ forall R, on_curve toy_group R = true ->
         ec_add toy_group P (ec_add toy_group Q R)
         = ec_add toy_group (ec_add toy_group P Q) R).
  { intros P Q HP HQ.
    rewrite forallb_forall in Hall.
    specialize (Hall P (toy_points_complete P HP)).
    rewrite forallb_forall in Hall.
    specialize (Hall Q (toy_points_complete Q HQ)).
    rewrite !andb_true_iff in Hall. destruct Hall as ((Hc & He) & Ha).
    split; [exact Hc|]. split; [apply EC_POINT_eqb_eq, He|].
    intros R HR. rewrite forallb_forall in Ha.
    apply EC_POINT_eqb_eq, Ha, toy_points_complete, HR. }
  constructor.
  - exact prime_19.
  - reflexivity.
  - intros P Q HP HQ. apply (Hpq P Q HP HQ).
  - intros P Q HP HQ. apply (Hpq P Q HP HQ).
  - intros P Q R HP HQ HR. apply (Hpq P Q HP HQ), HR.
  - vm_compute. reflexivity.
Qed.

(** The model at work on the small curve: the digest reduces to [e = 9], the
    draw 7 gives the point [(0, 6)], hence [r = 0], and is passed over; the
    draw 1 gives the signature [(5, 15)]. *)
Example sign_toy_retry :
  gost_ec_sign toy_digest (toy_world [7; 1] [])
  = Ret (Some (mkSig 5 15)) (toy_world [] []).
Proof. vm_compute. reflexivity. Qed.

(** A draw of 0 gives the point at infinity, which has no coordinates. *)
Example sign_toy_infinity :
  gost_ec_sign toy_digest (toy_world [0] [])
  = Ret None (push_err (toy_world [] []) (GOST_F_GOST_EC_SIGN, ERR_R_EC_LIB)).
Proof. vm_compute. reflexivity. Qed.

(** An exhausted tape is a failure of the random source. *)
Example sign_toy_rng :
  gost_ec_sign toy_digest (toy_world [7] [])
  = Ret None (push_err (toy_world [] [])
                (GOST_F_GOST_EC_SIGN, GOST_R_RNG_ERROR)).
Proof. vm_compute. reflexivity. Qed.

Example verify_toy_valid :
  gost_ec_verify toy_digest (mkSig 5 15) (toy_world [] [])
  = Ret 1 (toy_world [] []).
Proof. vm_compute. reflexivity. Qed.

Example verify_toy_mismatch :
  gost_ec_verify toy_digest (mkSig 5 14) (toy_world [] [])
  = Ret 0 (push_err (toy_world [] [])
             (GOST_F_GOST_EC_VERIFY, GOST_R_SIGNATURE_MISMATCH)).
Proof. vm_compute. reflexivity. Qed.

Example verify_toy_range :
  gost_ec_verify toy_digest (mkSig 0 1) (toy_world [] [])
  = Ret 0 (push_err (toy_world [] [])
             (GOST_F_GOST_EC_VERIFY, GOST_R_SIGNATURE_PARTS_GREATER_THAN_Q)).
Proof. vm_compute. reflexivity. Qed.

Example keygen_toy :
  gost_ec_keygen (toy_world [0; 19; 7] [])
  = Ret 1 (mkWorld (mkKey (Some toy_group) (Some 7) (Some (Affine 0 6)))
             [] [] []).
Proof. vm_compute. reflexivity. Qed.

(** ** The signing loop *)

Lemma BN_rand_range_Some_inv q w k w' :
  BN_rand_range q w = Ret (Some k) w' ->
  0 < q /\ key w' = key w /\ errq w' = errq w /\ faults w' = faults w
  /\ exists z, rand w = z :: rand w' /\ k = z mod q.
Proof.
  unfold BN_rand_range. destruct (Z.leb_spec q 0) as [Hq|Hq]; [discriminate|].
  destruct w as [ky rd f eq]; simpl. destruct rd as [|z t]; [discriminate|].
  intro H. injection H as <- <-. simpl. repeat split; eauto.
Qed.

Ltac bind_inv H a w1 Hc := apply bind_Ret_inv in H as (a & w1 & Hc & H).

(** Inversion of [try x <- c orelse h ;; k] on a successful result. *)
Ltac try_inv H a w1 Hc :=
  bind_inv H a w1 Hc;
  destruct a as [a|];
  [| solve [ exfalso;
             first [ exact (raise_not_Some _ _ _ _ _ H) | discriminate H ] ] ].

Lemma gost_ec_sign_nonce_inv q w kb w' :
  gost_ec_sign_nonce q w = Ret (Some kb) w' ->
  0 < q /\ key w' = key w /\ errq w' = errq w
  /\ exists z, rand w = z :: rand w' /\ kb = blinded (z mod q) q.
Proof.
  unfold gost_ec_sign_nonce. intro H.
  try_inv H k w1 Hk.
  apply BN_rand_range_Some_inv in Hk as (Hq & K1 & E1 & _ & z & R1 & ->).
  try_inv H k1 w2 Hk1.
  apply lib_Some_inv in Hk1 as ((K2 & R2 & E2) & Ek1). injection Ek1 as <-.
  revert H.
  destruct (BN_num_bits (z mod q + q) <=? BN_num_bits q) eqn:Hb; intro H.
  - apply lib_Some_inv in H as ((K3 & R3 & E3) & Ek). injection Ek as <-.
    split; [exact Hq|]. repeat split; try congruence.
    exists z. split; [congruence|]. unfold blinded. rewrite Hb. reflexivity.
  - unfold ret in H. injection H as <- <-.
    split; [exact Hq|]. repeat split; try congruence.
    exists z. split; [congruence|]. unfold blinded. rewrite Hb. reflexivity.
Qed.

Lemma gost_ec_sign_loop_S fuel grp order priv_key e X r tmp tmp2 s :
  gost_ec_sign_loop (S fuel) grp order priv_key e X r tmp tmp2 s =
  (try k <- gost_ec_sign_nonce order orelse ret None ;;
   try C <- EC_POINT_mul grp (Some k) None None
     orelse raise GOST_F_GOST_EC_SIGN ERR_R_EC_LIB ;;
   X <- BN_CTX_get_once X ;;
   r <- BN_CTX_get_once r ;;
   match X, r with
   | Some _, Some _ =>
     try X <- EC_POINT_get_affine_coordinates_GFp grp C
       orelse raise GOST_F_GOST_EC_SIGN ERR_R_EC_LIB ;;
     try r <- BN_nnmod X order
       orelse raise GOST_F_GOST_EC_SIGN ERR_R_INTERNAL_ERROR ;;
     if BN_is_zero r then
       gost_ec_sign_loop fuel grp order priv_key e (Some X) (Some r) tmp tmp2 s
     else
       tmp <- BN_CTX_get_once tmp ;;
       tmp2 <- BN_CTX_get_once tmp2 ;;
       s <- BN_CTX_get_once s ;;
       match tmp, tmp2, s with
       | Some _, Some _, Some _ =>
         try tmp <- BN_mod_mul priv_key r order
           orelse raise GOST_F_GOST_EC_SIGN ERR_R_INTERNAL_ERROR ;;
         try tmp2 <- BN_mod_mul k e order
           orelse raise GOST_F_GOST_EC_SIGN ERR_R_INTERNAL_ERROR ;;
         try s <- BN_mod_add tmp tmp2 order
           orelse raise GOST_F_GOST_EC_SIGN ERR_R_INTERNAL_ERROR ;;
         if BN_is_zero s then
           gost_ec_sign_loop fuel grp order priv_key e
             (Some X) (Some r) (Some tmp) (Some tmp2) (Some s)
         else ret (Some (r, s))
       | _, _, _ => raise GOST_F_GOST_EC_SIGN ERR_R_MALLOC_FAILURE
       end
   | _, _ => raise GOST_F_GOST_EC_SIGN ERR_R_MALLOC_FAILURE
   end).
Proof. reflexivity. Qed.

Lemma mod_add_mul_mod a b c d q :
  0 < q -> (a * b mod q + c * d mod q) mod q = (a * b + c * d) mod q.
Proof. intro Hq. symmetry. apply Z.add_mod. lia. Qed.

Lemma gost_ec_sign_loop_inv fuel grp q d e :
  forall X r tmp tmp2 s w rr ss w',
  gost_ec_sign_loop fuel grp q d e X r tmp tmp2 s w = Ret (Some (rr, ss)) w' ->
  0 < q /\ key w' = key w /\ errq w' = errq w
  /\ exists pre z,
      rand w = pre ++ z :: rand w'
      /\ Forall (retried grp q d e) pre
      /\ sig_of_nonce grp q d e z = Some (rr, ss)
      /\ rr <> 0 /\ ss <> 0.
Proof.
  induction fuel as [|fuel IH]; intros X r tmp tmp2 s w rr ss w' H.
  - discriminate H.
  - rewrite gost_ec_sign_loop_S in H.
    try_inv H k w1 Hk.
    apply gost_ec_sign_nonce_inv in Hk as (Hq & K1 & E1 & z & R1 & Ek).
    try_inv H C w2 HC.
    apply lib_Some_inv in HC as ((K2 & R2 & E2) & EC). injection EC as <-.
    bind_inv H X' w3 HX. apply BN_CTX_get_once_inv in HX as (K3 & R3 & E3).
    bind_inv H r' w4 Hr. apply BN_CTX_get_once_inv in Hr as (K4 & R4 & E4).
    destruct X' as [X'|]; [|exfalso; exact (raise_not_Some _ _ _ _ _ H)].
    destruct r' as [r'|]; [|exfalso; exact (raise_not_Some _ _ _ _ _ H)].
    try_inv H x w5 Hx.
    apply lib_Some_inv in Hx as ((K5 & R5 & E5) & Ex).
    try_inv H rv w6 Hrv.
    apply lib_Some_inv in Hrv as ((K6 & R6 & E6) & Erv).
    rewrite bn_nnmod_pos in Erv by exact Hq. injection Erv as <-.
    assert (Kw6 : key w6 = key w) by congruence.
    assert (Ew6 : errq w6 = errq w) by congruence.
    assert (Rw6 : rand w = z :: rand w6) by congruence.
    clear K1 K2 K3 K4 K5 K6 E1 E2 E3 E4 E5 E6 R1 R2 R3 R4 R5 R6.
    unfold BN_is_zero in H at 1.
    destruct (Z.eqb_spec (x mod q) 0) as [Hr0|Hr0].
    + (* r = 0: the inner loop goes round *)
      apply IH in H as (_ & K & E & pre & z' & R & Hpre & Hz & Hrr & Hss).
      split; [exact Hq|]. repeat split; try congruence.
      exists (z :: pre), z'. simpl. repeat split; try congruence.
      constructor; [|exact Hpre].
      exists (x mod q), ((d * (x mod q) + k * e) mod q). split; [|left; exact Hr0].
      unfold sig_of_nonce. rewrite <- Ek, Ex. reflexivity.
    + bind_inv H t1 w7 Ht1. apply BN_CTX_get_once_inv in Ht1 as (K7 & R7 & E7).
      bind_inv H t2 w8 Ht2. apply BN_CTX_get_once_inv in Ht2 as (K8 & R8 & E8).
      bind_inv H t3 w9 Ht3. apply BN_CTX_get_once_inv in Ht3 as (K9 & R9 & E9).
      destruct t1 as [t1|]; [|exfalso; exact (raise_not_Some _ _ _ _ _ H)].
      destruct t2 as [t2|]; [|exfalso; exact (raise_not_Some _ _ _ _ _ H)].
      destruct t3 as [t3|]; [|exfalso; exact (raise_not_Some _ _ _ _ _ H)].
      try_inv H m1 w10 Hm1.
      apply lib_Some_inv in Hm1 as ((K10 & R10 & E10) & Em1).
      try_inv H m2 w11 Hm2.
      apply lib_Some_inv in Hm2 as ((K11 & R11 & E11) & Em2).
      try_inv H sv w12 Hsv.
      apply lib_Some_inv in Hsv as ((K12 & R12 & E12) & Esv).
      unfold bn_mod_mul in Em1, Em2. unfold bn_mod_add in Esv.
      rewrite bn_nnmod_pos in Em1, Em2, Esv by exact Hq.
      injection Em1 as <-. injection Em2 as <-. injection Esv as <-.
      rewrite mod_add_mul_mod in H by exact Hq.
      assert (Kw : key w12 = key w) by congruence.
      assert (Ew : errq w12 = errq w) by congruence.
      assert (Rw : rand w = z :: rand w12) by congruence.
      clear K7 K8 K9 K10 K11 K12 E7 E8 E9 E10 E11 E12 R7 R8 R9 R10 R11 R12.
      assert (Hsig : sig_of_nonce grp q d e z
                     = Some (x mod q, (d * (x mod q) + k * e) mod q)).
      { unfold sig_of_nonce. rewrite <- Ek, Ex. reflexivity. }
      unfold BN_is_zero in H at 1.
      destruct (Z.eqb_spec ((d * (x mod q) + k * e) mod q) 0) as [Hs0|Hs0].
      * (* s = 0: the outer loop goes round *)
        apply IH in H as (_ & K & E & pre & z' & R & Hpre & Hz & Hrr & Hss).
        split; [exact Hq|]. repeat split; try congruence.
        exists (z :: pre), z'. simpl. repeat split; try congruence.
        constructor; [|exact Hpre].
        exists (x mod q), ((d * (x mod q) + k * e) mod q).
        split; [exact Hsig | right; exact Hs0].
      * unfold ret in H. injection H as <- <- <-.
        split; [exact Hq|]. repeat split; try congruence.
        exists [], z. simpl. repeat split; auto.
Qed.

(** ** Runs without library failures *)

Lemma step_lib {A B} (v : option A) (f : option A -> M B) w :
  faults w = [] -> bind (lib v) f w = f v w.
Proof. intro Hf. unfold bind. rewrite lib_calm by exact Hf. reflexivity. Qed.

Lemma step_ret {A B} (a : A) (f : A -> M B) w : bind (ret a) f w = f a w.
Proof. reflexivity. Qed.

Lemma step_GOSTerr {B} fn r (k : unit -> M B) w :
  bind (GOSTerr fn r) k w = k tt (push_err w (fn, r)).
Proof. reflexivity. Qed.

Lemma step_get0_group {B} (f : option EC_GROUP -> M B) w :
  bind EC_KEY_get0_group f w = f (group (key w)) w.
Proof. reflexivity. Qed.

Lemma step_get0_private_key {B} (f : option Z -> M B) w :
  bind EC_KEY_get0_private_key f w = f (priv_key (key w)) w.
Proof. reflexivity. Qed.

Lemma step_get0_public_key {B} (f : option EC_POINT -> M B) w :
  bind EC_KEY_get0_public_key f w = f (pub_key (key w)) w.
Proof. reflexivity. Qed.

Lemma step_assert {B} (k : unit -> M B) w :
  bind (OPENSSL_assert true) k w = k tt w.
Proof. reflexivity. Qed.

Lemma bind_bind {A B C} (m : M A) (f : A -> M B) (g : B -> M C) w :
  bind (bind m f) g w = bind m (fun a => bind (f a) g) w.
Proof. unfold bind. destruct (m w); reflexivity. Qed.

Lemma faults_push_err w e : faults (push_err w e) = faults w.
Proof. reflexivity. Qed.

Ltac expose_lib :=
  unfold BN_CTX_new, BN_CTX_get, BN_new, DSA_SIG_new, EC_POINT_new, BN_dup,
    BN_add, BN_sub, BN_one, BN_mod, BN_nnmod, BN_mod_mul, BN_mod_add,
    BN_mod_inverse, EC_GROUP_get_order, EC_POINT_mul,
    EC_POINT_get_affine_coordinates_GFp.

(** One step of a run in a world whose plan of failures is empty. *)
Ltac calm_step :=
  first
    [ rewrite step_lib by (rewrite ?faults_push_err; assumption)
    | rewrite step_ret
    | rewrite step_GOSTerr
    | rewrite step_get0_group
    | rewrite step_get0_private_key
    | rewrite step_get0_public_key
    | rewrite step_assert ];
  cbv beta iota.

Lemma hashsum2bn_calm dgst w :
  faults w = [] -> Z.of_nat (length dgst) <= 64 ->
  hashsum2bn dgst w = Ret (Some (le_int dgst)) w.
Proof.
  intros Hf Hl. unfold hashsum2bn.
  destruct (Z.gtb_spec (Z.of_nat (length dgst)) 64) as [H|_]; [lia|].
  rewrite lib_calm, getbnfrombuf_rev by exact Hf. reflexivity.
Qed.

Lemma gost_ec_verify_e_calm dgst q w :
  faults w = [] -> Z.of_nat (length dgst) <= 64 -> q <> 0 ->
  gost_ec_verify_e dgst q w
  = Ret (Some (let e0 := Z.rem (le_int dgst) q in
               if BN_is_zero e0 then 1 else e0)) w.
Proof.
  intros Hf Hl Hq. unfold gost_ec_verify_e.
  rewrite (bind_Ret _ _ _ _ _ (hashsum2bn_calm dgst w Hf Hl)).
  expose_lib. calm_step. unfold bn_mod.
  destruct (Z.eqb_spec q 0) as [|_]; [contradiction|]. cbv beta iota zeta.
  destruct (BN_is_zero (Z.rem (le_int dgst) q)).
  - calm_step. reflexivity.
  - reflexivity.
Qed.

(** ** Verification without library failures *)

Lemma gost_ec_verify_calm dgst sig w grp Q :
  faults w = [] ->
  group (key w) = Some grp ->
  pub_key (key w) = Some Q ->
  gost_ec_verify dgst sig w = verdict_outcome w (verify_calm grp Q dgst sig).
Proof.
  intros Hf Hg Hp.
  unfold gost_ec_verify, verify_calm.
  calm_step. rewrite Hg. cbv beta iota.
  expose_lib. do 9 calm_step.
  calm_step. rewrite Hp. cbv beta iota.
  calm_step.
  destruct (Z.eqb_spec (order grp) 0) as [Hq|Hq].
  { reflexivity. }
  cbv beta iota.
  destruct (BN_is_zero (sig_s sig) || BN_is_zero (sig_r sig)
            || (BN_cmp (sig_s sig) (order grp) >=? 1)
            || (BN_cmp (sig_r sig) (order grp) >=? 1)).
  { reflexivity. }
  destruct ((Z.of_nat (length dgst) =? 32) || (Z.of_nat (length dgst) =? 64))
    eqn:Hlen.
  2:{ reflexivity. }
  calm_step.
  assert (Hl : Z.of_nat (length dgst) <= 64).
  { apply orb_true_iff in Hlen as [H|H]; apply Z.eqb_eq in H; lia. }
  rewrite (bind_Ret _ _ _ _ _ (gost_ec_verify_e_calm dgst (order grp) w Hf Hl Hq)).
  cbv beta iota zeta. simpl negb. cbv iota.
  set (e := if BN_is_zero (Z.rem (le_int dgst) (order grp)) then 1
            else Z.rem (le_int dgst) (order grp)).
  rewrite bind_bind. calm_step.
  destruct (bn_mod_inverse e (order grp)) as [v|]; cbv beta iota.
  2:{ calm_step. unfold fail0. calm_step. reflexivity. }
  rewrite bind_bind. calm_step.
  destruct (bn_mod_mul (sig_s sig) v (order grp)) as [z1|]; cbv beta iota.
  2:{ calm_step. unfold fail0. calm_step. reflexivity. }
  rewrite bind_bind. calm_step.
  rewrite bind_bind. calm_step.
  destruct (bn_mod_mul (order grp - sig_r sig) v (order grp)) as [z2|];
    cbv beta iota.
  2:{ calm_step. unfold fail0. calm_step. reflexivity. }
  do 3 calm_step. simpl fst. simpl snd.
  calm_step.
  destruct (affine_x (ec_mul grp (Some z1) (Some Q) (Some z2))) as [x|];
    cbv beta iota.
  2:{ reflexivity. }
  calm_step. unfold bn_mod.
  destruct (Z.eqb_spec (order grp) 0) as [|_]; [contradiction|].
  cbv beta iota.
  destruct (negb (BN_cmp (Z.rem x (order grp)) (sig_r sig) =? 0)); reflexivity.
Qed.

Lemma BN_cmp_eqb a b : (BN_cmp a b =? 0) = (a =? b).
Proof.
  unfold BN_cmp. destruct (Z.compare_spec a b) as [H|H|H]; simpl;
    symmetry; [apply Z.eqb_eq | apply Z.eqb_neq | apply Z.eqb_neq]; lia.
Qed.

Lemma BN_cmp_geb a b : (BN_cmp a b >=? 1) = (b <? a).
Proof.
  unfold BN_cmp. destruct (Z.compare_spec a b) as [H|H|H]; simpl;
    symmetry; [apply Z.ltb_ge | apply Z.ltb_ge | apply Z.ltb_lt]; lia.
Qed.

(** The range check of [gost_ec_verify] (lines 341-342) lets [r] and [s]
    through exactly when they are not zero and not greater than [q]. *)
Lemma range_check_spec r s q :
  BN_is_zero s || BN_is_zero r || (BN_cmp s q >=? 1) || (BN_cmp r q >=? 1)
  = negb ((0 <? Z.abs r) && (r <=? q) && (0 <? Z.abs s) && (s <=? q)).
Proof.
  rewrite !BN_cmp_geb. unfold BN_is_zero.
  destruct (Z.eqb_spec s 0), (Z.eqb_spec r 0), (Z.ltb_spec q s),
    (Z.ltb_spec q r), (Z.ltb_spec 0 (Z.abs r)), (Z.leb_spec r q),
    (Z.ltb_spec 0 (Z.abs s)), (Z.leb_spec s q); simpl; try reflexivity; lia.
Qed.

Lemma reduced_digest_range dgst q :
  2 <= q -> 1 <= reduced_digest dgst q < q.
Proof.
  intro Hq. unfold reduced_digest.
  pose proof (Z.mod_pos_bound (le_int dgst) q ltac:(lia)).
  destruct (Z.eqb_spec (le_int dgst mod q) 0); lia.
Qed.

Lemma reduced_digest_nonzero dgst q : reduced_digest dgst q <> 0.
Proof.
  unfold reduced_digest.
  destruct (Z.eqb_spec (le_int dgst mod q) 0); [lia | assumption].
Qed.

Lemma reduced_digest_rem dgst q :
  0 < q ->
  (if BN_is_zero (Z.rem (le_int dgst) q) then 1 else Z.rem (le_int dgst) q)
  = reduced_digest dgst q.
Proof.
  intro Hq. rewrite Z.rem_mod_nonneg by (auto using le_int_nonneg).
  reflexivity.
Qed.

Lemma bn_mod_inverse_prime e q :
  Z.prime q -> 1 <= e < q ->
  bn_mod_inverse e q = Some (Z.invmod e q) /\ (Z.invmod e q * e) mod q = 1.
Proof.
  intros Hp He. pose proof (Z.prime_ge_2 q Hp) as Hq.
  unfold bn_mod_inverse.
  destruct (Z.leb_spec (Z.abs q) 1) as [H|_]; [lia|].
  assert (Hg : Z.gcd e q = 1).
  { rewrite Z.gcd_comm. apply (Z.coprime_prime_small q e Hp He). }
  rewrite Hg. split; [reflexivity|].
  apply Z.invmod_prime; [exact Hp|]. rewrite Z.mod_small; lia.
Qed.

Lemma gost_ec_sign_e_inv md q w e w' :
  gost_ec_sign_e md q w = Ret (Some e) w' ->
  frame w w' /\ q <> 0
  /\ e = (if BN_is_zero (Z.rem md q) then 1 else Z.rem md q).
Proof.
  unfold gost_ec_sign_e. intro H.
  try_inv H e0 w1 He0.
  apply and_then_Some_inv in He0 as (x & w0 & Hx & He0).
  apply lib_Some_inv in Hx as (F1 & _).
  apply lib_Some_inv in He0 as (F2 & Ee0).
  unfold ret in H. injection H as <- <-.
  unfold bn_mod in Ee0. destruct (Z.eqb_spec q 0) as [|Hq]; [discriminate|].
  injection Ee0 as <-.
  split; [eapply frame_trans; eassumption|]. split; [exact Hq | reflexivity].
Qed.

Lemma gost_ec_verify_e_inv dgst q w e w' :
  gost_ec_verify_e dgst q w = Ret (Some e) w' ->
  frame w w' /\ q <> 0
  /\ e = (if BN_is_zero (Z.rem (le_int dgst) q) then 1
          else Z.rem (le_int dgst) q).
Proof.
  unfold gost_ec_verify_e. intro H.
  bind_inv H md w1 Hmd.
  try_inv H e0 w2 He0.
  destruct md as [md|]; [|discriminate He0].
  apply hashsum2bn_Some_inv in Hmd as (F1 & ->).
  apply lib_Some_inv in He0 as (F2 & Ee0).
  unfold bn_mod in Ee0. destruct (Z.eqb_spec q 0) as [|Hq]; [discriminate|].
  injection Ee0 as <-.
  revert H. destruct (BN_is_zero (Z.rem (le_int dgst) q)); intro H.
  - try_inv H one w3 H1.
    apply lib_Some_inv in H1 as (F3 & E1). injection E1 as <-.
    unfold ret in H. injection H as <- <-.
    split; [|split; [exact Hq | reflexivity]].
    eapply frame_trans; [|exact F3]. eapply frame_trans; eassumption.
  - unfold ret in H. injection H as <- <-.
    split; [|split; [exact Hq | reflexivity]].
    eapply frame_trans; eassumption.
Qed.

Lemma gost_ec_sign_e_calm md q w :
  faults w = [] -> q <> 0 ->
  gost_ec_sign_e md q w
  = Ret (Some (if BN_is_zero (Z.rem md q) then 1 else Z.rem md q)) w.
Proof.
  intros Hf Hq. unfold gost_ec_sign_e, and_then. expose_lib.
  rewrite bind_bind. calm_step. calm_step.
  unfold bn_mod. destruct (Z.eqb_spec q 0) as [|_]; [contradiction|].
  reflexivity.
Qed.

(** * The digest *)

(** C5: [gost_ec_sign] and [gost_ec_verify] derive the reduced digest in the
    same way.  Whenever the digest conversion and the two reductions return
    a number, [md] is the digest read little-endian (the bytes are
    reversed), both reductions give [e = md mod q] with 0 replaced by 1, the
    two values agree, and [e] is not zero.  In a run in which no library
    call fails, a digest of 32 or 64 bytes does give these values. *)
Theorem reduced_digest_agrees dgst q :
  0 < q ->
  (forall w0 w0' w1 w1' w2 w2' md e1 e2,
     hashsum2bn dgst w0 = Ret (Some md) w0' ->
     gost_ec_sign_e md q w1 = Ret (Some e1) w1' ->
     gost_ec_verify_e dgst q w2 = Ret (Some e2) w2' ->
     md = le_int dgst
     /\ e1 = (if le_int dgst mod q =? 0 then 1 else le_int dgst mod q)
     /\ e2 = e1 /\ e1 <> 0)
  /\ (forall w,
        faults w = [] -> (length dgst = 32 \/ length dgst = 64)%nat ->
        hashsum2bn dgst w = Ret (Some (le_int dgst)) w
        /\ gost_ec_sign_e (le_int dgst) q w
           = Ret (Some (reduced_digest dgst q)) w
        /\ gost_ec_verify_e dgst q w = Ret (Some (reduced_digest dgst q)) w).
Proof.
  intro Hq. split.
  - intros w0 w0' w1 w1' w2 w2' md e1 e2 Hmd H1 H2.
    apply hashsum2bn_Some_inv in Hmd as (_ & ->).
    apply gost_ec_sign_e_inv in H1 as (_ & _ & ->).
    apply gost_ec_verify_e_inv in H2 as (_ & _ & ->).
    rewrite reduced_digest_rem by exact Hq.
    split; [reflexivity|]. split; [reflexivity|]. split; [reflexivity|].
    apply reduced_digest_nonzero.
  - intros w Hf Hl.
    assert (Hl' : Z.of_nat (length dgst) <= 64) by lia.
    split; [apply hashsum2bn_calm; assumption|].
    rewrite gost_ec_sign_e_calm, gost_ec_verify_e_calm by (assumption || lia).
    cbv zeta. rewrite reduced_digest_rem by exact Hq. split; reflexivity.
Qed.

(** On the small curve: the digest of thirty-two bytes 01 reduces to 9 in
    both functions. *)
Lemma reduced_digest_agrees_witness :
  le_int toy_digest = le_int toy_digest
  /\ 9 = (if le_int toy_digest mod 19 =? 0 then 1 else le_int toy_digest mod 19)
  /\ 9 = 9 /\ 9 <> 0.
Proof.
  refine (proj1 (reduced_digest_agrees toy_digest 19 _)
            (toy_world [] []) (toy_world [] [])
            (toy_world [] [false]) (toy_world [] [])
            (toy_world [] []) (toy_world [] [])
            (le_int toy_digest) 9 9 _ _ _).
  - reflexivity.
  - vm_compute. reflexivity.
  - vm_compute. reflexivity.
  - vm_compute. reflexivity.
Defined.

(** * The nonce *)

(** C6: when lines 220-231 of [gost_ec_sign] hand a scalar [kb] to the point
    multiplication, it comes from a draw [k] with [0 <= k < q]; [kb] is
    [k + q], or [k + 2q] when the bit length of [k + q] does not exceed that
    of [q]; [kb] is congruent to [k] modulo [q], its bit length exceeds that
    of [q], and in a group whose generator has order [q] the point [kb·G]
    is [k·G]. *)
Theorem nonce_blinding grp q w kb w' :
  gost_ec_sign_nonce q w = Ret (Some kb) w' ->
  exists z,
    rand w = z :: rand w' /\
    let k := z mod q in
    0 <= k < q
    /\ kb = (if BN_num_bits (k + q) <=? BN_num_bits q then k + q + q else k + q)
    /\ kb mod q = k
    /\ BN_num_bits q < BN_num_bits kb
    /\ (ec_group_ok grp -> order grp = q ->
        ec_mul grp (Some kb) None None = ec_smul grp k (generator grp)).
Proof.
  intro H.
  apply gost_ec_sign_nonce_inv in H as (Hq & _ & _ & z & Hr & ->).
  exists z. split; [exact Hr|]. cbv zeta.
  assert (Hk : 0 <= z mod q < q) by (apply Z.mod_pos_bound, Hq).
  split; [exact Hk|]. split; [reflexivity|].
  split; [apply blinded_mod, Hk|].
  split; [apply blinded_bits, Hk|].
  intros Hok <-. rewrite ec_mul_generator.
  apply ec_smul_blinded; assumption.
Qed.

(** On the small curve: the draw 7 becomes the scalar 45 = 7 + 2·19. *)
Lemma nonce_blinding_witness :
  exists z,
    [7] = z :: [] /\
    let k := z mod 19 in
    0 <= k < 19
    /\ 45 = (if BN_num_bits (k + 19) <=? BN_num_bits 19 then k + 19 + 19
             else k + 19)
    /\ 45 mod 19 = k
    /\ BN_num_bits 19 < BN_num_bits 45
    /\ (ec_group_ok toy_group -> order toy_group = 19 ->
        ec_mul toy_group (Some 45) None None
        = ec_smul toy_group k (generator toy_group)).
Proof.
  apply (nonce_blinding toy_group 19 (toy_world [7] []) 45 (toy_world [] [])).
  vm_compute. reflexivity.
Defined.

(** * Digest length *)

(** A digest of three bytes: both functions stop at the assertion on the
    length, and return nothing. *)
Lemma digest_length_counterexample :
  gost_ec_sign short_digest (toy_world [1] []) = Aborted (toy_world [1] [])
  /\ gost_ec_verify short_digest (mkSig 5 15) (toy_world [] [])
     = Aborted (toy_world [] []).
Proof. split; vm_compute; reflexivity. Qed.

(** C7, amended: for a digest whose length is neither 32 nor 64,
    [gost_ec_sign] fails the assertion of line 174 and the process ends,
    unless the allocation of the context failed first, in which case NULL is
    returned with a memory error; [gost_ec_verify], in a run in which no
    library call fails, on a key with a public point and a group of order
    [q <> 0], and for [r], [s] that pass the range check, fails the
    assertion of line 348 and the process ends.  No arithmetic is done on
    the digest, and no error value, signature or verdict is returned. *)
Theorem digest_length_assert dgst :
  Z.of_nat (length dgst) <> 32 -> Z.of_nat (length dgst) <> 64 ->
  (forall w,
     gost_ec_sign dgst w =
     match faults w with
     | [] => Aborted w
     | false :: f => Aborted (set_faults w f)
     | true :: f =>
         Ret None (push_err (set_faults w f)
                     (GOST_F_GOST_EC_SIGN, ERR_R_MALLOC_FAILURE))
     end)
  /\ (forall w grp Q sig,
        faults w = [] -> group (key w) = Some grp -> pub_key (key w) = Some Q ->
        order grp <> 0 ->
        sig_r sig <> 0 -> sig_r sig <= order grp ->
        sig_s sig <> 0 -> sig_s sig <= order grp ->
        gost_ec_verify dgst sig w = Aborted w).
Proof.
  intros H32 H64.
  assert (Hlen : (Z.of_nat (length dgst) =? 32) || (Z.of_nat (length dgst) =? 64)
                 = false).
  { apply orb_false_iff. split; apply Z.eqb_neq; assumption. }
  split.
  - intro w. unfold gost_ec_sign. rewrite Hlen.
    unfold bind, BN_CTX_new, lib, OPENSSL_assert, raise, GOSTerr, ret.
    destruct w as [k rd f eq]; simpl. destruct f as [|[] f]; reflexivity.
  - intros w grp Q sig Hf Hg Hp Hq Hr0 Hrq Hs0 Hsq.
    rewrite (gost_ec_verify_calm dgst sig w grp Q Hf Hg Hp).
    unfold verify_calm. rewrite range_check_spec, Hlen.
    destruct (Z.eqb_spec (order grp) 0) as [|_]; [contradiction|].
    destruct (Z.ltb_spec 0 (Z.abs (sig_r sig))); [|lia].
    destruct (Z.leb_spec (sig_r sig) (order grp)); [|lia].
    destruct (Z.ltb_spec 0 (Z.abs (sig_s sig))); [|lia].
    destruct (Z.leb_spec (sig_s sig) (order grp)); [|lia].
    reflexivity.
Qed.

(** The digest of three bytes. *)
Lemma digest_length_assert_witness :
  (forall w,
     gost_ec_sign short_digest w =
     match faults w with
     | [] => Aborted w
     | false :: f => Aborted (set_faults w f)
     | true :: f =>
         Ret None (push_err (set_faults w f)
                     (GOST_F_GOST_EC_SIGN, ERR_R_MALLOC_FAILURE))
     end)
  /\ (forall w grp Q sig,
        faults w = [] -> group (key w) = Some grp -> pub_key (key w) = Some Q ->
        order grp <> 0 ->
        sig_r sig <> 0 -> sig_r sig <= order grp ->
        sig_s sig <> 0 -> sig_s sig <= order grp ->
        gost_ec_verify short_digest sig w = Aborted w).
Proof.
  apply (digest_length_assert short_digest); simpl; lia.
Defined.

(** * The range check *)

(** In a run in which no library call fails, [r] or [s] that is zero or
    greater than [q] gives the range error, whatever the digest. *)
Lemma verify_range_error dgst sig w grp Q :
  faults w = [] -> group (key w) = Some grp -> pub_key (key w) = Some Q ->
  order grp <> 0 ->
  sig_r sig = 0 \/ sig_s sig = 0 \/ order grp < sig_r sig \/ order grp < sig_s sig ->
  gost_ec_verify dgst sig w
  = Ret 0 (push_err w (GOST_F_GOST_EC_VERIFY,
                       GOST_R_SIGNATURE_PARTS_GREATER_THAN_Q)).
Proof.
  intros Hf Hg Hp Hq Hrs.
  rewrite (gost_ec_verify_calm dgst sig w grp Q Hf Hg Hp).
  unfold verify_calm. rewrite range_check_spec.
  destruct (Z.eqb_spec (order grp) 0) as [|_]; [contradiction|].
  destruct (Z.ltb_spec 0 (Z.abs (sig_r sig))),
    (Z.leb_spec (sig_r sig) (order grp)),
    (Z.ltb_spec 0 (Z.abs (sig_s sig))),
    (Z.leb_spec (sig_s sig) (order grp)); simpl; try reflexivity; lia.
Qed.

(** C2: [s = q] passes the range check of lines 341-342, and the signature
    [(9, 19)] is then accepted on the small curve, whose order is 19;
    [r = q] passes it as well and is reported as a mismatch. *)
Theorem verify_accepts_s_equal_q :
  order toy_group = 19
  /\ gost_ec_verify toy_digest (mkSig 9 19) (toy_world [] [])
     = Ret 1 (toy_world [] [])
  /\ gost_ec_verify toy_digest (mkSig 19 5) (toy_world [] [])
     = Ret 0 (push_err (toy_world [] [])
               (GOST_F_GOST_EC_VERIFY, GOST_R_SIGNATURE_MISMATCH)).
Proof. repeat split; vm_compute; reflexivity. Qed.

(** * The verification equation *)

(** The signature (1, 5) is in range, and under the key [d = 5] the point
    [z1·G + z2·Q] is the point at infinity: the result is the error of the
    EC library, neither valid nor a mismatch. *)
Lemma verify_point_at_infinity_counterexample :
  on_curve toy_group (Affine 9 16) = true
  /\ 1 <= sig_r (mkSig 1 5) < order toy_group
  /\ 1 <= sig_s (mkSig 1 5) < order toy_group
  /\ length toy_digest = 32%nat
  /\ gost_ec_verify toy_digest (mkSig 1 5) (toy_world [] [])
     = Ret 0 (push_err (toy_world [] [])
               (GOST_F_GOST_EC_VERIFY, ERR_R_EC_LIB)).
Proof. repeat split; vm_compute; congruence. Qed.

(** The verdict of [gost_ec_verify] on a signature in range. *)
Lemma verify_calm_in_range grp Q dgst sig :
  ec_group_ok grp ->
  on_curve grp Q = true ->
  (length dgst = 32 \/ length dgst = 64)%nat ->
  1 <= sig_r sig < order grp ->
  1 <= sig_s sig < order grp ->
  let q := order grp in
  let e := reduced_digest dgst q in
  let v := Z.invmod e q in
  let z1 := (sig_s sig * v) mod q in
  let z2 := ((q - sig_r sig) * v) mod q in
  (v * e) mod q = 1
  /\ verify_calm grp Q dgst sig =
     match ec_mul grp (Some z1) (Some Q) (Some z2) with
     | Affine x _ =>
         if x mod q =? sig_r sig then Valid
         else Failed GOST_R_SIGNATURE_MISMATCH
     | Infinity => Failed ERR_R_EC_LIB
     end.
Proof.
  intros Hok HQ Hl Hr Hs q e v z1 z2.
  pose proof (order_ge_2 grp Hok) as Hq2. fold q in Hq2, Hr, Hs.
  pose proof (reduced_digest_range dgst q Hq2) as He. fold e in He.
  destruct (bn_mod_inverse_prime e q (ok_order_prime _ Hok) He) as (Hinv & Hv).
  fold v in Hinv, Hv.
  split; [exact Hv|].
  assert (HC : on_curve grp (ec_mul grp (Some z1) (Some Q) (Some z2)) = true).
  { apply (ok_closed _ Hok); apply on_curve_smul;
      first [ assumption | exact (ok_generator _ Hok)
            | apply Z.mod_pos_bound; lia ]. }
  unfold verify_calm. fold q. rewrite range_check_spec.
  destruct (Z.eqb_spec q 0) as [|_]; [lia|].
  destruct (Z.ltb_spec 0 (Z.abs (sig_r sig))); [|lia].
  destruct (Z.leb_spec (sig_r sig) q); [|lia].
  destruct (Z.ltb_spec 0 (Z.abs (sig_s sig))); [|lia].
  destruct (Z.leb_spec (sig_s sig) q); [|lia].
  simpl negb. cbv iota.
  replace ((Z.of_nat (length dgst) =? 32) || (Z.of_nat (length dgst) =? 64))
    with true
    by (destruct Hl as [-> | ->]; reflexivity).
  simpl negb. cbv iota zeta.
  rewrite reduced_digest_rem by lia. fold e. rewrite Hinv.
  unfold bn_mod_mul. rewrite !bn_nnmod_pos by lia. fold z1 z2.
  destruct (ec_mul grp (Some z1) (Some Q) (Some z2)) as [|x y];
    simpl affine_x; cbv iota.
  - reflexivity.
  - apply on_curve_nonneg in HC.
    rewrite Z.rem_mod_nonneg, BN_cmp_eqb by lia.
    destruct (x mod q =? sig_r sig); reflexivity.
Qed.

(** C4, amended: for a signature with [r] and [s] in [[1, q-1]], a digest of
    32 or 64 bytes and a public point [Q] on the curve, in a run in which no
    library call fails, [gost_ec_verify] computes [v = e^-1 mod q],
    [z1 = s·v mod q], [z2 = (q - r)·v mod q] and [C = z1·G + z2·Q].  When [C]
    is not the point at infinity, with [R = x mod q] for its x-coordinate
    [x], the result is 1 (valid) exactly when [R = r], and otherwise 0 with
    the error "signature mismatch".  When [C] is the point at infinity the
    result is 0 with the error of the EC library. *)
Theorem verify_equation grp Q dgst sig w :
  ec_group_ok grp ->
  on_curve grp Q = true ->
  faults w = [] ->
  group (key w) = Some grp ->
  pub_key (key w) = Some Q ->
  (length dgst = 32 \/ length dgst = 64)%nat ->
  1 <= sig_r sig < order grp ->
  1 <= sig_s sig < order grp ->
  let q := order grp in
  let e := reduced_digest dgst q in
  let v := Z.invmod e q in
  let z1 := (sig_s sig * v) mod q in
  let z2 := ((q - sig_r sig) * v) mod q in
  let C := ec_add grp (ec_smul grp z1 (generator grp)) (ec_smul grp z2 Q) in
  (v * e) mod q = 1
  /\ match C with
     | Affine x _ =>
         gost_ec_verify dgst sig w =
         if x mod q =? sig_r sig then Ret 1 w
         else Ret 0 (push_err w (GOST_F_GOST_EC_VERIFY,
                                 GOST_R_SIGNATURE_MISMATCH))
     | Infinity =>
         gost_ec_verify dgst sig w =
         Ret 0 (push_err w (GOST_F_GOST_EC_VERIFY, ERR_R_EC_LIB))
     end.
Proof.
  intros Hok HQ Hf Hg Hp Hl Hr Hs q e v z1 z2 C.
  destruct (verify_calm_in_range grp Q dgst sig Hok HQ Hl Hr Hs) as (Hv & Hc).
  split; [exact Hv|].
  rewrite (gost_ec_verify_calm dgst sig w grp Q Hf Hg Hp), Hc.
  fold q e v z1 z2. change (ec_mul grp (Some z1) (Some Q) (Some z2)) with C.
  destruct C as [|x y]; [reflexivity|].
  destruct (x mod q =? sig_r sig); reflexivity.
Qed.

(** On the small curve, for the signature (5, 15). *)
Lemma verify_equation_witness :
  let q := order toy_group in
  let e := reduced_digest toy_digest q in
  let v := Z.invmod e q in
  let z1 := (sig_s (mkSig 5 15) * v) mod q in
  let z2 := ((q - sig_r (mkSig 5 15)) * v) mod q in
  let C := ec_add toy_group (ec_smul toy_group z1 (generator toy_group))
             (ec_smul toy_group z2 (Affine 9 16)) in
  (v * e) mod q = 1
  /\ match C with
     | Affine x _ =>
         gost_ec_verify toy_digest (mkSig 5 15) (toy_world [] []) =
         if x mod q =? sig_r (mkSig 5 15) then Ret 1 (toy_world [] [])
         else Ret 0 (push_err (toy_world [] [])
                       (GOST_F_GOST_EC_VERIFY, GOST_R_SIGNATURE_MISMATCH))
     | Infinity =>
         gost_ec_verify toy_digest (mkSig 5 15) (toy_world [] []) =
         Ret 0 (push_err (toy_world [] [])
                  (GOST_F_GOST_EC_VERIFY, ERR_R_EC_LIB))
     end.
Proof.
  apply (verify_equation toy_group (Affine 9 16) toy_digest (mkSig 5 15)
           (toy_world [] [])).
  - exact toy_group_ok.
  - reflexivity.
  - reflexivity.
  - reflexivity.
  - reflexivity.
  - left. reflexivity.
  - simpl. lia.
  - simpl. lia.
Defined.

(** * Signing *)

Lemma frame_key w w' : frame w w' -> key w' = key w.
Proof. intros (H & _). exact H. Qed.
Lemma frame_rand w w' : frame w w' -> rand w' = rand w.
Proof. intros (_ & H & _). exact H. Qed.
Lemma frame_errq w w' : frame w w' -> errq w' = errq w.
Proof. intros (_ & _ & H). exact H. Qed.

Lemma OPENSSL_assert_inv c w u w' :
  OPENSSL_assert c w = Ret u w' -> c = true /\ w' = w.
Proof.
  unfold OPENSSL_assert. destruct c; intro H; [|discriminate].
  injection H as _ <-. split; reflexivity.
Qed.

(** What a successful run of [gost_ec_sign] tells, whatever the plan of
    failures. *)
Lemma gost_ec_sign_inv dgst w sig w' :
  gost_ec_sign dgst w = Ret (Some sig) w' ->
  exists grp d,
    group (key w) = Some grp /\ priv_key (key w) = Some d
    /\ (length dgst = 32 \/ length dgst = 64)%nat
    /\ key w' = key w /\ errq w' = errq w
    /\ 0 < order grp
    /\ exists pre z,
        rand w = pre ++ z :: rand w'
        /\ Forall (retried grp (order grp) d (reduced_digest dgst (order grp)))
             pre
        /\ sig_of_nonce grp (order grp) d (reduced_digest dgst (order grp)) z
           = Some (sig_r sig, sig_s sig)
        /\ sig_r sig <> 0 /\ sig_s sig <> 0.
Proof.
  unfold gost_ec_sign. intro H.
  try_inv H ctx w1 Hctx. apply lib_Some_inv in Hctx as (F1 & _).
  bind_inv H u w2 Hassert.
  apply OPENSSL_assert_inv in Hassert as (Hlen & ->).
  bind_inv H md w3 Hmd. bind_inv H newsig w4 Hnew.
  destruct newsig as [newsig|]; [|exfalso; exact (raise_not_Some _ _ _ _ _ H)].
  destruct md as [md|]; [|exfalso; exact (raise_not_Some _ _ _ _ _ H)].
  apply hashsum2bn_Some_inv in Hmd as (F3 & ->).
  apply lib_Some_inv in Hnew as (F4 & _).
  try_inv H grp w5 Hgrp.
  unfold EC_KEY_get0_group in Hgrp. injection Hgrp as Hgrp <-.
  try_inv H q w6 Hq.
  apply and_then_Some_inv in Hq as (x & w0 & Hx & Hq).
  apply lib_Some_inv in Hx as (F5 & _).
  apply lib_Some_inv in Hq as (F6 & Eq).
  destruct (Z.eqb_spec (order grp) 0) as [|Hq0]; [discriminate|].
  injection Eq as <-.
  try_inv H d w7 Hd.
  unfold EC_KEY_get0_private_key in Hd. injection Hd as Hd <-.
  try_inv H e w8 He.
  apply gost_ec_sign_e_inv in He as (F8 & _ & ->).
  bind_inv H k w9 Hk. apply lib_inv in Hk as (F9 & _).
  bind_inv H C w10 HC. apply lib_inv in HC as (F10 & _).
  destruct k as [k|]; [|exfalso; exact (raise_not_Some _ _ _ _ _ H)].
  destruct C as [C|]; [|exfalso; exact (raise_not_Some _ _ _ _ _ H)].
  bind_inv H fuel w11 Hfuel.
  unfold loop_bound in Hfuel. injection Hfuel as <- <-.
  try_inv H rs w12 Hloop. destruct rs as [rr ss].
  apply gost_ec_sign_loop_inv in Hloop
    as (Hqpos & K12 & E12 & pre & z & R12 & Hpre & Hz & Hrr & Hss).
  rewrite reduced_digest_rem in Hpre, Hz by exact Hqpos.
  bind_inv H s' w13 Hs'. apply lib_inv in Hs' as (F13 & Es').
  bind_inv H r' w14 Hr'. apply lib_inv in Hr' as (F14 & Er').
  destruct s' as [s'|]; [|exfalso; exact (raise_not_Some _ _ _ _ _ H)].
  destruct r' as [r'|]; [|exfalso; exact (raise_not_Some _ _ _ _ _ H)].
  destruct Es' as [Es'|Es']; [|discriminate]. injection Es' as ->.
  destruct Er' as [Er'|Er']; [|discriminate]. injection Er' as ->.
  unfold ret in H. injection H as <- <-. simpl fst in *. simpl snd in *.
  pose proof (frame_trans _ _ _ F1 (frame_trans _ _ _ F3 F4)) as Fa.
  pose proof (frame_trans _ _ _ Fa (frame_trans _ _ _ F5 F6)) as Fb.
  pose proof (frame_trans _ _ _ Fb (frame_trans _ _ _ F8 (frame_trans _ _ _ F9 F10)))
    as Fc.
  pose proof (frame_trans _ _ _ F13 F14) as Fd.
  exists grp, d.
  split; [rewrite <- (frame_key _ _ Fa); exact Hgrp|].
  split; [rewrite <- (frame_key _ _ Fb); exact Hd|].
  split.
  { apply orb_true_iff in Hlen as [E|E]; apply Z.eqb_eq in E; lia. }
  split.
  { rewrite (frame_key _ _ Fd), K12. apply (frame_key _ _ Fc). }
  split.
  { rewrite (frame_errq _ _ Fd), E12. apply (frame_errq _ _ Fc). }
  split; [exact Hqpos|].
  exists pre, z. rewrite (frame_rand _ _ Fd), <- R12.
  split; [symmetry; apply (frame_rand _ _ Fc)|].
  simpl. auto.
Qed.

(** ** Signing without library failures *)

Lemma gost_ec_sign_nonce_calm q w z t :
  faults w = [] -> 0 < q -> rand w = z :: t ->
  gost_ec_sign_nonce q w = Ret (Some (blinded (z mod q) q)) (set_rand w t).
Proof.
  intros Hf Hq Hr. unfold gost_ec_sign_nonce.
  assert (Hd : BN_rand_range q w = Ret (Some (z mod q)) (set_rand w t)).
  { unfold BN_rand_range. destruct (Z.leb_spec q 0); [lia|].
    rewrite Hr. reflexivity. }
  rewrite (bind_Ret _ _ _ _ _ Hd). cbv beta iota.
  assert (Hf' : faults (set_rand w t) = []) by exact Hf.
  expose_lib. calm_step.
  unfold blinded. destruct (_ <=? _).
  - rewrite lib_calm by exact Hf'. reflexivity.
  - reflexivity.
Qed.

Lemma gost_ec_sign_nonce_empty q w :
  rand w = [] ->
  gost_ec_sign_nonce q w
  = Ret None (push_err w (GOST_F_GOST_EC_SIGN, GOST_R_RNG_ERROR)).
Proof.
  intro Hr. unfold gost_ec_sign_nonce, bind, BN_rand_range.
  rewrite Hr. destruct (q <=? 0); reflexivity.
Qed.

(** One pass of the loop on the draw [z]. *)
Lemma gost_ec_sign_loop_calm_step fuel grp q d e X r tmp tmp2 s w z t :
  faults w = [] -> 0 < q -> rand w = z :: t ->
  gost_ec_sign_loop (S fuel) grp q d e X r tmp tmp2 s w =
  let k := blinded (z mod q) q in
  let w' := set_rand w t in
  match affine_x (ec_mul grp (Some k) None None) with
  | None => Ret None (push_err w' (GOST_F_GOST_EC_SIGN, ERR_R_EC_LIB))
  | Some x =>
    let rv := x mod q in
    if rv =? 0 then
      gost_ec_sign_loop fuel grp q d e (Some x) (Some rv) tmp tmp2 s w'
    else
      let sv := (d * rv + k * e) mod q in
      if sv =? 0 then
        gost_ec_sign_loop fuel grp q d e (Some x) (Some rv)
          (Some (d * rv mod q)) (Some (k * e mod q)) (Some sv) w'
      else Ret (Some (rv, sv)) w'
  end.
Proof.
  intros Hf Hq Hr. rewrite gost_ec_sign_loop_S.
  rewrite (bind_Ret _ _ _ _ _ (gost_ec_sign_nonce_calm q w z t Hf Hq Hr)).
  cbv beta iota zeta.
  set (k := blinded (z mod q) q). set (w' := set_rand w t).
  assert (Hf' : faults w' = []) by exact Hf.
  assert (Hx : forall {B} (v : option Z) (f : option Z -> M B),
             exists a, bind (BN_CTX_get_once v) f w' = f (Some a) w').
  { intros B [a|] f.
    - exists a. reflexivity.
    - exists 0. unfold BN_CTX_get_once, BN_CTX_get. apply step_lib, Hf'. }
  expose_lib. calm_step.
  do 2 (match goal with
        | |- bind (BN_CTX_get_once ?v) ?f ?w0 = _ =>
            let a := fresh "a" in destruct (Hx _ v f) as (a & ->); cbv beta iota
        end).
  calm_step.
  destruct (affine_x (ec_mul grp (Some k) None None)) as [x|]; cbv beta iota.
  2:{ unfold raise. calm_step. reflexivity. }
  calm_step. rewrite bn_nnmod_pos by exact Hq. cbv beta iota.
  unfold BN_is_zero at 1.
  destruct (x mod q =? 0); [reflexivity|].
  do 3 (match goal with
        | |- bind (BN_CTX_get_once ?v) ?f ?w0 = _ =>
            let a := fresh "a" in destruct (Hx _ v f) as (a & ->); cbv beta iota
        end).
  unfold bn_mod_mul, bn_mod_add. rewrite !bn_nnmod_pos by exact Hq.
  do 2 calm_step. rewrite bn_nnmod_pos by exact Hq. calm_step.
  rewrite mod_add_mul_mod by exact Hq.
  unfold BN_is_zero at 1.
  destruct ((d * (x mod q) + k * e) mod q =? 0); reflexivity.
Qed.

(** In a run without library failures the loop does not depend on which of
    its local numbers are already allocated. *)
Lemma gost_ec_sign_loop_calm_locals fuel grp q d e :
  forall X r tmp tmp2 s w,
  faults w = [] -> 0 < q ->
  gost_ec_sign_loop fuel grp q d e X r tmp tmp2 s w
  = gost_ec_sign_loop fuel grp q d e None None None None None w.
Proof.
  induction fuel as [|fuel IH]; intros X r tmp tmp2 s w Hf Hq; [reflexivity|].
  destruct (rand w) as [|z t] eqn:Hr.
  - rewrite !gost_ec_sign_loop_S.
    rewrite !(bind_Ret _ _ _ _ _ (gost_ec_sign_nonce_empty q w Hr)).
    reflexivity.
  - rewrite !(gost_ec_sign_loop_calm_step fuel grp q d e _ _ _ _ _ w z t Hf Hq Hr).
    cbv zeta.
    destruct (affine_x _) as [x|]; [|reflexivity].
    destruct (x mod q =? 0).
    + rewrite IH by assumption. symmetry. apply IH; assumption.
    + destruct (_ =? 0); [|reflexivity].
      rewrite IH by assumption. symmetry. apply IH; assumption.
Qed.

(** Draws that give [r = 0] or [s = 0] are passed over: the loop returns the
    pair of the first draw that gives neither. *)
Lemma gost_ec_sign_loop_calm grp q d e pre :
  forall fuel w z t rr ss,
  faults w = [] -> 0 < q ->
  rand w = pre ++ z :: t ->
  Forall (retried grp q d e) pre ->
  sig_of_nonce grp q d e z = Some (rr, ss) -> rr <> 0 -> ss <> 0 ->
  (length pre < fuel)%nat ->
  gost_ec_sign_loop fuel grp q d e None None None None None w
  = Ret (Some (rr, ss)) (set_rand w t).
Proof.
  induction pre as [|z' pre IH]; intros fuel w z t rr ss Hf Hq Hr Hpre Hz Hrr Hss Hfuel.
  - destruct fuel as [|fuel]; [simpl in Hfuel; lia|].
    rewrite (gost_ec_sign_loop_calm_step fuel grp q d e _ _ _ _ _ w z t Hf Hq Hr).
    cbv zeta. unfold sig_of_nonce in Hz.
    destruct (affine_x _) as [x|]; [|discriminate].
    injection Hz as <- <-.
    destruct (Z.eqb_spec (x mod q) 0); [contradiction|].
    destruct (Z.eqb_spec ((d * (x mod q) + blinded (z mod q) q * e) mod q) 0);
      [contradiction | reflexivity].
  - destruct fuel as [|fuel]; [simpl in Hfuel; lia|].
    simpl in Hr, Hfuel. inversion Hpre as [|? ? Hz' Hpre']; subst.
    rewrite (gost_ec_sign_loop_calm_step fuel grp q d e _ _ _ _ _ w z'
               (pre ++ z :: t) Hf Hq Hr).
    cbv zeta. destruct Hz' as (r' & s' & Hz' & Hzero).
    unfold sig_of_nonce in Hz'.
    destruct (affine_x _) as [x|]; [|discriminate].
    injection Hz' as <- <-.
    assert (Hgo : gost_ec_sign_loop fuel grp q d e None None None None None
                    (set_rand w (pre ++ z :: t))
                  = Ret (Some (rr, ss)) (set_rand w t)).
    { apply (IH fuel (set_rand w (pre ++ z :: t)) z t rr ss); auto. lia. }
    destruct (Z.eqb_spec (x mod q) 0) as [E|E].
    + rewrite gost_ec_sign_loop_calm_locals by assumption. exact Hgo.
    + destruct Hzero as [|Hzero]; [contradiction|]. rewrite Hzero. simpl.
      rewrite gost_ec_sign_loop_calm_locals by assumption. exact Hgo.
Qed.

Lemma step_loop_bound {B} (f : nat -> M B) w :
  bind loop_bound f w = f (S (length (rand w))) w.
Proof. reflexivity. Qed.

(** [gost_ec_sign] in a run without library failures: the draws that give a
    zero [r] or [s] are passed over and the first other draw gives the
    signature. *)
Lemma gost_ec_sign_calm dgst w grp d pre z t rr ss :
  faults w = [] ->
  group (key w) = Some grp -> priv_key (key w) = Some d ->
  (length dgst = 32 \/ length dgst = 64)%nat ->
  0 < order grp ->
  rand w = pre ++ z :: t ->
  Forall (retried grp (order grp) d (reduced_digest dgst (order grp))) pre ->
  sig_of_nonce grp (order grp) d (reduced_digest dgst (order grp)) z
  = Some (rr, ss) ->
  rr <> 0 -> ss <> 0 ->
  gost_ec_sign dgst w = Ret (Some (mkSig rr ss)) (set_rand w t).
Proof.
  intros Hf Hg Hd Hl Hq Hr Hpre Hz Hrr Hss.
  unfold gost_ec_sign. expose_lib. calm_step.
  replace ((Z.of_nat (length dgst) =? 32) || (Z.of_nat (length dgst) =? 64))
    with true by (destruct Hl as [-> | ->]; reflexivity).
  calm_step.
  rewrite (bind_Ret _ _ _ _ _ (hashsum2bn_calm dgst w Hf ltac:(lia))).
  calm_step. calm_step. rewrite Hg. cbv beta iota.
  unfold and_then. rewrite bind_bind. calm_step. calm_step.
  destruct (Z.eqb_spec (order grp) 0) as [|_]; [lia|]. cbv beta iota.
  calm_step. rewrite Hd. cbv beta iota.
  rewrite (bind_Ret _ _ _ _ _
             (gost_ec_sign_e_calm (le_int dgst) (order grp) w Hf ltac:(lia))).
  cbv beta iota. rewrite reduced_digest_rem by exact Hq.
  do 2 calm_step. rewrite step_loop_bound.
  assert (Hfuel : (length pre < S (length (rand w)))%nat)
    by (rewrite Hr, length_app; simpl; lia).
  rewrite (bind_Ret _ _ _ _ _
             (gost_ec_sign_loop_calm grp (order grp) d _ pre _ w z t rr ss
                Hf Hq Hr Hpre Hz Hrr Hss Hfuel)).
  cbv beta iota. simpl fst. simpl snd.
  assert (Hf' : faults (set_rand w t) = []) by exact Hf.
  do 2 calm_step. reflexivity.
Qed.

Lemma sig_of_nonce_inv grp q d e z rr ss :
  ec_group_ok grp -> order grp = q ->
  sig_of_nonce grp q d e z = Some (rr, ss) ->
  exists x y,
    ec_smul grp (z mod q) (generator grp) = Affine x y
    /\ ec_smul grp (blinded (z mod q) q) (generator grp) = Affine x y
    /\ 0 <= x
    /\ rr = x mod q
    /\ ss = (rr * d + (z mod q) * e) mod q
    /\ ss = (d * rr + blinded (z mod q) q * e) mod q.
Proof.
  intros Hok <- H. pose proof (order_ge_2 grp Hok) as Hq.
  assert (Hk : 0 <= z mod order grp < order grp)
    by (apply Z.mod_pos_bound; lia).
  unfold sig_of_nonce in H. rewrite ec_mul_generator in H.
  pose proof (ec_smul_blinded grp Hok _ Hk) as Hb.
  destruct (ec_smul grp (blinded (z mod order grp) (order grp)) (generator grp))
    as [|x y] eqn:HC; [discriminate|].
  simpl in H. injection H as <- <-.
  exists x, y. split; [symmetry; exact Hb|]. split; [reflexivity|].
  split.
  { apply (on_curve_nonneg grp x y). rewrite Hb.
    apply on_curve_smul; [exact Hok | lia | exact (ok_generator _ Hok)]. }
  split; [reflexivity|]. split; [|reflexivity].
  set (k := z mod order grp) in *. set (r := x mod order grp).
  destruct (blinded_cases k (order grp)) as [-> | ->].
  - replace (d * r + (k + order grp) * e)
      with (r * d + k * e + e * order grp) by ring.
    apply Z.mod_add. lia.
  - replace (d * r + (k + order grp + order grp) * e)
      with (r * d + k * e + (2 * e) * order grp) by ring.
    apply Z.mod_add. lia.
Qed.

(** The scalar of the verification equation is the nonce. *)
Lemma roundtrip_scalar q d e r s k v :
  0 < q -> (v * e) mod q = 1 -> s = (d * r + k * e) mod q ->
  (((s * v) mod q) + ((q - r) * v) mod q * d) mod q = k mod q.
Proof.
  intros Hq Hv Hs.
  pose proof (Z.div_mod (d * r + k * e) q ltac:(lia)) as H1.
  pose proof (Z.div_mod (s * v) q ltac:(lia)) as H2.
  pose proof (Z.div_mod ((q - r) * v) q ltac:(lia)) as H3.
  pose proof (Z.div_mod (v * e) q ltac:(lia)) as H4.
  rewrite <- Hs in H1. rewrite Hv in H4.
  set (t1 := (d * r + k * e) / q) in *.
  set (t2 := (s * v) / q) in *.
  set (t3 := ((q - r) * v) / q) in *.
  set (t4 := (v * e) / q) in *.
  set (z1 := (s * v) mod q) in *.
  set (z2 := ((q - r) * v) mod q) in *.
  replace (z1 + z2 * d)
    with (k + (k * t4 - t1 * v - t2 + v * d - t3 * d) * q).
  - apply Z.mod_add. lia.
  - assert (Hz1 : z1 = s * v - q * t2) by lia.
    assert (Hz2 : z2 = (q - r) * v - q * t3) by lia.
    assert (Hs' : s = d * r + k * e - q * t1) by lia.
    assert (Hkev : k * (v * e) = k * (q * t4 + 1)) by (rewrite H4; reflexivity).
    rewrite Hz1, Hz2, Hs'.
    transitivity (k * (q * t4 + 1)
                  + (- t1 * v - t2 + v * d - t3 * d) * q); [ring|].
    rewrite <- Hkev. ring.
Qed.

(** C3: whenever [gost_ec_sign] returns a signature, there is a draw [z] of
    the tape, the last one consumed, whose nonce [k = z mod q] gives
    [r = x mod q] for the x-coordinate [x] of [k·G] and
    [s = (r·d + k·e) mod q]; [r] and [s] lie in [[1, q-1]]; the draws
    consumed before [z] all gave [r = 0] or [s = 0], and no error was
    queued.  Conversely, in a run in which no library call fails, draws that
    give [r = 0] or [s = 0] are passed over: the signature of the first draw
    that gives neither is returned. *)
Theorem sign_components grp :
  ec_group_ok grp ->
  (forall dgst w sig w',
     group (key w) = Some grp ->
     gost_ec_sign dgst w = Ret (Some sig) w' ->
     exists d pre z x y,
       priv_key (key w) = Some d
       /\ rand w = pre ++ z :: rand w'
       /\ let q := order grp in
          let k := z mod q in
          let e := reduced_digest dgst q in
          ec_smul grp k (generator grp) = Affine x y
          /\ sig_r sig = x mod q
          /\ sig_s sig = (sig_r sig * d + k * e) mod q
          /\ 1 <= sig_r sig <= q - 1
          /\ 1 <= sig_s sig <= q - 1
          /\ Forall (retried grp q d e) pre
          /\ errq w' = errq w)
  /\ (forall dgst w d pre z t rr ss,
        faults w = [] ->
        group (key w) = Some grp -> priv_key (key w) = Some d ->
        (length dgst = 32 \/ length dgst = 64)%nat ->
        rand w = pre ++ z :: t ->
        Forall (retried grp (order grp) d (reduced_digest dgst (order grp))) pre ->
        sig_of_nonce grp (order grp) d (reduced_digest dgst (order grp)) z
        = Some (rr, ss) ->
        rr <> 0 -> ss <> 0 ->
        gost_ec_sign dgst w = Ret (Some (mkSig rr ss)) (set_rand w t)).
Proof.
  intro Hok. pose proof (order_ge_2 grp Hok) as Hq. split.
  - intros dgst w sig w' Hg H.
    apply gost_ec_sign_inv in H
      as (grp' & d & Hg' & Hd & _ & _ & He & _ & pre & z & Hr & Hpre & Hz
          & Hrr & Hss).
    assert (grp' = grp) by congruence. subst grp'.
    apply (sig_of_nonce_inv grp _ _ _ _ _ _ Hok eq_refl) in Hz
      as (x & y & HC & _ & _ & Hrx & Hsx & _).
    exists d, pre, z, x, y. split; [exact Hd|]. split; [exact Hr|].
    cbv zeta. split; [exact HC|]. split; [exact Hrx|]. split; [exact Hsx|].
    pose proof (Z.mod_pos_bound x (order grp) ltac:(lia)).
    pose proof (Z.mod_pos_bound
                  (sig_r sig * d
                   + z mod order grp * reduced_digest dgst (order grp))
                  (order grp) ltac:(lia)).
    repeat split; try assumption; lia.
  - intros dgst w d pre z t rr ss Hf Hg Hd Hl Hr Hpre Hz Hrr Hss.
    apply (gost_ec_sign_calm dgst w grp d pre z t rr ss); auto. lia.
Qed.

(** On the small curve: the draw 7 gives [r = 0] and is passed over, the
    draw 1 gives the signature (5, 15). *)
Lemma sign_components_witness :
  exists d pre z x y,
    priv_key (key (toy_world [7; 1] [])) = Some d
    /\ rand (toy_world [7; 1] []) = pre ++ z :: rand (toy_world [] [])
    /\ let q := order toy_group in
       let k := z mod q in
       let e := reduced_digest toy_digest q in
       ec_smul toy_group k (generator toy_group) = Affine x y
       /\ sig_r (mkSig 5 15) = x mod q
       /\ sig_s (mkSig 5 15) = (sig_r (mkSig 5 15) * d + k * e) mod q
       /\ 1 <= sig_r (mkSig 5 15) <= q - 1
       /\ 1 <= sig_s (mkSig 5 15) <= q - 1
       /\ Forall (retried toy_group q d e) pre
       /\ errq (toy_world [] []) = errq (toy_world [7; 1] []).
Proof.
  apply (proj1 (sign_components toy_group toy_group_ok) toy_digest
           (toy_world [7; 1] []) (mkSig 5 15) (toy_world [] [])).
  - reflexivity.
  - vm_compute. reflexivity.
Defined.

(** * Round trip *)

(** C1: for a digest of 32 or 64 bytes, a private scalar [d] in [[1, q-1]]
    with the public point [Q = d·G] and a group whose points obey the group
    laws, a signature that [gost_ec_sign] returns is accepted by
    [gost_ec_verify] on the same digest and key: the result is 1 (valid),
    in every run of the verification in which no library call fails. *)
Theorem sign_verify_roundtrip grp dgst d w sig w' w2 :
  ec_group_ok grp ->
  (length dgst = 32 \/ length dgst = 64)%nat ->
  1 <= d < order grp ->
  key w = mkKey (Some grp) (Some d) (Some (ec_smul grp d (generator grp))) ->
  gost_ec_sign dgst w = Ret (Some sig) w' ->
  faults w2 = [] -> key w2 = key w ->
  gost_ec_verify dgst sig w2 = Ret 1 w2.
Proof.
  intros Hok Hl Hd Hkey Hsign Hf2 Hk2.
  pose proof (order_ge_2 grp Hok) as Hq.
  pose proof (ok_generator _ Hok) as HG.
  apply gost_ec_sign_inv in Hsign
    as (grp' & d' & Hg' & Hd' & _ & _ & _ & _ & pre & z & _ & _ & Hz & Hrr & Hss).
  rewrite Hkey in Hg', Hd'. simpl in Hg', Hd'.
  injection Hg' as <-. injection Hd' as <-.
  apply (sig_of_nonce_inv grp _ _ _ _ _ _ Hok eq_refl) in Hz
    as (x & y & _ & HC & Hx & Hrx & _ & Hsx).
  set (q := order grp) in *. set (e := reduced_digest dgst q) in *.
  set (kb := blinded (z mod q) q) in *.
  assert (Hkb : 0 <= kb).
  { pose proof (blinded_pos (z mod q) q ltac:(apply Z.mod_pos_bound; lia)).
    fold kb in H. lia. }
  assert (Hr : 1 <= sig_r sig < q).
  { pose proof (Z.mod_pos_bound x q ltac:(lia)). lia. }
  assert (Hs : 1 <= sig_s sig < q).
  { pose proof (Z.mod_pos_bound (d * sig_r sig + kb * e) q ltac:(lia)). lia. }
  assert (HQ : on_curve grp (ec_smul grp d (generator grp)) = true)
    by (apply on_curve_smul; [exact Hok | lia | exact HG]).
  assert (Hg2 : group (key w2) = Some grp) by (rewrite Hk2, Hkey; reflexivity).
  assert (Hp2 : pub_key (key w2) = Some (ec_smul grp d (generator grp)))
    by (rewrite Hk2, Hkey; reflexivity).
  rewrite (gost_ec_verify_calm dgst sig w2 grp _ Hf2 Hg2 Hp2).
  destruct (verify_calm_in_range grp _ dgst sig Hok HQ Hl Hr Hs) as (Hv & Hres).
  cbv zeta in Hv, Hres. fold q e in Hv, Hres.
  set (v := Z.invmod e q) in *.
  set (z1 := (sig_s sig * v) mod q) in *.
  set (z2 := ((q - sig_r sig) * v) mod q) in *.
  assert (Hz1 : 0 <= z1) by (apply Z.mod_pos_bound; lia).
  assert (Hz2 : 0 <= z2) by (apply Z.mod_pos_bound; lia).
  rewrite (ec_mul_combined grp Hok z1 z2 d Hz1 Hz2 ltac:(lia)) in Hres.
  rewrite (ec_smul_congr grp Hok (z1 + z2 * d) kb ltac:(nia) Hkb) in Hres.
  - rewrite HC in Hres. rewrite Hres, <- Hrx, Z.eqb_refl. reflexivity.
  - apply (roundtrip_scalar q d e (sig_r sig) (sig_s sig) kb v);
      [lia | exact Hv | exact Hsx].
Qed.

(** On the small curve: the signature (5, 15) that [gost_ec_sign] returns
    for the tape [7; 1] is accepted. *)
Lemma sign_verify_roundtrip_witness :
  gost_ec_verify toy_digest (mkSig 5 15) (toy_world [] []) = Ret 1 (toy_world [] []).
Proof.
  apply (sign_verify_roundtrip toy_group toy_digest 5 (toy_world [7; 1] [])
           (mkSig 5 15) (toy_world [] []) (toy_world [] [])).
  - exact toy_group_ok.
  - left. reflexivity.
  - simpl. lia.
  - reflexivity.
  - vm_compute. reflexivity.
  - reflexivity.
  - reflexivity.
Defined.

(** * Runs end and leave the key alone *)

Section Steady.
Variable R : world -> world -> Prop.
Hypothesis R_refl : forall w, R w w.
Hypothesis R_trans : forall w1 w2 w3, R w1 w2 -> R w2 w3 -> R w1 w3.
Hypothesis R_same : forall w w',
    key w' = key w -> (length (rand w') <= length (rand w))%nat -> R w w'.
Hypothesis R_len : forall w w',
    R w w' -> (length (rand w') <= length (rand w))%nat.

Lemma steady_ret n {A} (a : A) w : steady n R (ret a) w.
Proof. intros _. apply R_refl. Qed.

Lemma steady_bind n {A B} (m : M A) (f : A -> M B) w :
  steady n R m w ->
  (forall a w1, m w = Ret a w1 -> steady n R (f a) w1) ->
  steady n R (bind m f) w.
Proof.
  unfold steady, bind. intros Hm Hf Hn. specialize (Hm Hn).
  destruct (m w) as [a w1| |]; try assumption.
  specialize (Hf a w1 eq_refl). pose proof (R_len _ _ Hm) as Hl.
  specialize (Hf ltac:(lia)).
  destruct (f a w1); try assumption; eapply R_trans; eassumption.
Qed.

Lemma steady_weaken k n {A} (m : M A) w :
  (length (rand w) < k)%nat -> steady k R m w -> steady n R m w.
Proof. intros Hk H _. exact (H Hk). Qed.

Lemma steady_lib n {A} (v : option A) w : steady n R (lib v) w.
Proof.
  intros _. unfold lib. destruct w as [k rd f eq]; simpl.
  destruct f as [|[] f]; apply R_same; simpl; auto.
Qed.

Lemma steady_GOSTerr n fn r w : steady n R (GOSTerr fn r) w.
Proof. intros _. apply R_same; simpl; auto. Qed.

Lemma steady_assert n c w : steady n R (OPENSSL_assert c) w.
Proof. intros _. unfold OPENSSL_assert. destruct c; apply R_refl. Qed.

Lemma steady_die n {A} w : steady n R (@OPENSSL_die A) w.
Proof. intros _. apply R_refl. Qed.

Lemma steady_get0_group n w : steady n R EC_KEY_get0_group w.
Proof. intros _. apply R_refl. Qed.

Lemma steady_get0_private_key n w : steady n R EC_KEY_get0_private_key w.
Proof. intros _. apply R_refl. Qed.

Lemma steady_get0_public_key n w : steady n R EC_KEY_get0_public_key w.
Proof. intros _. apply R_refl. Qed.

Lemma steady_rand_range n q w : steady n R (BN_rand_range q) w.
Proof.
  intros _. unfold BN_rand_range. destruct (q <=? 0); [apply R_refl|].
  destruct w as [k rd f eq]; simpl. destruct rd as [|z t]; [apply R_refl|].
  apply R_same; simpl; auto.
Qed.

Lemma steady_get_once n v w : steady n R (BN_CTX_get_once v) w.
Proof. destruct v; [apply steady_ret | apply steady_lib]. Qed.

Lemma steady_loop_bound n {B} (f : nat -> M B) w :
  steady n R (f (S (length (rand w)))) w ->
  steady n R (bind loop_bound f) w.
Proof. intro H. exact H. Qed.

Ltac steady_step :=
  first
    [ apply steady_ret | apply steady_lib | apply steady_GOSTerr
    | apply steady_assert | apply steady_die | apply steady_get0_group
    | apply steady_get0_private_key | apply steady_get0_public_key
    | apply steady_rand_range | apply steady_get_once
    | match goal with
      | |- steady _ _ (bind loop_bound _) _ => apply steady_loop_bound
      | |- steady _ _ (bind _ _) _ => apply steady_bind; [ | intros ? ? ? ]
      | |- steady _ _ (match ?x with _ => _ end) _ => destruct x
      end ];
  cbv beta.

Ltac steady_tac := expose_lib; repeat steady_step.

Lemma steady_hashsum2bn n dgst w : steady n R (hashsum2bn dgst) w.
Proof. unfold hashsum2bn. steady_tac. Qed.

Lemma steady_sign_e n md q w : steady n R (gost_ec_sign_e md q) w.
Proof. unfold gost_ec_sign_e, and_then, raise. steady_tac. Qed.

Lemma steady_verify_e n dgst q w : steady n R (gost_ec_verify_e dgst q) w.
Proof.
  unfold gost_ec_verify_e, raise.
  steady_tac; try apply steady_hashsum2bn; steady_tac.
Qed.

Lemma steady_sign_nonce n q w : steady n R (gost_ec_sign_nonce q) w.
Proof. unfold gost_ec_sign_nonce, raise. steady_tac. Qed.

(** The loop of [gost_ec_sign] ends when its fuel exceeds the length of
    the tape. *)
Lemma steady_sign_loop fuel grp q d e :
  forall X r tmp tmp2 s w,
  steady fuel R (gost_ec_sign_loop fuel grp q d e X r tmp tmp2 s) w.
Proof.
  induction fuel as [|fuel IH]; intros X r tmp tmp2 s w Hlen; [lia|].
  rewrite gost_ec_sign_loop_S. unfold bind at 1.
  pose proof (steady_sign_nonce (S fuel) q w Hlen) as Hn.
  destruct (gost_ec_sign_nonce q w) as [k w1| |] eqn:Hk; try assumption.
  destruct k as [k|]; [|exact Hn].
  apply gost_ec_sign_nonce_inv in Hk as (_ & _ & _ & z & Hr & _).
  assert (Hlen1 : (length (rand w1) < fuel)%nat)
    by (rewrite Hr in Hlen; simpl in Hlen; lia).
  match goal with
  | |- match ?m w1 with _ => _ end =>
      assert (Hrest : steady fuel R m w1)
  end.
  { unfold raise. steady_tac; apply IH. }
  specialize (Hrest Hlen1).
  match goal with
  | |- match ?m with _ => _ end => destruct m
  end; try assumption; eapply R_trans; eassumption.
Qed.

Lemma steady_sign_loop_bound n grp q d e X r tmp tmp2 s w :
  steady n R
    (gost_ec_sign_loop (S (length (rand w))) grp q d e X r tmp tmp2 s) w.
Proof.
  apply (steady_weaken (S (length (rand w)))); [lia|].
  apply steady_sign_loop.
Qed.

Lemma steady_sign n dgst w : steady n R (gost_ec_sign dgst) w.
Proof.
  unfold gost_ec_sign, and_then, raise.
  steady_tac;
    first [ apply steady_hashsum2bn | apply steady_sign_e
          | apply steady_sign_loop_bound ].
Qed.

Lemma steady_verify n dgst sig w : steady n R (gost_ec_verify dgst sig) w.
Proof.
  unfold gost_ec_verify, fail0.
  steady_tac; apply steady_verify_e.
Qed.

Lemma steady_keygen_loop fuel q :
  forall w, steady fuel R (gost_ec_keygen_loop fuel q) w.
Proof.
  induction fuel as [|fuel IH]; intros w Hlen; [lia|].
  simpl gost_ec_keygen_loop. unfold bind at 1.
  pose proof (steady_rand_range (S fuel) q w Hlen) as Hn.
  destruct (BN_rand_range q w) as [k w1| |] eqn:Hk; try assumption.
  destruct k as [k|].
  - apply BN_rand_range_Some_inv in Hk as (_ & _ & _ & _ & z & Hr & _).
    assert (Hlen1 : (length (rand w1) < fuel)%nat)
      by (rewrite Hr in Hlen; simpl in Hlen; lia).
    destruct (BN_is_zero k).
    + specialize (IH w1 Hlen1).
      destruct (gost_ec_keygen_loop fuel q w1); try assumption;
        eapply R_trans; eassumption.
    + exact Hn.
  - unfold raise, bind, GOSTerr, ret.
    eapply R_trans; [exact Hn|]. apply R_same; simpl; auto.
Qed.

Lemma steady_keygen_loop_bound n q w :
  steady n R (gost_ec_keygen_loop (S (length (rand w))) q) w.
Proof.
  apply (steady_weaken (S (length (rand w)))); [lia|].
  apply steady_keygen_loop.
Qed.

Section Keys.
(** For a relation that lets the key change. *)
Hypothesis R_key : forall w w', rand w' = rand w -> R w w'.

Lemma steady_set_private_key n d w : steady n R (EC_KEY_set_private_key d) w.
Proof.
  intros _. unfold EC_KEY_set_private_key. destruct w as [k rd f eq]; simpl.
  destruct f as [|[] f]; apply R_key; reflexivity.
Qed.

Lemma steady_set_public_key n P w : steady n R (EC_KEY_set_public_key P) w.
Proof.
  intros _. unfold EC_KEY_set_public_key. destruct w as [k rd f eq]; simpl.
  destruct f as [|[] f]; apply R_key; reflexivity.
Qed.

Lemma steady_compute_public n w : steady n R gost_ec_compute_public w.
Proof.
  unfold gost_ec_compute_public, fail0.
  steady_tac; apply steady_set_public_key.
Qed.

Lemma steady_keygen n w : steady n R gost_ec_keygen w.
Proof.
  unfold gost_ec_keygen, gost_ec_keygen_store, fail0.
  steady_tac;
    first [ apply steady_keygen_loop_bound | apply steady_set_private_key
          | apply steady_compute_public ].
Qed.
End Keys.
End Steady.

Lemma same_key_refl w : same_key w w.
Proof. split; [reflexivity | lia]. Qed.

Lemma same_key_trans w1 w2 w3 :
  same_key w1 w2 -> same_key w2 w3 -> same_key w1 w3.
Proof. intros (K1 & L1) (K2 & L2). split; [congruence | lia]. Qed.

Lemma same_key_same w w' :
  key w' = key w -> (length (rand w') <= length (rand w))%nat -> same_key w w'.
Proof. intros; split; assumption. Qed.

Lemma same_key_len w w' :
  same_key w w' -> (length (rand w') <= length (rand w))%nat.
Proof. intros (_ & H). exact H. Qed.

(** C10: [gost_ec_sign] and [gost_ec_verify] do not modify the key object:
    whether the call returns a result or an error, or stops at an
    assertion, the group, the private scalar and the public point of the key
    are what they were before the call; and the call does end (the loop of
    the model never runs out of fuel). *)
Theorem sign_verify_keep_key dgst sig w :
  (forall r w', gost_ec_sign dgst w = Ret r w' -> key w' = key w)
  /\ (forall w', gost_ec_sign dgst w = Aborted w' -> key w' = key w)
  /\ gost_ec_sign dgst w <> NoFuel
  /\ (forall r w', gost_ec_verify dgst sig w = Ret r w' -> key w' = key w)
  /\ (forall w', gost_ec_verify dgst sig w = Aborted w' -> key w' = key w)
  /\ gost_ec_verify dgst sig w <> NoFuel.
Proof.
  pose proof (steady_sign same_key same_key_refl same_key_trans same_key_same
                same_key_len (S (length (rand w))) dgst w
                (Nat.lt_succ_diag_r _)) as Hs.
  pose proof (steady_verify same_key same_key_refl same_key_trans
                same_key_same same_key_len (S (length (rand w))) dgst sig w
                (Nat.lt_succ_diag_r _)) as Hv.
  repeat split.
  - intros r w' E. rewrite E in Hs. apply Hs.
  - intros w' E. rewrite E in Hs. apply Hs.
  - intro E. rewrite E in Hs. exact Hs.
  - intros r w' E. rewrite E in Hv. apply Hv.
  - intros w' E. rewrite E in Hv. apply Hv.
  - intro E. rewrite E in Hv. exact Hv.
Qed.

(** * Key generation *)

Lemma gost_ec_keygen_loop_inv fuel q :
  forall w d w',
  gost_ec_keygen_loop fuel q w = Ret (Some d) w' ->
  0 < q /\ key w' = key w /\ errq w' = errq w /\ faults w' = faults w
  /\ exists pre z,
      rand w = pre ++ z :: rand w'
      /\ Forall (fun z' => z' mod q = 0) pre
      /\ d = z mod q /\ d <> 0.
Proof.
  induction fuel as [|fuel IH]; intros w d w' H; [discriminate H|].
  simpl gost_ec_keygen_loop in H.
  try_inv H k w1 Hk.
  apply BN_rand_range_Some_inv in Hk as (Hq & K1 & E1 & F1 & z & R1 & ->).
  unfold BN_is_zero in H.
  destruct (Z.eqb_spec (z mod q) 0) as [Hz|Hz].
  - apply IH in H as (_ & K & E & F & pre & z' & R & Hpre & Hd & Hd0).
    split; [exact Hq|]. repeat split; try congruence.
    exists (z :: pre), z'. simpl. repeat split; try congruence.
    constructor; assumption.
  - unfold ret in H. injection H as <- <-.
    split; [exact Hq|]. repeat split; try congruence.
    exists [], z. simpl. repeat split; auto.
Qed.

Lemma EC_KEY_set_private_key_inv d w w' :
  EC_KEY_set_private_key d w = Ret (Some tt) w' ->
  key w' = mkKey (group (key w)) (Some d) (pub_key (key w))
  /\ rand w' = rand w /\ errq w' = errq w.
Proof.
  unfold EC_KEY_set_private_key. destruct w as [k rd f eq]; simpl.
  destruct f as [|[] f]; intro H; try discriminate;
    injection H as <-; simpl; auto.
Qed.

Lemma EC_KEY_set_public_key_inv P w r w' :
  EC_KEY_set_public_key P w = Ret r w' ->
  group (key w') = group (key w) /\ priv_key (key w') = priv_key (key w)
  /\ rand w' = rand w /\ errq w' = errq w
  /\ ((r = Some tt /\ pub_key (key w') = Some P)
      \/ (r = None /\ pub_key (key w') = None)).
Proof.
  unfold EC_KEY_set_public_key. destruct w as [k rd f eq]; simpl.
  destruct f as [|[] f]; intro H; injection H as <- <-; simpl; auto 10.
Qed.

(** What the part of [gost_ec_keygen] before the label [end] has done when
    it leaves [ok] set. *)
Lemma gost_ec_keygen_store_inv grp w w1 :
  gost_ec_keygen_store grp w = Ret true w1 ->
  0 < order grp /\ errq w1 = errq w
  /\ exists d pre z,
      key w1 = mkKey (group (key w)) (Some d) (pub_key (key w))
      /\ rand w = pre ++ z :: rand w1
      /\ Forall (fun z' => z' mod order grp = 0) pre
      /\ d = z mod order grp /\ d <> 0.
Proof.
  unfold gost_ec_keygen_store. intro H.
  bind_inv H o w2 Ho. apply lib_inv in Ho as (F2 & _).
  bind_inv H d0 w3 Hd0. apply lib_inv in Hd0 as (F3 & _).
  destruct o as [o|]; [|discriminate H].
  destruct d0 as [d0|]; [|discriminate H].
  bind_inv H q w4 Hq. destruct q as [q|]; [|discriminate H].
  apply lib_Some_inv in Hq as (F4 & Eq).
  destruct (Z.eqb_spec (order grp) 0) as [|_]; [discriminate|].
  injection Eq as <-.
  bind_inv H fuel w5 Hfuel.
  unfold loop_bound in Hfuel. injection Hfuel as <- <-.
  bind_inv H d w6 Hd. destruct d as [d|]; [|discriminate H].
  apply gost_ec_keygen_loop_inv in Hd
    as (Hqpos & K6 & E6 & _ & pre & z & R6 & Hpre & Hdz & Hd0).
  bind_inv H u w7 Hu. destruct u as [[]|]; [|discriminate H].
  apply EC_KEY_set_private_key_inv in Hu as (K7 & R7 & E7).
  unfold ret in H. injection H as <-.
  pose proof (frame_trans _ _ _ F2 (frame_trans _ _ _ F3 F4)) as Fa.
  split; [exact Hqpos|].
  split; [rewrite E7, E6; apply (frame_errq _ _ Fa)|].
  exists d, pre, z.
  split; [rewrite K7, K6, (frame_key _ _ Fa); reflexivity|].
  split; [rewrite R7, <- R6; symmetry; apply (frame_rand _ _ Fa)|].
  auto.
Qed.

Lemma fail0_inv fn r w v w' :
  fail0 fn r w = Ret v w' -> v = 0 /\ w' = push_err w (fn, r).
Proof.
  unfold fail0, bind, GOSTerr, ret. intro H. injection H as <- <-.
  split; reflexivity.
Qed.

(** What a run of [gost_ec_compute_public] leaves behind, whatever the plan
    of failures. *)
Lemma gost_ec_compute_public_inv w v w' :
  gost_ec_compute_public w = Ret v w' ->
  group (key w') = group (key w) /\ priv_key (key w') = priv_key (key w)
  /\ rand w' = rand w
  /\ ((v = 1 /\ errq w' = errq w
       /\ exists grp d,
           group (key w) = Some grp /\ priv_key (key w) = Some d
           /\ pub_key (key w') = Some (ec_mul grp (Some d) None None))
      \/ (v = 0
          /\ (pub_key (key w') = pub_key (key w) \/ pub_key (key w') = None)
          /\ exists r,
              errq w' = (GOST_F_GOST_EC_COMPUTE_PUBLIC, r) :: errq w)).
Proof.
  unfold gost_ec_compute_public. intro H.
  assert (Hfail : forall w0 r,
    frame w w0 ->
    fail0 GOST_F_GOST_EC_COMPUTE_PUBLIC r w0 = Ret v w' ->
    group (key w') = group (key w) /\ priv_key (key w') = priv_key (key w)
    /\ rand w' = rand w
    /\ ((v = 1 /\ errq w' = errq w
         /\ exists grp d,
             group (key w) = Some grp /\ priv_key (key w) = Some d
             /\ pub_key (key w') = Some (ec_mul grp (Some d) None None))
        \/ (v = 0
            /\ (pub_key (key w') = pub_key (key w) \/ pub_key (key w') = None)
            /\ exists r,
                errq w' = (GOST_F_GOST_EC_COMPUTE_PUBLIC, r) :: errq w))).
  { intros w0 r (K & Rd & E) Hf. apply fail0_inv in Hf as (-> & ->). simpl.
    rewrite K, Rd, E. repeat split; try reflexivity.
    right. split; [reflexivity|]. split; [left; reflexivity|].
    exists r. reflexivity. }
  bind_inv H g w1 Hg. unfold EC_KEY_get0_group in Hg. injection Hg as <- <-.
  destruct (group (key w)) as [grp|] eqn:Hgrp;
    [|exact (Hfail _ _ (frame_refl w) H)].
  bind_inv H c w2 Hc. apply lib_inv in Hc as (F2 & _).
  destruct c as [c|]; [|exact (Hfail _ _ F2 H)].
  bind_inv H p w3 Hp.
  unfold EC_KEY_get0_private_key in Hp. injection Hp as <- <-.
  destruct (priv_key (key w2)) as [d|] eqn:Hd; [|exact (Hfail _ _ F2 H)].
  bind_inv H n w4 Hn. apply lib_inv in Hn as (F4 & _).
  pose proof (frame_trans _ _ _ F2 F4) as Fa.
  destruct n as [n|]; [|exact (Hfail _ _ Fa H)].
  bind_inv H P w5 HP. apply lib_inv in HP as (F5 & EP).
  pose proof (frame_trans _ _ _ Fa F5) as Fb.
  destruct P as [P|]; [|exact (Hfail _ _ Fb H)].
  destruct EP as [EP|EP]; [|discriminate]. injection EP as ->.
  bind_inv H u w6 Hu.
  apply EC_KEY_set_public_key_inv in Hu as (G6 & P6 & R6 & E6 & Hpub).
  destruct Fb as (Kb & Rb & Eb).
  destruct Hpub as [(-> & Hpub) | (-> & Hpub)].
  - unfold ret in H. injection H as <- <-.
    rewrite G6, P6, R6, Kb, Rb. repeat split; try reflexivity; try assumption.
    left. split; [reflexivity|]. split; [congruence|].
    exists grp, d. rewrite (frame_key _ _ F2) in Hd. auto.
  - apply fail0_inv in H as (-> & ->). simpl.
    rewrite G6, P6, R6, Kb, Rb. repeat split; try reflexivity; try assumption.
    right. split; [reflexivity|]. split; [right; exact Hpub|].
    exists ERR_R_EC_LIB. congruence.
Qed.

Lemma gost_ec_compute_public_calm w grp d :
  faults w = [] ->
  key w = mkKey (Some grp) (Some d) (Some (ec_mul grp (Some d) None None)) ->
  gost_ec_compute_public w = Ret 1 w.
Proof.
  intros Hf Hk.
  assert (Hg : group (key w) = Some grp) by (rewrite Hk; reflexivity).
  assert (Hd : priv_key (key w) = Some d) by (rewrite Hk; reflexivity).
  unfold gost_ec_compute_public. expose_lib.
  calm_step. rewrite Hg. cbv beta iota.
  calm_step. calm_step. rewrite Hd. cbv beta iota.
  do 2 calm_step.
  unfold bind, EC_KEY_set_public_key, ret. rewrite Hf.
  destruct w as [k rd f eq]. simpl in *. subst. reflexivity.
Qed.

(** C8: whenever [gost_ec_keygen] succeeds (returns 1), the key holds a
    private scalar [d] that is not zero, [d] is the first draw of the tape
    that is not zero modulo [q] (the zero draws before it were drawn again
    and are neither returned nor reported), and the public point of the key
    is [d·G], the point that [gost_ec_compute_public] derives from this
    scalar and group: running it again on the key changes nothing. *)
Theorem keygen_success w w' :
  gost_ec_keygen w = Ret 1 w' ->
  exists grp d pre z,
    group (key w) = Some grp
    /\ key w' = mkKey (Some grp) (Some d)
                  (Some (ec_smul grp d (generator grp)))
    /\ 1 <= d < order grp
    /\ rand w = pre ++ z :: rand w'
    /\ Forall (fun z' => z' mod order grp = 0) pre
    /\ d = z mod order grp
    /\ errq w' = errq w
    /\ (forall w2, faults w2 = [] -> key w2 = key w' ->
        gost_ec_compute_public w2 = Ret 1 w2).
Proof.
  unfold gost_ec_keygen. intro H.
  bind_inv H g w1 Hg. unfold EC_KEY_get0_group in Hg. injection Hg as <- <-.
  destruct (group (key w)) as [grp|] eqn:Hgrp;
    [|apply fail0_inv in H as (H & _); discriminate H].
  bind_inv H ok w2 Hok. destruct ok; [|discriminate H].
  apply gost_ec_keygen_store_inv in Hok
    as (Hq & E2 & d & pre & z & K2 & R2 & Hpre & Hdz & Hd0).
  apply gost_ec_compute_public_inv in H as (G3 & P3 & R3 & Hres).
  destruct Hres as [(_ & E3 & grp' & d' & Hg' & Hd' & Hpub) | (Hv & _)];
    [|discriminate Hv].
  rewrite K2 in G3, P3, Hg', Hd'. simpl in G3, P3, Hg', Hd'.
  rewrite Hgrp in G3, Hg'. injection Hg' as <-. injection Hd' as <-.
  rewrite ec_mul_generator in Hpub.
  assert (Hkey : key w' = mkKey (Some grp) (Some d)
                           (Some (ec_smul grp d (generator grp)))).
  { destruct (key w') as [g p b]. simpl in *. congruence. }
  exists grp, d, pre, z. split; [reflexivity|]. split; [exact Hkey|].
  split.
  { pose proof (Z.mod_pos_bound z (order grp) Hq). lia. }
  split; [congruence|]. split; [exact Hpre|]. split; [exact Hdz|].
  split; [congruence|].
  intros w3 Hf3 Hk3. apply (gost_ec_compute_public_calm w3 grp d Hf3).
  rewrite Hk3, Hkey, ec_mul_generator. reflexivity.
Qed.

(** On the small curve: the draws 0 and 19 are zero modulo 19, the draw 7
    gives the key. *)
Lemma keygen_success_witness :
  exists grp d pre z,
    group (key (toy_world [0; 19; 7] [])) = Some grp
    /\ key (mkWorld (mkKey (Some toy_group) (Some 7) (Some (Affine 0 6)))
              [] [] [])
       = mkKey (Some grp) (Some d) (Some (ec_smul grp d (generator grp)))
    /\ 1 <= d < order grp
    /\ rand (toy_world [0; 19; 7] []) = pre ++ z :: []
    /\ Forall (fun z' => z' mod order grp = 0) pre
    /\ d = z mod order grp
    /\ [] = errq (toy_world [0; 19; 7] [])
    /\ (forall w2, faults w2 = [] ->
        key w2 = mkKey (Some toy_group) (Some 7) (Some (Affine 0 6)) ->
        gost_ec_compute_public w2 = Ret 1 w2).
Proof.
  apply (keygen_success (toy_world [0; 19; 7] [])
           (mkWorld (mkKey (Some toy_group) (Some 7) (Some (Affine 0 6)))
              [] [] [])).
  vm_compute. reflexivity.
Defined.

(** C9: key generation is not atomic.  When the first part of
    [gost_ec_keygen] has drawn and stored a new private scalar [d] and
    [gost_ec_compute_public] then fails, [gost_ec_keygen] returns 0, with an
    error queued by [gost_ec_compute_public], and the key keeps the new
    scalar [d]; its public point is the one it had before the call, or
    none.  The state of the key before the call is not restored. *)
Theorem keygen_not_atomic grp w w1 w2 :
  group (key w) = Some grp ->
  gost_ec_keygen_store grp w = Ret true w1 ->
  gost_ec_compute_public w1 = Ret 0 w2 ->
  gost_ec_keygen w = Ret 0 w2
  /\ exists d pre z,
      rand w = pre ++ z :: rand w2
      /\ d = z mod order grp /\ d <> 0
      /\ priv_key (key w2) = Some d
      /\ group (key w2) = Some grp
      /\ (pub_key (key w2) = pub_key (key w) \/ pub_key (key w2) = None)
      /\ exists r, errq w2 = (GOST_F_GOST_EC_COMPUTE_PUBLIC, r) :: errq w.
Proof.
  intros Hg Hstore Hpub. split.
  - unfold gost_ec_keygen. rewrite step_get0_group, Hg.
    rewrite (bind_Ret _ _ _ _ _ Hstore). exact Hpub.
  - apply gost_ec_keygen_store_inv in Hstore
      as (Hq & E1 & d & pre & z & K1 & R1 & Hpre & Hdz & Hd0).
    apply gost_ec_compute_public_inv in Hpub as (G2 & P2 & R2 & Hres).
    destruct Hres as [(Hv & _) | (_ & Hp & r & E2)]; [discriminate Hv|].
    rewrite K1 in G2, P2, Hp. simpl in G2, P2, Hp.
    exists d, pre, z. split; [congruence|]. split; [exact Hdz|].
    split; [exact Hd0|]. split; [exact P2|]. split; [congruence|].
    split; [exact Hp|]. exists r. congruence.
Qed.

(** On the small curve: the scalar 7 replaces the scalar 5, the allocation
    of the point fails, and the key is left with the scalar 7 and the point
    of the scalar 5. *)
Lemma keygen_not_atomic_witness :
  gost_ec_keygen (toy_world [0; 19; 7] [false; false; false; false; false; true])
  = Ret 0 toy_world_failed
  /\ exists d pre z,
      rand (toy_world [0; 19; 7] [false; false; false; false; false; true])
      = pre ++ z :: rand toy_world_failed
      /\ d = z mod order toy_group /\ d <> 0
      /\ priv_key (key toy_world_failed) = Some d
      /\ group (key toy_world_failed) = Some toy_group
      /\ (pub_key (key toy_world_failed)
          = pub_key (key (toy_world [0; 19; 7]
                            [false; false; false; false; false; true]))
          \/ pub_key (key toy_world_failed) = None)
      /\ exists r,
          errq toy_world_failed
          = (GOST_F_GOST_EC_COMPUTE_PUBLIC, r)
            :: errq (toy_world [0; 19; 7]
                       [false; false; false; false; false; true]).
Proof.
  apply (keygen_not_atomic toy_group
           (toy_world [0; 19; 7] [false; false; false; false; false; true])
           toy_world_stored toy_world_failed).
  - reflexivity.
  - vm_compute. reflexivity.
  - vm_compute. reflexivity.
Defined.

(** Key generation ends: the loop of the model never runs out of fuel. *)
Lemma gost_ec_keygen_ends w : gost_ec_keygen w <> NoFuel.
Proof.
  assert (H : steady (S (length (rand w))) tape_shrinks gost_ec_keygen w).
  { apply steady_keygen; unfold tape_shrinks.
    - intros; lia.
    - intros; lia.
    - intros; assumption.
    - intros; assumption.
    - intros w0 w' E. rewrite E. lia. }
  intro E. specialize (H (Nat.lt_succ_diag_r _)). rewrite E in H. exact H.
Qed.

(** * The parameter sets *)

Lemma paramset_search_Some params n e :
  paramset_search params n = Some e ->
  R3410_ec.nid e = n /\ n <> NID_undef
  /\ exists pre post,
      params = pre ++ e :: post
      /\ Forall (fun e' => R3410_ec.nid e' <> NID_undef
                           /\ R3410_ec.nid e' <> n) pre.
Proof.
  induction params as [|e0 rest IH]; simpl; [discriminate|].
  destruct (Z.eqb_spec (R3410_ec.nid e0) NID_undef) as [|Hu]; [discriminate|].
  destruct (Z.eqb_spec (R3410_ec.nid e0) n) as [Hn|Hn].
  - intro H. injection H as <-. split; [exact Hn|]. split; [congruence|].
    exists [], rest. split; [reflexivity | constructor].
  - intro H. destruct (IH H) as (E & U & pre & post & -> & Hpre).
    split; [exact E|]. split; [exact U|].
    exists (e0 :: pre), post. split; [reflexivity|].
    constructor; [split; assumption | exact Hpre].
Qed.

Lemma paramset_search_None params n :
  paramset_search params n = None <->
  forall e, In e (live_entries params) -> R3410_ec.nid e <> n.
Proof.
  induction params as [|e0 rest IH]; simpl.
  - split; [intros _ e [] | reflexivity].
  - destruct (Z.eqb_spec (R3410_ec.nid e0) NID_undef) as [Hu|Hu].
    + split; [intros _ e [] | reflexivity].
    + destruct (Z.eqb_spec (R3410_ec.nid e0) n) as [Hn|Hn].
      * split; [discriminate|]. intro H. exfalso.
        apply (H e0); [left; reflexivity | exact Hn].
      * rewrite IH. split.
        -- intros H e [<- | Hin]; [exact Hn | apply H, Hin].
        -- intros H e Hin. apply H. right. exact Hin.
Qed.

Lemma live_entries_nid params e :
  In e (live_entries params) -> R3410_ec.nid e <> NID_undef.
Proof.
  induction params as [|e0 rest IH]; simpl; [intros []|].
  destruct (Z.eqb_spec (R3410_ec.nid e0) NID_undef) as [|Hu]; [intros []|].
  intros [<- | Hin]; [exact Hu | apply IH, Hin].
Qed.

(** X1: on tables that hold their terminator, an entry that
    [gost_nid2params] returns has the identifier asked for, which is not
    [NID_undef]; it is the first entry with this
    identifier of the 2012 table, before the terminator of the table, or,
    when the 2012 table has none before its terminator, the first one of the
    2001 table. *)
Theorem gost_nid2params_found t2012 t2001 n e :
  terminated t2012 = true -> terminated t2001 = true ->
  gost_nid2params t2012 t2001 n = Some e ->
  R3410_ec.nid e = n /\ n <> NID_undef
  /\ ((exists pre post,
         t2012 = pre ++ e :: post
         /\ Forall (fun e' => R3410_ec.nid e' <> NID_undef
                              /\ R3410_ec.nid e' <> n) pre)
      \/ ((forall e', In e' (live_entries t2012) -> R3410_ec.nid e' <> n)
          /\ exists pre post,
              t2001 = pre ++ e :: post
              /\ Forall (fun e' => R3410_ec.nid e' <> NID_undef
                                   /\ R3410_ec.nid e' <> n) pre)).
Proof.
  intros _ _. unfold gost_nid2params.
  destruct (paramset_search t2012 n) as [e1|] eqn:H1; intro H.
  - injection H as <-.
    apply paramset_search_Some in H1 as (E & U & Hpre).
    split; [exact E|]. split; [exact U|]. left. exact Hpre.
  - apply paramset_search_Some in H as (E & U & Hpre).
    split; [exact E|]. split; [exact U|]. right.
    split; [apply paramset_search_None, H1 | exact Hpre].
Qed.

(** The identifier 9 is in both tables: the entry of the 2012 table wins. *)
Lemma gost_nid2params_found_witness :
  R3410_ec.nid (toy_params 9 x42) = 9 /\ 9 <> NID_undef
  /\ ((exists pre post,
         toy_paramset_2012 = pre ++ toy_params 9 x42 :: post
         /\ Forall (fun e' => R3410_ec.nid e' <> NID_undef
                              /\ R3410_ec.nid e' <> 9) pre)
      \/ ((forall e', In e' (live_entries toy_paramset_2012) ->
                      R3410_ec.nid e' <> 9)
          /\ exists pre post,
              toy_paramset_2001 = pre ++ toy_params 9 x42 :: post
              /\ Forall (fun e' => R3410_ec.nid e' <> NID_undef
                                   /\ R3410_ec.nid e' <> 9) pre)).
Proof.
  apply (gost_nid2params_found toy_paramset_2012 toy_paramset_2001 9
           (toy_params 9 x42)).
  - reflexivity.
  - reflexivity.
  - reflexivity.
Defined.

(** X2: on tables that hold their terminator, [gost_nid2params] returns
    NULL exactly when no entry before the
    terminator of either table has the identifier asked for; an entry
    behind a terminator is never found, [NID_undef] is never resolved, and
    the identifier of every entry before a terminator is resolved. *)
Theorem gost_nid2params_none t2012 t2001 n :
  terminated t2012 = true -> terminated t2001 = true ->
  (gost_nid2params t2012 t2001 n = None <->
   forall e, In e (live_entries t2012 ++ live_entries t2001) ->
             R3410_ec.nid e <> n)
  /\ gost_nid2params t2012 t2001 NID_undef = None
  /\ (forall e, In e (live_entries t2012 ++ live_entries t2001) ->
                exists e', gost_nid2params t2012 t2001 (R3410_ec.nid e)
                           = Some e').
Proof.
  intros _ _.
  assert (Hiff : forall m,
    gost_nid2params t2012 t2001 m = None <->
    forall e, In e (live_entries t2012 ++ live_entries t2001) ->
              R3410_ec.nid e <> m).
  { intro m. unfold gost_nid2params.
    destruct (paramset_search t2012 m) as [e1|] eqn:H1.
    - split; [discriminate|]. intro H. exfalso.
      apply paramset_search_Some in H1 as (E & U & pre & post & -> & Hpre).
      assert (Hin : In e1 (live_entries (pre ++ e1 :: post))).
      { clear H. induction pre as [|e0 pre IH]; simpl.
        - destruct (Z.eqb_spec (R3410_ec.nid e1) NID_undef) as [Hu|_].
          + exfalso. congruence.
          + left. reflexivity.
        - inversion Hpre as [|? ? (Hu & _) Hpre']; subst.
          destruct (Z.eqb_spec (R3410_ec.nid e0) NID_undef); [contradiction|].
          right. apply IH. exact Hpre'. }
      apply (H e1); [apply in_or_app; left; exact Hin | exact E].
    - rewrite paramset_search_None. rewrite paramset_search_None in H1.
      split.
      + intros H e Hin. apply in_app_or in Hin as [Hin|Hin]; auto.
      + intros H e Hin. apply H, in_or_app. right. exact Hin. }
  split; [apply Hiff|]. split.
  - apply Hiff. intros e Hin.
    apply in_app_or in Hin as [Hin|Hin]; eapply live_entries_nid; eassumption.
  - intros e Hin.
    destruct (gost_nid2params t2012 t2001 (R3410_ec.nid e)) as [e'|] eqn:H;
      [exists e'; reflexivity|].
    exfalso. apply (proj1 (Hiff _) H e Hin). reflexivity.
Qed.

(** The identifier 11 is behind the terminator of the 2012 table. *)
Lemma gost_nid2params_none_witness :
  (gost_nid2params toy_paramset_2012 toy_paramset_2001 11 = None <->
   forall e,
     In e (live_entries toy_paramset_2012 ++ live_entries toy_paramset_2001) ->
     R3410_ec.nid e <> 11)
  /\ gost_nid2params toy_paramset_2012 toy_paramset_2001 NID_undef = None
  /\ (forall e,
        In e (live_entries toy_paramset_2012
              ++ live_entries toy_paramset_2001) ->
        exists e',
          gost_nid2params toy_paramset_2012 toy_paramset_2001
            (R3410_ec.nid e) = Some e').
Proof.
  apply (gost_nid2params_none toy_paramset_2012 toy_paramset_2001 11).
  - reflexivity.
  - reflexivity.
Defined.

(** * More on the digest *)

Lemma byte_val_inj b1 b2 : byte_val b1 = byte_val b2 -> b1 = b2.
Proof.
  unfold byte_val. intro H. apply N2Z.inj in H.
  pose proof (Byte.of_to_N b1) as H1. pose proof (Byte.of_to_N b2) as H2.
  rewrite H in H1. congruence.
Qed.

Lemma le_int_cons b l : le_int (b :: l) = byte_val b + 256 * le_int l.
Proof. reflexivity. Qed.

Lemma le_int_bound l : 0 <= le_int l < 256 ^ Z.of_nat (length l).
Proof.
  induction l as [|b l IH].
  - simpl. lia.
  - rewrite le_int_cons. simpl length. rewrite Nat2Z.inj_succ, Z.pow_succ_r by lia.
    pose proof (byte_val_bound b). lia.
Qed.

Lemma le_int_inj l1 :
  forall l2, length l1 = length l2 -> le_int l1 = le_int l2 -> l1 = l2.
Proof.
  induction l1 as [|b1 l1 IH]; intros [|b2 l2] Hlen H; try discriminate.
  - reflexivity.
  - rewrite !le_int_cons in H.
    pose proof (byte_val_bound b1). pose proof (byte_val_bound b2).
    assert (Hb : byte_val b1 = byte_val b2) by lia.
    assert (Hl : le_int l1 = le_int l2) by lia.
    f_equal; [apply byte_val_inj, Hb | apply IH; [simpl in Hlen; lia | exact Hl]].
Qed.

Lemma le_int_app_zeros l n : le_int (l ++ repeat x00 n) = le_int l.
Proof.
  induction l as [|b l IH].
  - induction n as [|n IHn]; [reflexivity|].
    simpl repeat. simpl app in *. rewrite le_int_cons, IHn. reflexivity.
  - simpl app. rewrite !le_int_cons, IH. reflexivity.
Qed.

(** X3: the number that [hashsum2bn] returns for a digest loses nothing: the
    digest has at most 64 bytes, the number is below [256^len], and another
    digest of the same length that gives the same number is the same
    digest. *)
Theorem hashsum2bn_injective d1 w1 m w1' :
  hashsum2bn d1 w1 = Ret (Some m) w1' ->
  Z.of_nat (length d1) <= 64
  /\ 0 <= m < 256 ^ Z.of_nat (length d1)
  /\ forall d2 w2 w2',
       hashsum2bn d2 w2 = Ret (Some m) w2' ->
       length d2 = length d1 -> d2 = d1.
Proof.
  intro H. split.
  { unfold hashsum2bn in H.
    destruct (Z.gtb_spec (Z.of_nat (length d1)) 64); [discriminate | lia]. }
  apply hashsum2bn_Some_inv in H as (_ & ->).
  split; [apply le_int_bound|].
  intros d2 w2 w2' H2 Hlen.
  apply hashsum2bn_Some_inv in H2 as (_ & H2).
  apply le_int_inj; [exact Hlen | symmetry; exact H2].
Qed.

(** The digest of thirty-two bytes 01. *)
Lemma hashsum2bn_injective_witness :
  Z.of_nat (length toy_digest) <= 64
  /\ 0 <= le_int toy_digest < 256 ^ Z.of_nat (length toy_digest)
  /\ forall d2 w2 w2',
       hashsum2bn d2 w2 = Ret (Some (le_int toy_digest)) w2' ->
       length d2 = length toy_digest -> d2 = toy_digest.
Proof.
  apply (hashsum2bn_injective toy_digest (toy_world [] []) (le_int toy_digest)
           (toy_world [] [])).
  vm_compute. reflexivity.
Defined.

Lemma hashsum2bn_same_value d1 d2 :
  Z.of_nat (length d1) <= 64 -> Z.of_nat (length d2) <= 64 ->
  le_int d1 = le_int d2 -> hashsum2bn d1 = hashsum2bn d2.
Proof.
  intros H1 H2 E. unfold hashsum2bn.
  destruct (Z.gtb_spec (Z.of_nat (length d1)) 64); [lia|].
  destruct (Z.gtb_spec (Z.of_nat (length d2)) 64); [lia|].
  rewrite !getbnfrombuf_rev, E. reflexivity.
Qed.

(** X4: a digest of 32 bytes and the digest of 64 bytes that extends it with
    32 zero bytes are the same number, and [gost_ec_sign] and
    [gost_ec_verify] do on the one what they do on the other, in every
    world. *)
Theorem digest_zero_extension d sig w :
  length d = 32%nat ->
  gost_ec_sign (d ++ repeat x00 32) w = gost_ec_sign d w
  /\ gost_ec_verify (d ++ repeat x00 32) sig w = gost_ec_verify d sig w.
Proof.
  intro Hl.
  assert (Hl' : length (d ++ repeat x00 32) = 64%nat)
    by (rewrite length_app, repeat_length, Hl; reflexivity).
  assert (Hh : hashsum2bn (d ++ repeat x00 32) = hashsum2bn d).
  { apply hashsum2bn_same_value; [lia | lia | apply le_int_app_zeros]. }
  unfold gost_ec_sign, gost_ec_verify, gost_ec_verify_e.
  rewrite Hh, Hl, Hl'. split; reflexivity.
Qed.

Lemma digest_zero_extension_witness :
  gost_ec_sign (toy_digest ++ repeat x00 32) (toy_world [7; 1] [])
  = gost_ec_sign toy_digest (toy_world [7; 1] [])
  /\ gost_ec_verify (toy_digest ++ repeat x00 32) (mkSig 5 15) (toy_world [7; 1] [])
     = gost_ec_verify toy_digest (mkSig 5 15) (toy_world [7; 1] []).
Proof.
  apply (digest_zero_extension toy_digest (mkSig 5 15) (toy_world [7; 1] [])).
  reflexivity.
Defined.

(** X5: [gost_ec_verify] looks at the digest only through the reduced
    digest [e]: in a run without library failures, two digests of 32 or 64
    bytes with the same [e] get the same result for every signature.  So a
    digest whose number is a multiple of [q] and a digest whose number is 1
    modulo [q] are interchangeable. *)
Theorem verify_reduced_digest_only d1 d2 sig w grp Q :
  faults w = [] ->
  group (key w) = Some grp -> pub_key (key w) = Some Q ->
  0 < order grp ->
  (length d1 = 32 \/ length d1 = 64)%nat ->
  (length d2 = 32 \/ length d2 = 64)%nat ->
  reduced_digest d1 (order grp) = reduced_digest d2 (order grp) ->
  gost_ec_verify d1 sig w = gost_ec_verify d2 sig w.
Proof.
  intros Hf Hg Hp Hq H1 H2 He.
  rewrite !(gost_ec_verify_calm _ sig w grp Q Hf Hg Hp).
  f_equal. unfold verify_calm. cbv zeta.
  rewrite !reduced_digest_rem, He by exact Hq.
  replace ((Z.of_nat (length d1) =? 32) || (Z.of_nat (length d1) =? 64))
    with true by (destruct H1 as [-> | ->]; reflexivity).
  replace ((Z.of_nat (length d2) =? 32) || (Z.of_nat (length d2) =? 64))
    with true by (destruct H2 as [-> | ->]; reflexivity).
  reflexivity.
Qed.

(** The digests of value 19 and 1 on the small curve, whose order is 19. *)
Lemma verify_reduced_digest_only_witness :
  gost_ec_verify toy_digest_19 (mkSig 5 15) (toy_world [] [])
  = gost_ec_verify toy_digest_1 (mkSig 5 15) (toy_world [] []).
Proof.
  apply (verify_reduced_digest_only toy_digest_19 toy_digest_1 (mkSig 5 15)
           (toy_world [] []) toy_group (Affine 9 16)).
  - reflexivity.
  - reflexivity.
  - reflexivity.
  - reflexivity.
  - left. reflexivity.
  - left. reflexivity.
  - vm_compute. reflexivity.
Defined.

(** * More on verification *)

(** X6: [gost_ec_verify] does not refuse a negative [s]: the range check of
    lines 341-342 lets it through, and the modular product reduces it.  In a
    run without library failures, for [s] in [[1, q-1]], the signature
    [(r, s - k·q)] gets the result of the signature [(r, s)]. *)
Theorem verify_s_modulo_q dgst r s k w grp Q :
  faults w = [] ->
  group (key w) = Some grp -> pub_key (key w) = Some Q ->
  1 <= s < order grp -> 0 <= k ->
  gost_ec_verify dgst (mkSig r (s - k * order grp)) w
  = gost_ec_verify dgst (mkSig r s) w.
Proof.
  intros Hf Hg Hp Hs Hk.
  rewrite !(gost_ec_verify_calm dgst _ w grp Q Hf Hg Hp).
  f_equal. unfold verify_calm. cbv zeta. simpl sig_r. simpl sig_s.
  set (q := order grp) in *.
  rewrite !range_check_spec.
  destruct (Z.eqb_spec q 0) as [|_]; [lia|].
  assert (Hc : (0 <? Z.abs (s - k * q)) && (s - k * q <=? q)
               = (0 <? Z.abs s) && (s <=? q)).
  { assert (Hkq : k * q = 0 \/ q <= k * q).
    { destruct (Z.eq_dec k 0) as [->|Hk0]; [left; reflexivity|]. right.
      pose proof (Z.mul_nonneg_nonneg (k - 1) q ltac:(lia) ltac:(lia)). lia. }
    destruct (Z.ltb_spec 0 (Z.abs (s - k * q))), (Z.leb_spec (s - k * q) q),
      (Z.ltb_spec 0 (Z.abs s)), (Z.leb_spec s q); try reflexivity; lia. }
  rewrite <- !andb_assoc. rewrite Hc.
  destruct (negb _); [reflexivity|].
  destruct (negb _); [reflexivity|].
  destruct (bn_mod_inverse _ q) as [v|]; [|reflexivity].
  assert (Hm : bn_mod_mul (s - k * q) v q = bn_mod_mul s v q).
  { unfold bn_mod_mul. rewrite !bn_nnmod_pos by lia. f_equal.
    replace ((s - k * q) * v) with (s * v + (- k * v) * q) by ring.
    apply Z.mod_add. lia. }
  rewrite Hm. reflexivity.
Qed.

(** On the small curve: [(5, 15 - 19)] is accepted as [(5, 15)] is. *)
Lemma verify_s_modulo_q_witness :
  gost_ec_verify toy_digest (mkSig 5 (15 - 1 * order toy_group)) (toy_world [] [])
  = gost_ec_verify toy_digest (mkSig 5 15) (toy_world [] []).
Proof.
  apply (verify_s_modulo_q toy_digest 5 15 1 (toy_world [] []) toy_group
           (Affine 9 16)).
  - reflexivity.
  - reflexivity.
  - reflexivity.
  - simpl. lia.
  - lia.
Defined.

(** The nonce of an accepted signature. *)
Lemma accepted_scalar q d e r s kb v :
  0 < q -> (v * e) mod q = 1 -> 0 <= s < q ->
  kb mod q = (((s * v) mod q) + ((q - r) * v) mod q * d) mod q ->
  (d * r + kb * e) mod q = s.
Proof.
  intros Hq Hv Hs Hk.
  pose proof (Z.div_mod (s * v) q ltac:(lia)) as H2.
  pose proof (Z.div_mod ((q - r) * v) q ltac:(lia)) as H3.
  pose proof (Z.div_mod (v * e) q ltac:(lia)) as H4.
  pose proof (Z.div_mod kb q ltac:(lia)) as H5.
  rewrite Hv in H4. rewrite Hk in H5.
  set (z1 := (s * v) mod q) in *. set (z2 := ((q - r) * v) mod q) in *.
  pose proof (Z.div_mod (z1 + z2 * d) q ltac:(lia)) as H6.
  set (t2 := (s * v) / q) in *. set (t3 := ((q - r) * v) / q) in *.
  set (t4 := (v * e) / q) in *. set (t5 := kb / q) in *.
  set (t6 := (z1 + z2 * d) / q) in *.
  set (m := (z1 + z2 * d) mod q) in *.
  assert (Hz1 : z1 = s * v - q * t2) by lia.
  assert (Hz2 : z2 = (q - r) * v - q * t3) by lia.
  assert (Hkb : kb = z1 + z2 * d + q * (t5 - t6)) by lia.
  assert (Hsev : s * (v * e) = s * (q * t4 + 1)) by (rewrite H4; reflexivity).
  assert (Hrev : r * d * (v * e) = r * d * (q * t4 + 1))
    by (rewrite H4; reflexivity).
  transitivity (s mod q); [|apply Z.mod_small, Hs].
  replace (d * r + kb * e)
    with (s + (s * t4 - r * d * t4 - t2 * e + v * d * e - t3 * d * e
               + (t5 - t6) * e) * q).
  - apply Z.mod_add. lia.
  - rewrite Hkb, Hz1, Hz2.
    transitivity (s * (q * t4 + 1) - r * d * (q * t4 + 1) + d * r
                  + (- t2 * e + v * d * e - t3 * d * e + (t5 - t6) * e) * q);
      [ring|].
    rewrite <- Hsev, <- Hrev. ring.
Qed.

(** X7: every signature in range that [gost_ec_verify] accepts is one that
    [gost_ec_sign] produces: for a key with [Q = d·G] in a group that obeys
    the group laws, if verification returns 1 then there is a draw [z] of
    the random source with which signing the same digest returns exactly
    this signature. *)
Theorem verify_accepts_only_signatures grp dgst d sig w w' :
  ec_group_ok grp ->
  (length dgst = 32 \/ length dgst = 64)%nat ->
  1 <= d < order grp ->
  key w = mkKey (Some grp) (Some d) (Some (ec_smul grp d (generator grp))) ->
  faults w = [] ->
  1 <= sig_r sig < order grp ->
  1 <= sig_s sig < order grp ->
  gost_ec_verify dgst sig w = Ret 1 w' ->
  exists z,
    0 <= z < order grp
    /\ gost_ec_sign dgst (set_rand w [z]) = Ret (Some sig) (set_rand w []).
Proof.
  intros Hok Hl Hd Hkey Hf Hr Hs Hv.
  pose proof (order_ge_2 grp Hok) as Hq.
  pose proof (ok_generator _ Hok) as HG.
  assert (HQ : on_curve grp (ec_smul grp d (generator grp)) = true)
    by (apply on_curve_smul; [exact Hok | lia | exact HG]).
  assert (Hg : group (key w) = Some grp) by (rewrite Hkey; reflexivity).
  assert (Hp : pub_key (key w) = Some (ec_smul grp d (generator grp)))
    by (rewrite Hkey; reflexivity).
  assert (Hpriv : priv_key (key w) = Some d) by (rewrite Hkey; reflexivity).
  rewrite (gost_ec_verify_calm dgst sig w grp _ Hf Hg Hp) in Hv.
  destruct (verify_calm_in_range grp _ dgst sig Hok HQ Hl Hr Hs) as (Hve & Hres).
  cbv zeta in Hve, Hres.
  set (q := order grp) in *. set (e := reduced_digest dgst q) in *.
  set (v := Z.invmod e q) in *.
  set (z1 := (sig_s sig * v) mod q) in *.
  set (z2 := ((q - sig_r sig) * v) mod q) in *.
  assert (Hz1 : 0 <= z1) by (apply Z.mod_pos_bound; lia).
  assert (Hz2 : 0 <= z2) by (apply Z.mod_pos_bound; lia).
  rewrite (ec_mul_combined grp Hok z1 z2 d Hz1 Hz2 ltac:(lia)) in Hres.
  set (z := (z1 + z2 * d) mod q).
  assert (Hz : 0 <= z < q) by (apply Z.mod_pos_bound; lia).
  rewrite (ec_smul_mod_order grp Hok (z1 + z2 * d) ltac:(nia)) in Hres.
  fold q z in Hres.
  destruct (ec_smul grp z (generator grp)) as [|x y] eqn:HC.
  { rewrite Hres in Hv. discriminate Hv. }
  destruct (Z.eqb_spec (x mod q) (sig_r sig)) as [Hx|Hx];
    [|rewrite Hres in Hv; discriminate Hv].
  exists z. split; [exact Hz|].
  destruct sig as [r s]. simpl sig_r in *. simpl sig_s in *.
  apply (gost_ec_sign_calm dgst (set_rand w [z]) grp d [] z [] r s);
    try assumption; try (simpl; lia).
  - reflexivity.
  - constructor.
  - unfold sig_of_nonce. fold q e. rewrite ec_mul_generator.
    rewrite (Z.mod_small z q Hz).
    pose proof (ec_smul_blinded grp Hok z Hz) as Hb. fold q in Hb.
    rewrite Hb, HC. simpl affine_x. cbv iota zeta.
    rewrite Hx. f_equal. f_equal.
    apply (accepted_scalar q d e r s (blinded z q) v);
      [lia | exact Hve | lia |].
    rewrite (blinded_mod z q Hz). reflexivity.
Qed.

(** On the small curve: the accepted signature (5, 15) comes from the
    draw 1. *)
Lemma verify_accepts_only_signatures_witness :
  exists z,
    0 <= z < order toy_group
    /\ gost_ec_sign toy_digest (set_rand (toy_world [] []) [z])
       = Ret (Some (mkSig 5 15)) (set_rand (toy_world [] []) []).
Proof.
  apply (verify_accepts_only_signatures toy_group toy_digest 5 (mkSig 5 15)
           (toy_world [] []) (toy_world [] [])).
  - exact toy_group_ok.
  - left. reflexivity.
  - simpl. lia.
  - reflexivity.
  - reflexivity.
  - simpl. lia.
  - simpl. lia.
  - vm_compute. reflexivity.
Defined.

(** * What the functions report *)

Lemma silent_ret {A} (a : A) : silent (ret a).
Proof. intros w b w' H. injection H as _ <-. reflexivity. Qed.

Lemma silent_bind {A B} (c : M A) (k : A -> M B) :
  silent c -> (forall x, silent (k x)) -> silent (bind c k).
Proof.
  intros Hc Hk w b w' H. apply bind_Ret_inv in H as (x & w1 & H1 & H2).
  rewrite (Hk x _ _ _ H2). exact (Hc _ _ _ H1).
Qed.

Lemma silent_lib {A} (v : option A) : silent (lib v).
Proof. intros w a w' H. apply lib_inv in H as ((_ & _ & E) & _). exact E. Qed.

Lemma silent_assert c : silent (OPENSSL_assert c).
Proof.
  intros w a w' H. apply OPENSSL_assert_inv in H as (_ & ->). reflexivity.
Qed.

Lemma silent_die {A} : silent (@OPENSSL_die A).
Proof. intros w a w' H. discriminate H. Qed.

Lemma silent_get0_group : silent EC_KEY_get0_group.
Proof. intros w a w' H. injection H as _ <-. reflexivity. Qed.

Lemma silent_get0_private_key : silent EC_KEY_get0_private_key.
Proof. intros w a w' H. injection H as _ <-. reflexivity. Qed.

Lemma silent_get0_public_key : silent EC_KEY_get0_public_key.
Proof. intros w a w' H. injection H as _ <-. reflexivity. Qed.

Lemma silent_loop_bound : silent loop_bound.
Proof. intros w a w' H. injection H as _ <-. reflexivity. Qed.

Lemma silent_rand_range q : silent (BN_rand_range q).
Proof.
  intros w a w'. unfold BN_rand_range. destruct (q <=? 0).
  - intro H. injection H as _ <-. reflexivity.
  - destruct w as [k rd f eq]; simpl. destruct rd as [|z t]; intro H;
      injection H as _ <-; reflexivity.
Qed.

Lemma silent_get_once v : silent (BN_CTX_get_once v).
Proof. destruct v; [apply silent_ret | apply silent_lib]. Qed.

Lemma silent_set_private_key d : silent (EC_KEY_set_private_key d).
Proof.
  intros w a w'. unfold EC_KEY_set_private_key.
  destruct w as [k rd f eq]; simpl.
  destruct f as [|[] f]; intro H; injection H as _ <-; reflexivity.
Qed.

Lemma silent_set_public_key P : silent (EC_KEY_set_public_key P).
Proof.
  intros w a w'. unfold EC_KEY_set_public_key.
  destruct w as [k rd f eq]; simpl.
  destruct f as [|[] f]; intro H; injection H as _ <-; reflexivity.
Qed.

Ltac silent_tac :=
  expose_lib;
  repeat (match goal with
          | |- silent (ret _) => apply silent_ret
          | |- silent (lib _) => apply silent_lib
          | |- silent (OPENSSL_assert _) => apply silent_assert
          | |- silent OPENSSL_die => apply silent_die
          | |- silent EC_KEY_get0_group => apply silent_get0_group
          | |- silent EC_KEY_get0_private_key => apply silent_get0_private_key
          | |- silent EC_KEY_get0_public_key => apply silent_get0_public_key
          | |- silent loop_bound => apply silent_loop_bound
          | |- silent (BN_rand_range _) => apply silent_rand_range
          | |- silent (BN_CTX_get_once _) => apply silent_get_once
          | |- silent (EC_KEY_set_private_key _) => apply silent_set_private_key
          | |- silent (EC_KEY_set_public_key _) => apply silent_set_public_key
          | |- silent (bind _ _) => apply silent_bind; [ | intro ]
          | |- silent (match ?x with _ => _ end) => destruct x
          end; cbv beta).

Lemma silent_hashsum2bn dgst : silent (hashsum2bn dgst).
Proof. unfold hashsum2bn. silent_tac. Qed.

Section Reports.
Context {A : Type}.
Variable tag : gost_func -> Prop.
Variable lax : bool.
Variables ok failed : A -> Prop.

Lemma reports_ret_ok a : ok a -> reports tag lax ok failed (ret a).
Proof.
  intros Ha w b w' H. injection H as <- <-. left. split; [exact Ha | reflexivity].
Qed.

Lemma reports_err f r a :
  tag f -> failed a ->
  reports tag lax ok failed (bind (GOSTerr f r) (fun _ => ret a)).
Proof.
  intros Hf Ha w b w' H. injection H as <- <-. right. split; [exact Ha|].
  right. exists f, r. split; [exact Hf | reflexivity].
Qed.

Lemma reports_bind_silent {B} (c : M B) (k : B -> M A) :
  silent c -> (forall x, reports tag lax ok failed (k x)) ->
  reports tag lax ok failed (bind c k).
Proof.
  intros Hc Hk w b w' H. apply bind_Ret_inv in H as (x & w1 & H1 & H2).
  rewrite <- (Hc _ _ _ H1). exact (Hk x _ _ _ H2).
Qed.

(** A block that reports for itself, followed by [orelse ret a0]. *)
Lemma reports_bind_sub {B} laxc (c : M (option B)) (k : option B -> M A) a0 :
  reports tag laxc non_null is_null c ->
  (laxc = true -> lax = true) ->
  (forall x, reports tag lax ok failed (k (Some x))) ->
  k None = ret a0 -> failed a0 ->
  reports tag lax ok failed (bind c k).
Proof.
  intros Hc Hlax Hk Hn Ha w b w' H.
  apply bind_Ret_inv in H as (x & w1 & H1 & H2).
  destruct (Hc _ _ _ H1) as [(Hx & E) | (Hx & Hq)].
  - destruct x as [x|]; [|exfalso; apply Hx; reflexivity].
    rewrite <- E. exact (Hk x _ _ _ H2).
  - unfold is_null in Hx. subst x. rewrite Hn in H2.
    injection H2 as <- <-. right. split; [exact Ha|].
    destruct Hq as [(Hl & E) | Hq]; [left; split; [auto | exact E] | right; exact Hq].
Qed.
End Reports.

Lemma reports_ret_lax {A} tag (ok failed : A -> Prop) a :
  failed a -> reports tag true ok failed (ret a).
Proof.
  intros Ha w b w' H. injection H as <- <-. right. split; [exact Ha|].
  left. split; reflexivity.
Qed.

Lemma reports_lib_lax {A} tag (v : option A) :
  reports tag true non_null is_null (lib v).
Proof.
  intros w a w' H. pose proof (silent_lib v _ _ _ H) as E.
  destruct a as [a|].
  - left. split; [discriminate | exact E].
  - right. split; [reflexivity | left; split; [reflexivity | exact E]].
Qed.

Lemma reports_raise {A} (tag : gost_func -> Prop) lax f r :
  tag f -> reports tag lax (@non_null A) is_null (raise f r).
Proof. intro Hf. apply reports_err; [exact Hf | reflexivity]. Qed.

Lemma reports_fail0 (tag : gost_func -> Prop) lax f r :
  tag f -> reports tag lax (fun v => v = 1) (fun v => v = 0) (fail0 f r).
Proof. intro Hf. apply reports_err; [exact Hf | reflexivity]. Qed.

Lemma reports_tag {A} (tag tag' : gost_func -> Prop) lax (ok failed : A -> Prop) m :
  (forall f, tag f -> tag' f) ->
  reports tag lax ok failed m -> reports tag' lax ok failed m.
Proof.
  intros Ht Hm w a w' H.
  destruct (Hm _ _ _ H) as [Hok | (Hf & [Hl | (f & r & Hf' & E)])].
  - left. exact Hok.
  - right. split; [exact Hf | left; exact Hl].
  - right. split; [exact Hf|]. right. exists f, r. split; [apply Ht, Hf' | exact E].
Qed.

Ltac side := solve [ hnf; first [ reflexivity | discriminate | congruence ] ].

(** One step through a function body; [sub] settles the blocks that report
    for themselves. *)
Ltac reports_step sub :=
  match goal with
  | |- reports _ _ _ _ (raise _ _) => apply reports_raise; side
  | |- reports _ _ _ _ (fail0 _ _) => apply reports_fail0; side
  | |- reports _ _ _ _ (ret _) =>
      first [ apply reports_ret_ok; side | apply reports_ret_lax; side ]
  | |- reports _ _ _ _ (bind (GOSTerr _ _) _) => apply reports_err; side
  | |- reports _ _ _ _ (bind _ _) =>
      first [ apply reports_bind_silent;
              [ solve [silent_tac | apply silent_hashsum2bn] | intro ]
            | eapply reports_bind_sub;
              [ sub | try reflexivity; try discriminate | intro
              | reflexivity | side ] ]
  | |- reports _ _ _ _ (match ?x with _ => _ end) => destruct x
  end; cbv beta.

Lemma reports_sign_e md q :
  reports (eq GOST_F_GOST_EC_SIGN) false non_null is_null (gost_ec_sign_e md q).
Proof.
  unfold gost_ec_sign_e, and_then. expose_lib. repeat reports_step fail.
Qed.

Lemma reports_verify_e dgst q :
  reports (eq GOST_F_GOST_EC_VERIFY) false non_null is_null
    (gost_ec_verify_e dgst q).
Proof.
  unfold gost_ec_verify_e, hashsum2bn. expose_lib. repeat reports_step fail.
Qed.

Lemma reports_sign_nonce q :
  reports (eq GOST_F_GOST_EC_SIGN) true non_null is_null (gost_ec_sign_nonce q).
Proof.
  unfold gost_ec_sign_nonce. expose_lib. repeat reports_step fail.
  apply reports_lib_lax.
Qed.

Lemma reports_sign_loop fuel grp q d e X r tmp tmp2 s :
  reports (eq GOST_F_GOST_EC_SIGN) true non_null is_null
    (gost_ec_sign_loop fuel grp q d e X r tmp tmp2 s).
Proof.
  revert X r tmp tmp2 s. induction fuel as [|fuel IH]; intros X r tmp tmp2 s.
  - intros w a w' H. discriminate H.
  - cbn [gost_ec_sign_loop]. expose_lib.
    repeat reports_step ltac:(first [apply reports_sign_nonce | apply IH]);
      apply IH.
Qed.

Lemma reports_compute_public :
  reports (eq GOST_F_GOST_EC_COMPUTE_PUBLIC) false
    (fun v => v = 1) (fun v => v = 0) gost_ec_compute_public.
Proof. unfold gost_ec_compute_public. expose_lib. repeat reports_step fail. Qed.

Lemma reports_keygen_loop fuel q :
  reports (eq GOST_F_GOST_EC_KEYGEN) false non_null is_null
    (gost_ec_keygen_loop fuel q).
Proof.
  induction fuel as [|fuel IH].
  - intros w a w' H. discriminate H.
  - cbn [gost_ec_keygen_loop]. repeat reports_step fail. apply IH.
Qed.

Lemma reports_keygen_store grp :
  reports (eq GOST_F_GOST_EC_KEYGEN) false
    (fun ok => ok = true) (fun ok => ok = false) (gost_ec_keygen_store grp).
Proof.
  unfold gost_ec_keygen_store. expose_lib.
  repeat reports_step ltac:(apply reports_keygen_loop).
Qed.

(** X8: whatever the library failures, a call of [gost_ec_verify] that
    returns gives 1 or 0; with 1 the error queue is as it was, and with 0
    exactly one error has been queued, under the name of [gost_ec_verify]. *)
Theorem verify_error_accounting dgst sig w v w' :
  gost_ec_verify dgst sig w = Ret v w' ->
  (v = 1 /\ errq w' = errq w)
  \/ (v = 0 /\ exists r, errq w' = (GOST_F_GOST_EC_VERIFY, r) :: errq w).
Proof.
  intro H.
  assert (R : reports (eq GOST_F_GOST_EC_VERIFY) false
                (fun v => v = 1) (fun v => v = 0) (gost_ec_verify dgst sig)).
  { unfold gost_ec_verify. expose_lib.
    repeat reports_step ltac:(apply reports_verify_e).
    intros w0 a w0' H0. discriminate H0. }
  destruct (R _ _ _ H) as [Hok | (Hv & [(Hl & _) | (f & r & <- & E)])].
  - left. exact Hok.
  - discriminate Hl.
  - right. split; [exact Hv | exists r; exact E].
Qed.

(** On the small curve: a signature whose parts are zero is refused with one
    error. *)
Lemma verify_error_accounting_witness :
  gost_ec_verify toy_digest (mkSig 0 0) (toy_world [] [])
  = Ret 0 (push_err (toy_world [] [])
             (GOST_F_GOST_EC_VERIFY, GOST_R_SIGNATURE_PARTS_GREATER_THAN_Q))
  /\ ((0 = 1
       /\ errq (push_err (toy_world [] [])
                  (GOST_F_GOST_EC_VERIFY,
                   GOST_R_SIGNATURE_PARTS_GREATER_THAN_Q))
          = errq (toy_world [] []))
      \/ (0 = 0
          /\ exists r,
              errq (push_err (toy_world [] [])
                      (GOST_F_GOST_EC_VERIFY,
                       GOST_R_SIGNATURE_PARTS_GREATER_THAN_Q))
              = (GOST_F_GOST_EC_VERIFY, r) :: errq (toy_world [] []))).
Proof.
  split; [vm_compute; reflexivity|].
  apply (verify_error_accounting toy_digest (mkSig 0 0)).
  vm_compute. reflexivity.
Defined.

(** X9: whatever the library failures, a call of [gost_ec_sign] that returns
    a signature leaves the error queue as it was, and one that returns NULL
    has queued at most one error, under the name of [gost_ec_sign]. *)
Theorem sign_error_accounting dgst w res w' :
  gost_ec_sign dgst w = Ret res w' ->
  ((exists sig, res = Some sig) /\ errq w' = errq w)
  \/ (res = None
      /\ (errq w' = errq w
          \/ exists r, errq w' = (GOST_F_GOST_EC_SIGN, r) :: errq w)).
Proof.
  intro H.
  assert (R : reports (eq GOST_F_GOST_EC_SIGN) true non_null is_null
                (gost_ec_sign dgst)).
  { unfold gost_ec_sign, and_then. expose_lib.
    repeat reports_step
      ltac:(first [apply reports_sign_e | apply reports_sign_loop]). }
  destruct (R _ _ _ H) as [(Hok & E) | (Hn & [(_ & E) | (f & r & <- & E)])].
  - left. split; [|exact E].
    destruct res as [sig|]; [exists sig; reflexivity | contradiction Hok; reflexivity].
  - right. split; [exact Hn | left; exact E].
  - right. split; [exact Hn | right; exists r; exact E].
Qed.

(** On the small curve: with an empty tape the draw fails and one error is
    queued. *)
Lemma sign_error_accounting_witness :
  gost_ec_sign toy_digest (toy_world [] [])
  = Ret None (push_err (toy_world [] [])
                (GOST_F_GOST_EC_SIGN, GOST_R_RNG_ERROR))
  /\ (((exists sig, @None DSA_SIG = Some sig)
       /\ errq (push_err (toy_world [] [])
                  (GOST_F_GOST_EC_SIGN, GOST_R_RNG_ERROR))
          = errq (toy_world [] []))
      \/ (@None DSA_SIG = None
          /\ (errq (push_err (toy_world [] [])
                      (GOST_F_GOST_EC_SIGN, GOST_R_RNG_ERROR))
              = errq (toy_world [] [])
              \/ exists r,
                  errq (push_err (toy_world [] [])
                          (GOST_F_GOST_EC_SIGN, GOST_R_RNG_ERROR))
                  = (GOST_F_GOST_EC_SIGN, r) :: errq (toy_world [] [])))).
Proof.
  split; [vm_compute; reflexivity|].
  apply (sign_error_accounting toy_digest).
  vm_compute. reflexivity.
Defined.

(** X10: whatever the library failures, a call of [gost_ec_keygen] that
    returns gives 1 or 0; with 1 the error queue is as it was, and with 0
    exactly one error has been queued, under the name of [gost_ec_keygen] or
    of [gost_ec_compute_public]. *)
Theorem keygen_error_accounting w v w' :
  gost_ec_keygen w = Ret v w' ->
  (v = 1 /\ errq w' = errq w)
  \/ (v = 0
      /\ exists f r,
          (f = GOST_F_GOST_EC_KEYGEN \/ f = GOST_F_GOST_EC_COMPUTE_PUBLIC)
          /\ errq w' = (f, r) :: errq w).
Proof.
  unfold gost_ec_keygen. rewrite step_get0_group.
  destruct (group (key w)) as [grp|].
  - intro H. apply bind_Ret_inv in H as (ok & w1 & H1 & H2).
    destruct (reports_keygen_store grp _ _ _ H1)
      as [(-> & E1) | (-> & [(Hl & _) | (f & r & <- & E1)])].
    + destruct (reports_compute_public _ _ _ H2)
        as [(-> & E2) | (-> & [(Hl & _) | (f & r & <- & E2)])].
      * left. split; [reflexivity | congruence].
      * discriminate Hl.
      * right. split; [reflexivity|].
        exists GOST_F_GOST_EC_COMPUTE_PUBLIC, r. split; [right; reflexivity|].
        congruence.
    + discriminate Hl.
    + injection H2 as <- <-. right. split; [reflexivity|].
      exists GOST_F_GOST_EC_KEYGEN, r. split; [left; reflexivity | exact E1].
  - intro H. injection H as <- <-. right. split; [reflexivity|].
    exists GOST_F_GOST_EC_KEYGEN, ERR_R_INTERNAL_ERROR.
    split; [left; reflexivity | reflexivity].
Qed.

(** On the small curve: the run in which the allocation of the point
    fails. *)
Lemma keygen_error_accounting_witness :
  gost_ec_keygen
    (toy_world [0; 19; 7] [false; false; false; false; false; true])
  = Ret 0 toy_world_failed
  /\ ((0 = 1
       /\ errq toy_world_failed
          = errq (toy_world [0; 19; 7]
                    [false; false; false; false; false; true]))
      \/ (0 = 0
          /\ exists f r,
              (f = GOST_F_GOST_EC_KEYGEN
               \/ f = GOST_F_GOST_EC_COMPUTE_PUBLIC)
              /\ errq toy_world_failed
                 = (f, r)
                   :: errq (toy_world [0; 19; 7]
                              [false; false; false; false; false; true]))).
Proof.
  split; [vm_compute; reflexivity|].
  apply keygen_error_accounting.
  vm_compute. reflexivity.
Defined.

(** * Runs with a plan of failures *)

Lemma step_lib_ok {A B} (v : option A) (k : option A -> M B) w f :
  faults w = false :: f -> bind (lib v) k w = k v (set_faults w f).
Proof. intro Hf. unfold bind, lib. rewrite Hf. reflexivity. Qed.

Lemma step_lib_fault {A B} (v : option A) (k : option A -> M B) w f :
  faults w = true :: f -> bind (lib v) k w = k None (set_faults w f).
Proof. intro Hf. unfold bind, lib. rewrite Hf. reflexivity. Qed.

Lemma step_rand_range {B} q (k : option Z -> M B) w z t :
  0 < q -> rand w = z :: t ->
  bind (BN_rand_range q) k w = k (Some (z mod q)) (set_rand w t).
Proof.
  intros Hq Hr. unfold bind, BN_rand_range.
  destruct (Z.leb_spec q 0) as [|_]; [lia|]. rewrite Hr. reflexivity.
Qed.

Lemma step_rand_range_empty {B} q (k : option Z -> M B) w :
  rand w = [] -> bind (BN_rand_range q) k w = k None w.
Proof.
  intro Hr. unfold bind, BN_rand_range. rewrite Hr.
  destruct (q <=? 0); reflexivity.
Qed.

(** One step of a run whose plan of failures is written out. *)
Ltac plan_step :=
  first
    [ erewrite step_lib_ok by reflexivity
    | erewrite step_lib_fault by reflexivity
    | rewrite step_ret
    | rewrite step_GOSTerr
    | rewrite step_get0_group
    | rewrite step_get0_private_key
    | rewrite step_get0_public_key
    | rewrite step_assert
    | rewrite step_loop_bound
    | rewrite bind_bind ];
  cbv beta iota;
  cbn [key group priv_key pub_key rand faults errq set_faults set_rand
       set_key push_err];
  cbv beta iota.

(** X11: [gost_ec_sign] can return NULL without an error in the queue.  The
    addition [BN_add(k, k, order)] is the tenth library call of a run; when
    the nine calls before it succeed and this one fails, the call returns
    NULL, the draw is consumed, and the error queue and the key are as they
    were. *)
Theorem sign_fails_without_error dgst w grp d z t f :
  (length dgst = 32 \/ length dgst = 64)%nat ->
  group (key w) = Some grp -> priv_key (key w) = Some d ->
  0 < order grp ->
  rand w = z :: t ->
  faults w = repeat false 9 ++ true :: f ->
  exists w',
    gost_ec_sign dgst w = Ret None w'
    /\ errq w' = errq w /\ key w' = key w /\ rand w' = t /\ faults w' = f.
Proof.
  intros Hl Hg Hd Hq Hr Hf.
  destruct w as [[g p P] rd fl eq]. simpl in Hg, Hd, Hr, Hf. subst g p rd fl.
  eexists. split.
  - unfold gost_ec_sign, hashsum2bn, gost_ec_sign_e, and_then. expose_lib.
    replace ((Z.of_nat (length dgst) =? 32) || (Z.of_nat (length dgst) =? 64))
      with true by (destruct Hl as [-> | ->]; reflexivity).
    replace (Z.of_nat (length dgst) >? 64) with false
      by (destruct Hl as [-> | ->]; reflexivity).
    cbv beta iota zeta.
    repeat plan_step.
    destruct (Z.eqb_spec (order grp) 0) as [|_]; [lia|]. cbv beta iota.
    repeat plan_step.
    unfold bn_mod. destruct (Z.eqb_spec (order grp) 0) as [|_]; [lia|].
    cbv beta iota.
    repeat plan_step. cbn [rand length gost_ec_sign_loop].
    unfold gost_ec_sign_nonce. expose_lib.
    repeat plan_step.
    erewrite step_rand_range by (try exact Hq; reflexivity).
    cbv beta iota. do 2 plan_step. reflexivity.
  - repeat split.
Qed.

(** On the small curve: the tenth library call of the run fails. *)
Lemma sign_fails_without_error_witness :
  exists w',
    gost_ec_sign toy_digest (toy_world [3] (repeat false 9 ++ [true]))
    = Ret None w'
    /\ errq w' = errq (toy_world [3] (repeat false 9 ++ [true]))
    /\ key w' = key (toy_world [3] (repeat false 9 ++ [true]))
    /\ rand w' = [] /\ faults w' = [].
Proof.
  apply (sign_fails_without_error toy_digest _ toy_group 5 3 [] []).
  - left. reflexivity.
  - reflexivity.
  - reflexivity.
  - reflexivity.
  - reflexivity.
  - reflexivity.
Defined.

(** * The endings of a run of [gost_ec_sign] without library failures *)

Lemma set_rand_same w : set_rand w (rand w) = w.
Proof. destruct w; reflexivity. Qed.

(** The draws that give [r = 0] or [s = 0] are consumed one per pass. *)
Lemma gost_ec_sign_loop_calm_pre grp q d e pre :
  forall fuel w rest,
  faults w = [] -> 0 < q ->
  rand w = pre ++ rest ->
  Forall (retried grp q d e) pre ->
  gost_ec_sign_loop (length pre + fuel) grp q d e None None None None None w
  = gost_ec_sign_loop fuel grp q d e None None None None None
      (set_rand w rest).
Proof.
  induction pre as [|z' pre IH]; intros fuel w rest Hf Hq Hr Hpre.
  - simpl in Hr. rewrite <- Hr, set_rand_same. reflexivity.
  - simpl in Hr. inversion Hpre as [|? ? Hz' Hpre']; subst.
    cbn [length Nat.add].
    rewrite (gost_ec_sign_loop_calm_step _ grp q d e _ _ _ _ _ w z'
               (pre ++ rest) Hf Hq Hr).
    cbv zeta. destruct Hz' as (r' & s' & Hz' & Hzero).
    unfold sig_of_nonce in Hz'.
    destruct (affine_x _) as [x|]; [|discriminate].
    injection Hz' as <- <-.
    assert (Hgo : gost_ec_sign_loop (length pre + fuel) grp q d e
                    None None None None None (set_rand w (pre ++ rest))
                  = gost_ec_sign_loop fuel grp q d e None None None None None
                      (set_rand w rest)).
    { apply (IH fuel (set_rand w (pre ++ rest)) rest); auto. }
    destruct (Z.eqb_spec (x mod q) 0) as [E|E].
    + rewrite gost_ec_sign_loop_calm_locals by assumption. exact Hgo.
    + destruct Hzero as [|Hzero]; [contradiction|]. rewrite Hzero. simpl.
      rewrite gost_ec_sign_loop_calm_locals by assumption. exact Hgo.
Qed.

(** A loop that gives up makes [gost_ec_sign] return NULL. *)
Lemma gost_ec_sign_calm_loop dgst w grp d w' :
  faults w = [] ->
  group (key w) = Some grp -> priv_key (key w) = Some d ->
  (length dgst = 32 \/ length dgst = 64)%nat ->
  0 < order grp ->
  gost_ec_sign_loop (S (length (rand w))) grp (order grp) d
    (reduced_digest dgst (order grp)) None None None None None w
  = Ret None w' ->
  gost_ec_sign dgst w = Ret None w'.
Proof.
  intros Hf Hg Hd Hl Hq Hloop.
  unfold gost_ec_sign. expose_lib. calm_step.
  replace ((Z.of_nat (length dgst) =? 32) || (Z.of_nat (length dgst) =? 64))
    with true by (destruct Hl as [-> | ->]; reflexivity).
  calm_step.
  rewrite (bind_Ret _ _ _ _ _ (hashsum2bn_calm dgst w Hf ltac:(lia))).
  calm_step. calm_step. rewrite Hg. cbv beta iota.
  unfold and_then. rewrite bind_bind. calm_step. calm_step.
  destruct (Z.eqb_spec (order grp) 0) as [|_]; [lia|]. cbv beta iota.
  calm_step. rewrite Hd. cbv beta iota.
  rewrite (bind_Ret _ _ _ _ _
             (gost_ec_sign_e_calm (le_int dgst) (order grp) w Hf ltac:(lia))).
  cbv beta iota. rewrite reduced_digest_rem by exact Hq.
  do 2 calm_step. rewrite step_loop_bound.
  rewrite (bind_Ret _ _ _ _ _ Hloop). reflexivity.
Qed.

(** X12: a draw that is a multiple of [q] ends the signing.  In a run
    without library failures, on a group that satisfies the group laws, when
    the draws before [z] gave [r = 0] or [s = 0] and [z mod q = 0], the
    scalar handed to [EC_POINT_mul] is a multiple of [q], the product is the
    point at infinity, and [gost_ec_sign] returns NULL with the error
    [ERR_R_EC_LIB]; it does not draw again. *)
Theorem sign_zero_nonce dgst w grp d pre z t :
  ec_group_ok grp ->
  faults w = [] ->
  group (key w) = Some grp -> priv_key (key w) = Some d ->
  (length dgst = 32 \/ length dgst = 64)%nat ->
  rand w = pre ++ z :: t ->
  Forall (retried grp (order grp) d (reduced_digest dgst (order grp))) pre ->
  z mod order grp = 0 ->
  gost_ec_sign dgst w
  = Ret None (push_err (set_rand w t) (GOST_F_GOST_EC_SIGN, ERR_R_EC_LIB)).
Proof.
  intros Hok Hf Hg Hd Hl Hr Hpre Hz.
  pose proof (order_ge_2 grp Hok) as Hq.
  apply (gost_ec_sign_calm_loop dgst w grp d _ Hf Hg Hd Hl ltac:(lia)).
  replace (S (length (rand w))) with (length pre + S (S (length t)))%nat
    by (rewrite Hr, length_app; simpl; lia).
  rewrite (gost_ec_sign_loop_calm_pre grp (order grp) d _ pre _ w (z :: t)
             Hf ltac:(lia) Hr Hpre).
  rewrite (gost_ec_sign_loop_calm_step _ grp (order grp) d _ _ _ _ _ _
             (set_rand w (z :: t)) z t Hf ltac:(lia) eq_refl).
  cbv zeta. rewrite Hz, ec_mul_generator.
  rewrite (ec_smul_blinded grp Hok 0) by lia.
  reflexivity.
Qed.

(** On the small curve, whose order is 19: the draw 38. *)
Lemma sign_zero_nonce_witness :
  gost_ec_sign toy_digest (toy_world [38; 3] [])
  = Ret None (push_err (set_rand (toy_world [38; 3] []) [3])
                (GOST_F_GOST_EC_SIGN, ERR_R_EC_LIB)).
Proof.
  apply (sign_zero_nonce toy_digest (toy_world [38; 3] []) toy_group 5 [] 38 [3]).
  - exact toy_group_ok.
  - reflexivity.
  - reflexivity.
  - reflexivity.
  - left. reflexivity.
  - reflexivity.
  - constructor.
  - reflexivity.
Defined.

(** X13: in a run without library failures, when every draw of the random
    source gave [r = 0] or [s = 0] and the source then fails,
    [gost_ec_sign] returns NULL with the error [GOST_R_RNG_ERROR]. *)
Theorem sign_random_source_fails dgst w grp d :
  faults w = [] ->
  group (key w) = Some grp -> priv_key (key w) = Some d ->
  (length dgst = 32 \/ length dgst = 64)%nat ->
  0 < order grp ->
  Forall (retried grp (order grp) d (reduced_digest dgst (order grp)))
    (rand w) ->
  gost_ec_sign dgst w
  = Ret None (push_err (set_rand w []) (GOST_F_GOST_EC_SIGN, GOST_R_RNG_ERROR)).
Proof.
  intros Hf Hg Hd Hl Hq Hpre.
  apply (gost_ec_sign_calm_loop dgst w grp d _ Hf Hg Hd Hl Hq).
  replace (S (length (rand w))) with (length (rand w) + 1)%nat by lia.
  rewrite (gost_ec_sign_loop_calm_pre grp (order grp) d _ (rand w) 1 w []
             Hf Hq (eq_sym (app_nil_r _)) Hpre).
  rewrite gost_ec_sign_loop_S.
  rewrite (bind_Ret _ _ _ _ _
             (gost_ec_sign_nonce_empty (order grp) (set_rand w []) eq_refl)).
  reflexivity.
Qed.

(** On the small curve: the draw 7 gives [r = 0] and the draw 14 gives
    [s = 0] for the digest of the examples, and the tape ends there. *)
Lemma sign_random_source_fails_witness :
  gost_ec_sign toy_digest (toy_world [7; 14] [])
  = Ret None (push_err (set_rand (toy_world [7; 14] []) [])
                (GOST_F_GOST_EC_SIGN, GOST_R_RNG_ERROR)).
Proof.
  apply (sign_random_source_fails toy_digest (toy_world [7; 14] []) toy_group 5).
  - reflexivity.
  - reflexivity.
  - reflexivity.
  - left. reflexivity.
  - reflexivity.
  - constructor; [|constructor; [|constructor]].
    + exists 0, 6. split; [vm_compute; reflexivity | left; reflexivity].
    + exists 9, 0. split; [vm_compute; reflexivity | right; reflexivity].
Defined.

(** * Missing key material *)

(** X14: in a run without library failures, [gost_ec_sign] on a key without
    group, without private key or with a group of order zero returns NULL
    with the error [ERR_R_INTERNAL_ERROR]; nothing is drawn from the random
    source. *)
Theorem sign_needs_key dgst w :
  faults w = [] ->
  (length dgst = 32 \/ length dgst = 64)%nat ->
  group (key w) = None
  \/ priv_key (key w) = None
  \/ (exists grp, group (key w) = Some grp /\ order grp = 0) ->
  gost_ec_sign dgst w
  = Ret None (push_err w (GOST_F_GOST_EC_SIGN, ERR_R_INTERNAL_ERROR)).
Proof.
  intros Hf Hl Hk.
  unfold gost_ec_sign. expose_lib. calm_step.
  replace ((Z.of_nat (length dgst) =? 32) || (Z.of_nat (length dgst) =? 64))
    with true by (destruct Hl as [-> | ->]; reflexivity).
  calm_step.
  rewrite (bind_Ret _ _ _ _ _ (hashsum2bn_calm dgst w Hf ltac:(lia))).
  calm_step. calm_step.
  destruct (group (key w)) as [grp|] eqn:Hg; cbv beta iota; [|reflexivity].
  unfold and_then. rewrite bind_bind. calm_step. calm_step.
  destruct (Z.eqb_spec (order grp) 0) as [Hq|Hq]; cbv beta iota;
    [reflexivity|].
  calm_step.
  destruct (priv_key (key w)) as [d|] eqn:Hd; cbv beta iota; [|reflexivity].
  exfalso. destruct Hk as [Hk | [Hk | (grp' & Hk & Hq')]].
  - discriminate Hk.
  - discriminate Hk.
  - injection Hk as <-. contradiction.
Qed.

(** On the small curve: a key that has a group and a public point only. *)
Lemma sign_needs_key_witness :
  gost_ec_sign toy_digest
    (mkWorld (mkKey (Some toy_group) None (Some (Affine 9 16))) [3] [] [])
  = Ret None
      (push_err
         (mkWorld (mkKey (Some toy_group) None (Some (Affine 9 16))) [3] [] [])
         (GOST_F_GOST_EC_SIGN, ERR_R_INTERNAL_ERROR)).
Proof.
  apply (sign_needs_key toy_digest).
  - reflexivity.
  - left. reflexivity.
  - right. left. reflexivity.
Defined.

(** X15: the checks that [gost_ec_verify] makes before it looks at the
    digest.  In a run without library failures on a key with a group, a
    missing public point or a group of order zero gives 0 with the error
    [ERR_R_INTERNAL_ERROR]; otherwise [r] or [s] that is zero or greater
    than [q] gives 0 with the error [GOST_R_SIGNATURE_PARTS_GREATER_THAN_Q].
    Both hold whatever the digest, also for one whose length the assertion
    that follows would refuse. *)
Theorem verify_checks_before_digest dgst sig w grp :
  faults w = [] -> group (key w) = Some grp ->
  (pub_key (key w) = None \/ order grp = 0 ->
   gost_ec_verify dgst sig w
   = Ret 0 (push_err w (GOST_F_GOST_EC_VERIFY, ERR_R_INTERNAL_ERROR)))
  /\ (pub_key (key w) <> None -> order grp <> 0 ->
      sig_r sig = 0 \/ sig_s sig = 0
      \/ order grp < sig_r sig \/ order grp < sig_s sig ->
      gost_ec_verify dgst sig w
      = Ret 0 (push_err w (GOST_F_GOST_EC_VERIFY,
                           GOST_R_SIGNATURE_PARTS_GREATER_THAN_Q))).
Proof.
  intros Hf Hg.
  assert (Hgo : gost_ec_verify dgst sig w
                = match pub_key (key w) with
                  | Some Q => verdict_outcome w (verify_calm grp Q dgst sig)
                  | None => Ret 0 (push_err w (GOST_F_GOST_EC_VERIFY,
                                               ERR_R_INTERNAL_ERROR))
                  end).
  { destruct (pub_key (key w)) as [Q|] eqn:Hp.
    - apply gost_ec_verify_calm; assumption.
    - unfold gost_ec_verify. expose_lib.
      calm_step. rewrite Hg. cbv beta iota.
      do 10 calm_step. rewrite Hp. reflexivity. }
  split.
  - intros Hbad. rewrite Hgo.
    destruct (pub_key (key w)) as [Q|]; [|reflexivity].
    destruct Hbad as [Hbad | Hq]; [discriminate Hbad|].
    unfold verify_calm. rewrite Hq. reflexivity.
  - intros Hp Hq Hrs. rewrite Hgo.
    destruct (pub_key (key w)) as [Q|]; [|contradiction Hp; reflexivity].
    unfold verify_calm. rewrite range_check_spec.
    destruct (Z.eqb_spec (order grp) 0) as [|_]; [contradiction|].
    destruct (Z.ltb_spec 0 (Z.abs (sig_r sig))),
      (Z.leb_spec (sig_r sig) (order grp)),
      (Z.ltb_spec 0 (Z.abs (sig_s sig))),
      (Z.leb_spec (sig_s sig) (order grp)); simpl; try reflexivity; lia.
Qed.

(** On the small curve, with a digest of three bytes: a key without public
    point, and the signature [(20, 5)] under the key of the examples. *)
Lemma verify_checks_before_digest_witness :
  gost_ec_verify short_digest (mkSig 9 5)
    (mkWorld (mkKey (Some toy_group) (Some 5) None) [] [] [])
  = Ret 0 (push_err (mkWorld (mkKey (Some toy_group) (Some 5) None) [] [] [])
             (GOST_F_GOST_EC_VERIFY, ERR_R_INTERNAL_ERROR))
  /\ gost_ec_verify short_digest (mkSig 20 5) (toy_world [] [])
     = Ret 0 (push_err (toy_world [] [])
                (GOST_F_GOST_EC_VERIFY,
                 GOST_R_SIGNATURE_PARTS_GREATER_THAN_Q)).
Proof.
  split.
  - apply (proj1 (verify_checks_before_digest short_digest (mkSig 9 5)
                    (mkWorld (mkKey (Some toy_group) (Some 5) None) [] [] [])
                    toy_group eq_refl eq_refl)).
    left. reflexivity.
  - apply (proj2 (verify_checks_before_digest short_digest (mkSig 20 5)
                    (toy_world [] []) toy_group eq_refl eq_refl)).
    + discriminate.
    + discriminate.
    + right. right. left. reflexivity.
Defined.

(** * The public point *)

Lemma step_set_private_key {B} d (k : option unit -> M B) w :
  faults w = [] ->
  bind (EC_KEY_set_private_key d) k w
  = k (Some tt)
      (set_key w (mkKey (group (key w)) (Some d) (pub_key (key w)))).
Proof.
  intro Hf. unfold bind, EC_KEY_set_private_key. rewrite Hf. reflexivity.
Qed.

Lemma step_set_public_key {B} P (k : option unit -> M B) w :
  faults w = [] ->
  bind (EC_KEY_set_public_key P) k w
  = k (Some tt)
      (set_key w (mkKey (group (key w)) (priv_key (key w)) (Some P))).
Proof.
  intro Hf. unfold bind, EC_KEY_set_public_key. rewrite Hf. reflexivity.
Qed.

(** [gost_ec_compute_public] in a run without library failures. *)
Lemma gost_ec_compute_public_run w grp d :
  faults w = [] ->
  group (key w) = Some grp -> priv_key (key w) = Some d ->
  gost_ec_compute_public w
  = Ret 1 (set_key w (mkKey (Some grp) (Some d)
                        (Some (ec_mul grp (Some d) None None)))).
Proof.
  intros Hf Hg Hd. unfold gost_ec_compute_public. expose_lib.
  calm_step. rewrite Hg. cbv beta iota.
  calm_step. calm_step. rewrite Hd. cbv beta iota.
  do 2 calm_step.
  rewrite step_set_public_key by exact Hf. cbv beta iota.
  rewrite Hg, Hd. reflexivity.
Qed.

Lemma ec_smul_inf grp n : 0 <= n -> ec_smul grp n Infinity = Infinity.
Proof.
  intro Hn. destruct n as [|p|p]; [reflexivity| |lia].
  clear Hn. simpl.
  induction p as [p IH|p IH|]; simpl; try rewrite IH; reflexivity.
Qed.

(** A scalar that is not a multiple of the prime order does not give the
    point at infinity. *)
Lemma ec_smul_not_inf grp d :
  ec_group_ok grp -> generator grp <> Infinity ->
  1 <= d < order grp ->
  ec_smul grp d (generator grp) <> Infinity.
Proof.
  intros Hok HG Hd Hinf.
  pose proof (order_ge_2 grp Hok) as Hq.
  destruct (bn_mod_inverse_prime d (order grp) (ok_order_prime _ Hok) Hd)
    as (_ & Hv).
  set (v := Z.invmod d (order grp) mod order grp).
  assert (Hv0 : 0 <= v) by (apply Z.mod_pos_bound; lia).
  assert (Hv1 : (v * d) mod order grp = 1)
    by (unfold v; rewrite Z.mul_mod_idemp_l by lia; exact Hv).
  apply HG.
  change (generator grp) with (ec_smul grp 1 (generator grp)).
  rewrite <- (ec_smul_congr grp Hok (v * d) 1) by (try nia; rewrite Hv1;
    symmetry; apply Z.mod_small; lia).
  rewrite <- (ec_smul_smul grp Hok v d)
    by (try lia; exact (ok_generator _ Hok)).
  rewrite Hinf. apply ec_smul_inf, Hv0.
Qed.

(** X16: [gost_ec_compute_public] takes any private scalar.  In a run
    without library failures on a group that satisfies the group laws, for a
    private scalar [d >= 0] it returns 1 and stores the point
    [(d mod q)·G] as public point, a point of the curve; the group and the
    private scalar stay.  No check is made on [d]: for a multiple of [q], in
    particular for zero, the stored public point is the point at
    infinity. *)
Theorem compute_public_point w grp d :
  ec_group_ok grp ->
  faults w = [] ->
  group (key w) = Some grp -> priv_key (key w) = Some d ->
  0 <= d ->
  let Q := ec_smul grp (d mod order grp) (generator grp) in
  gost_ec_compute_public w
  = Ret 1 (set_key w (mkKey (Some grp) (Some d) (Some Q)))
  /\ on_curve grp Q = true
  /\ (d mod order grp = 0 -> Q = Infinity).
Proof.
  intros Hok Hf Hg Hd Hd0 Q.
  pose proof (order_ge_2 grp Hok) as Hq.
  assert (Hm : 0 <= d mod order grp) by (apply Z.mod_pos_bound; lia).
  split; [|split].
  - rewrite (gost_ec_compute_public_run w grp d Hf Hg Hd).
    rewrite ec_mul_generator, (ec_smul_mod_order grp Hok d Hd0).
    reflexivity.
  - apply on_curve_smul; [exact Hok | exact Hm | exact (ok_generator _ Hok)].
  - intro Hz. unfold Q. rewrite Hz. reflexivity.
Qed.

(** On the small curve: the private scalar 19, the order of the group. *)
Lemma compute_public_point_witness :
  gost_ec_compute_public
    (mkWorld (mkKey (Some toy_group) (Some 19) None) [] [] [])
  = Ret 1 (mkWorld (mkKey (Some toy_group) (Some 19) (Some Infinity)) [] [] []).
Proof.
  apply (compute_public_point
           (mkWorld (mkKey (Some toy_group) (Some 19) None) [] [] [])
           toy_group 19 toy_group_ok eq_refl eq_refl eq_refl).
  discriminate.
Defined.

(** * Key generation in a run without library failures *)

(** The zero draws are passed over and the first other draw is returned. *)
Lemma gost_ec_keygen_loop_calm q pre :
  forall fuel w z t,
  0 < q -> rand w = pre ++ z :: t ->
  Forall (fun z' => z' mod q = 0) pre -> z mod q <> 0 ->
  (length pre < fuel)%nat ->
  gost_ec_keygen_loop fuel q w = Ret (Some (z mod q)) (set_rand w t).
Proof.
  induction pre as [|z' pre IH]; intros fuel w z t Hq Hr Hpre Hz Hfuel;
    (destruct fuel as [|fuel]; [simpl in Hfuel; lia|]);
    cbn [gost_ec_keygen_loop]; simpl in Hr;
    rewrite (step_rand_range q _ w _ _ Hq Hr); cbv beta iota;
    unfold BN_is_zero.
  - destruct (Z.eqb_spec (z mod q) 0) as [E|_]; [contradiction|reflexivity].
  - inversion Hpre as [|? ? Hz' Hpre']; subst. rewrite Hz'. simpl.
    apply (IH fuel (set_rand w (pre ++ z :: t)) z t); auto.
    simpl in Hfuel. lia.
Qed.

(** When every draw is zero the loop ends with the failure of the random
    source. *)
Lemma gost_ec_keygen_loop_dry q :
  forall fuel w,
  0 < q -> Forall (fun z' => z' mod q = 0) (rand w) ->
  (length (rand w) < fuel)%nat ->
  gost_ec_keygen_loop fuel q w
  = Ret None (push_err (set_rand w [])
                (GOST_F_GOST_EC_KEYGEN, GOST_R_RNG_ERROR)).
Proof.
  intros fuel w. remember (rand w) as tape eqn:Hr. symmetry in Hr.
  revert fuel w Hr.
  induction tape as [|z' tape IH]; intros fuel w Hr Hq Hall Hfuel;
    (destruct fuel as [|fuel]; [simpl in Hfuel; lia|]);
    cbn [gost_ec_keygen_loop].
  - rewrite (step_rand_range_empty q _ w Hr). cbv beta iota.
    rewrite <- Hr, set_rand_same. reflexivity.
  - rewrite (step_rand_range q _ w _ _ Hq Hr). cbv beta iota.
    inversion Hall as [|? ? Hz' Hall']; subst.
    unfold BN_is_zero. rewrite Hz'. simpl.
    apply (IH fuel (set_rand w tape)); auto. simpl in Hfuel. lia.
Qed.

(** X17: in a run without library failures, on a key whose group has a
    positive order [q], [gost_ec_keygen] passes over the draws that are zero
    modulo [q], takes the first other draw [z], and returns 1 with the
    private scalar [z mod q] and the public point [(z mod q)·G] stored in
    the key; the rest of the tape and the error queue are left. *)
Theorem keygen_first_nonzero_draw w grp pre z t :
  faults w = [] ->
  group (key w) = Some grp ->
  0 < order grp ->
  rand w = pre ++ z :: t ->
  Forall (fun z' => z' mod order grp = 0) pre ->
  z mod order grp <> 0 ->
  gost_ec_keygen w
  = Ret 1 (mkWorld
             (mkKey (Some grp) (Some (z mod order grp))
                (Some (ec_smul grp (z mod order grp) (generator grp))))
             t [] (errq w)).
Proof.
  intros Hf Hg Hq Hr Hpre Hz.
  unfold gost_ec_keygen. rewrite step_get0_group, Hg. cbv beta iota.
  unfold gost_ec_keygen_store. expose_lib.
  rewrite bind_bind. calm_step. rewrite bind_bind. calm_step.
  rewrite bind_bind. calm_step.
  destruct (Z.eqb_spec (order grp) 0) as [|_]; [lia|]. cbv beta iota.
  rewrite bind_bind, step_loop_bound, bind_bind.
  assert (Hfuel : (length pre < S (length (rand w)))%nat)
    by (rewrite Hr, length_app; simpl; lia).
  rewrite (bind_Ret _ _ _ _ _
             (gost_ec_keygen_loop_calm (order grp) pre _ w z t
                Hq Hr Hpre Hz Hfuel)).
  cbv beta iota. rewrite bind_bind.
  rewrite step_set_private_key by exact Hf. cbv beta iota.
  rewrite step_ret. cbv beta iota.
  rewrite (gost_ec_compute_public_run _ grp (z mod order grp));
    [ | exact Hf | exact Hg | reflexivity ].
  rewrite ec_mul_generator.
  destruct w as [k rd f eq]. simpl in Hf. subst f. reflexivity.
Qed.

(** On the small curve: the draws 0 and 19 are passed over, the draw 26
    gives the scalar 7. *)
Lemma keygen_first_nonzero_draw_witness :
  gost_ec_keygen (toy_world [0; 19; 26; 4] [])
  = Ret 1 (mkWorld (mkKey (Some toy_group) (Some 7) (Some (Affine 0 6)))
             [4] [] []).
Proof.
  apply (keygen_first_nonzero_draw (toy_world [0; 19; 26; 4] []) toy_group
           [0; 19] 26 [4]).
  - reflexivity.
  - reflexivity.
  - reflexivity.
  - reflexivity.
  - repeat constructor.
  - discriminate.
Defined.

(** X18: in a run without library failures, on a key whose group has a
    positive order [q], when every draw is zero modulo [q] and the random
    source then fails, [gost_ec_keygen] returns 0 with the error
    [GOST_R_RNG_ERROR] and the key is as it was. *)
Theorem keygen_random_source_fails w grp :
  faults w = [] ->
  group (key w) = Some grp ->
  0 < order grp ->
  Forall (fun z' => z' mod order grp = 0) (rand w) ->
  gost_ec_keygen w
  = Ret 0 (push_err (set_rand w [])
             (GOST_F_GOST_EC_KEYGEN, GOST_R_RNG_ERROR)).
Proof.
  intros Hf Hg Hq Hall.
  unfold gost_ec_keygen. rewrite step_get0_group, Hg. cbv beta iota.
  unfold gost_ec_keygen_store. expose_lib.
  rewrite bind_bind. calm_step. rewrite bind_bind. calm_step.
  rewrite bind_bind. calm_step.
  destruct (Z.eqb_spec (order grp) 0) as [|_]; [lia|]. cbv beta iota.
  rewrite bind_bind, step_loop_bound, bind_bind.
  rewrite (bind_Ret _ _ _ _ _
             (gost_ec_keygen_loop_dry (order grp) _ w Hq Hall
                (Nat.lt_succ_diag_r _))).
  reflexivity.
Qed.

(** On the small curve: a tape of multiples of 19. *)
Lemma keygen_random_source_fails_witness :
  gost_ec_keygen (toy_world [0; 19; 38] [])
  = Ret 0 (push_err (set_rand (toy_world [0; 19; 38] []) [])
             (GOST_F_GOST_EC_KEYGEN, GOST_R_RNG_ERROR)).
Proof.
  apply (keygen_random_source_fails (toy_world [0; 19; 38] []) toy_group).
  - reflexivity.
  - reflexivity.
  - reflexivity.
  - repeat constructor.
Defined.

(** * A generated key in use *)

(** What a successful run of [gost_ec_keygen] leaves in the key, whatever
    the plan of failures. *)
Lemma gost_ec_keygen_inv w w' :
  gost_ec_keygen w = Ret 1 w' ->
  exists grp d,
    group (key w) = Some grp
    /\ key w' = mkKey (Some grp) (Some d)
                  (Some (ec_smul grp d (generator grp)))
    /\ 1 <= d < order grp.
Proof.
  unfold gost_ec_keygen. intro H.
  bind_inv H g w1 Hg. unfold EC_KEY_get0_group in Hg. injection Hg as <- <-.
  destruct (group (key w)) as [grp|] eqn:Hgrp;
    [|apply fail0_inv in H as (H & _); discriminate H].
  bind_inv H ok w2 Hok. destruct ok; [|discriminate H].
  apply gost_ec_keygen_store_inv in Hok
    as (Hq & E2 & d & pre & z & K2 & R2 & Hpre & Hdz & Hd0).
  apply gost_ec_compute_public_inv in H as (G3 & P3 & R3 & Hres).
  destruct Hres as [(_ & E3 & grp' & d' & Hg' & Hd' & Hpub) | (Hv & _)];
    [|discriminate Hv].
  rewrite K2 in G3, P3, Hg', Hd'. simpl in G3, P3, Hg', Hd'.
  rewrite Hgrp in G3, Hg'. injection Hg' as <-. injection Hd' as <-.
  rewrite ec_mul_generator in Hpub.
  exists grp, d. split; [reflexivity|]. split.
  - destruct (key w') as [g p b]. simpl in *. congruence.
  - pose proof (Z.mod_pos_bound z (order grp) Hq). lia.
Qed.

(** The pair computed from a draw passes the check of [gost_ec_verify]
    under the public point [d·G]. *)
Lemma nonce_signature_valid grp dgst d z rr ss :
  ec_group_ok grp ->
  (length dgst = 32 \/ length dgst = 64)%nat ->
  1 <= d < order grp ->
  sig_of_nonce grp (order grp) d (reduced_digest dgst (order grp)) z
  = Some (rr, ss) ->
  rr <> 0 -> ss <> 0 ->
  verify_calm grp (ec_smul grp d (generator grp)) dgst (mkSig rr ss) = Valid.
Proof.
  intros Hok Hl Hd Hz Hrr Hss.
  pose proof (order_ge_2 grp Hok) as Hq.
  pose proof (ok_generator _ Hok) as HG.
  apply (sig_of_nonce_inv grp _ _ _ _ _ _ Hok eq_refl) in Hz
    as (x & y & _ & HC & Hx & Hrx & _ & Hsx).
  set (q := order grp) in *. set (e := reduced_digest dgst q) in *.
  set (kb := blinded (z mod q) q) in *.
  assert (Hkb : 0 <= kb).
  { pose proof (blinded_pos (z mod q) q ltac:(apply Z.mod_pos_bound; lia)).
    fold kb in H. lia. }
  assert (Hr : 1 <= sig_r (mkSig rr ss) < q).
  { simpl. pose proof (Z.mod_pos_bound x q ltac:(lia)). lia. }
  assert (Hs : 1 <= sig_s (mkSig rr ss) < q).
  { simpl. pose proof (Z.mod_pos_bound (d * rr + kb * e) q ltac:(lia)). lia. }
  assert (HQ : on_curve grp (ec_smul grp d (generator grp)) = true)
    by (apply on_curve_smul; [exact Hok | lia | exact HG]).
  destruct (verify_calm_in_range grp _ dgst (mkSig rr ss) Hok HQ Hl Hr Hs)
    as (Hv & Hres).
  cbv zeta in Hv, Hres. fold q e in Hv, Hres. simpl sig_r in Hres.
  simpl sig_s in Hres.
  set (v := Z.invmod e q) in *.
  set (z1 := (ss * v) mod q) in *.
  set (z2 := ((q - rr) * v) mod q) in *.
  assert (Hz1 : 0 <= z1) by (apply Z.mod_pos_bound; lia).
  assert (Hz2 : 0 <= z2) by (apply Z.mod_pos_bound; lia).
  rewrite (ec_mul_combined grp Hok z1 z2 d Hz1 Hz2 ltac:(lia)) in Hres.
  rewrite (ec_smul_congr grp Hok (z1 + z2 * d) kb ltac:(nia) Hkb) in Hres.
  - rewrite HC in Hres. rewrite Hres, <- Hrx, Z.eqb_refl. reflexivity.
  - apply (roundtrip_scalar q d e rr ss kb v); [lia | exact Hv | exact Hsx].
Qed.

(** X19: the public point of a generated key is a usable point.  Whatever
    the library failures, when [gost_ec_keygen] returns 1 on a group that
    satisfies the group laws and whose generator is not the point at
    infinity, the key holds a private scalar in [[1, q-1]] and a public
    point that lies on the curve and is not the point at infinity. *)
Theorem keygen_public_point_valid w w' grp :
  ec_group_ok grp -> generator grp <> Infinity ->
  group (key w) = Some grp ->
  gost_ec_keygen w = Ret 1 w' ->
  exists d Q,
    key w' = mkKey (Some grp) (Some d) (Some Q)
    /\ 1 <= d < order grp
    /\ on_curve grp Q = true
    /\ Q <> Infinity.
Proof.
  intros Hok HG Hg H.
  apply gost_ec_keygen_inv in H as (grp' & d & Hg' & Hkey & Hd).
  rewrite Hg in Hg'. injection Hg' as <-.
  exists d, (ec_smul grp d (generator grp)).
  split; [exact Hkey|]. split; [exact Hd|]. split.
  - apply on_curve_smul; [exact Hok | lia | exact (ok_generator _ Hok)].
  - apply ec_smul_not_inf; assumption.
Qed.

(** On the small curve: the key of the draw 7. *)
Lemma keygen_public_point_valid_witness :
  exists d Q,
    key (mkWorld (mkKey (Some toy_group) (Some 7) (Some (Affine 0 6)))
           [] [] [])
    = mkKey (Some toy_group) (Some d) (Some Q)
    /\ 1 <= d < order toy_group
    /\ on_curve toy_group Q = true
    /\ Q <> Infinity.
Proof.
  apply (keygen_public_point_valid (toy_world [0; 19; 7] [])).
  - exact toy_group_ok.
  - discriminate.
  - reflexivity.
  - vm_compute. reflexivity.
Defined.



(** * Library failures and the verdict *)

Ltac no_fail H :=
  solve [ exfalso;
          first [ apply fail0_inv in H as (H & _); discriminate H
                | unfold ret in H; discriminate H
                | discriminate H ] ].

(** A call of a library function that has no side effect: the frame is
    carried on. *)
Ltac lib_frame H x w1 F :=
  let Hx := fresh "Hx" in
  let Fx := fresh "Fx" in
  let F' := fresh "F" in
  bind_inv H x w1 Hx;
  apply lib_inv in Hx as (Fx & _);
  pose proof (frame_trans _ _ _ F Fx) as F'; clear F Fx; rename F' into F.

Ltac lib_value H x w1 F Ex :=
  let Hx := fresh "Hx" in
  let Fx := fresh "Fx" in
  let F' := fresh "F" in
  bind_inv H x w1 Hx;
  destruct x as [x|]; [|no_fail H];
  apply lib_Some_inv in Hx as (Fx & Ex);
  pose proof (frame_trans _ _ _ F Fx) as F'; clear F Fx; rename F' into F.

(** X21: library failures never make [gost_ec_verify] accept.  Whatever the
    library failures, when a call returns 1 then the key, the tape and the
    error queue are as they were, and the call on the same digest, signature
    and key returns 1 in every run in which no library call fails. *)
Theorem verify_failures_never_accept dgst sig w w' :
  gost_ec_verify dgst sig w = Ret 1 w' ->
  key w' = key w /\ rand w' = rand w /\ errq w' = errq w
  /\ forall w2, faults w2 = [] -> key w2 = key w ->
       gost_ec_verify dgst sig w2 = Ret 1 w2.
Proof.
  intro H.
  assert (Hinv : frame w w'
                 /\ exists grp Q,
                     group (key w) = Some grp /\ pub_key (key w) = Some Q
                     /\ verify_calm grp Q dgst sig = Valid).
  { revert H. unfold gost_ec_verify. intro H.
  pose proof (frame_refl w) as F.
  bind_inv H g w0 Hg. unfold EC_KEY_get0_group in Hg. injection Hg as Hg <-.
  destruct g as [grp|]; [|discriminate H].
  expose_lib.
  lib_value H ctx w1 F Ectx.
  lib_frame H order0 w2 F. lib_frame H e0 w3 F. lib_frame H z10 w4 F.
  lib_frame H z20 w5 F. lib_frame H tmp0 w6 F. lib_frame H X0 w7 F.
  lib_frame H R0 w8 F. lib_frame H v0 w9 F.
  destruct order0 as [a1|]; [|no_fail H]. destruct e0 as [a2|]; [|no_fail H].
  destruct z10 as [a3|]; [|no_fail H]. destruct z20 as [a4|]; [|no_fail H].
  destruct tmp0 as [a5|]; [|no_fail H]. destruct X0 as [a6|]; [|no_fail H].
  destruct R0 as [a7|]; [|no_fail H]. destruct v0 as [a8|]; [|no_fail H].
  clear a1 a2 a3 a4 a5 a6 a7 a8.
  bind_inv H Q w10 HQ. unfold EC_KEY_get0_public_key in HQ.
  injection HQ as HQ <-. rewrite (frame_key _ _ F) in HQ.
  destruct Q as [Q|]; [|no_fail H].
  lib_value H q w11 F Eord.
  destruct (Z.eqb_spec (order grp) 0) as [|Hq0]; [discriminate Eord|].
  injection Eord as <-.
  destruct (BN_is_zero (sig_s sig) || BN_is_zero (sig_r sig)
            || (BN_cmp (sig_s sig) (order grp) >=? 1)
            || (BN_cmp (sig_r sig) (order grp) >=? 1)) eqn:Hrange;
    [no_fail H|].
  bind_inv H u w12 Hassert.
  apply OPENSSL_assert_inv in Hassert as (Hlen & ->).
  bind_inv H e w13 He. destruct e as [e|]; [|no_fail H].
  apply gost_ec_verify_e_inv in He as (Fe & _ & Ee).
  pose proof (frame_trans _ _ _ F Fe) as F'. clear F Fe. rename F' into F.
  bind_inv H z w14 Hz. destruct z as [[z1 z2]|]; [|no_fail H].
  assert (Hzs : frame w13 w14
                /\ exists v, bn_mod_inverse e (order grp) = Some v
                     /\ bn_mod_mul (sig_s sig) v (order grp) = Some z1
                     /\ bn_mod_mul (order grp - sig_r sig) v (order grp)
                        = Some z2).
  { pose proof (frame_refl w13) as G.
    lib_value Hz v w15 G Ev. lib_value Hz z1' w16 G Ez1.
    lib_value Hz tmp w17 G Etmp. lib_value Hz z2' w18 G Ez2.
    unfold ret in Hz. injection Hz as <- <- <-. injection Etmp as <-.
    split; [exact G|]. exists v. auto. }
  destruct Hzs as (Fz & v & Ev & Ez1 & Ez2).
  pose proof (frame_trans _ _ _ F Fz) as F'. clear F Fz. rename F' into F.
  lib_value H P w15 F EP.
  lib_value H C w16 F EC. injection EC as <-. simpl fst in *. simpl snd in *.
  lib_value H X w17 F EX.
  lib_value H R w18 F ER.
  unfold bn_mod in ER.
  destruct (Z.eqb_spec (order grp) 0) as [|_]; [contradiction|].
  injection ER as <-.
  destruct (negb (BN_cmp (Z.rem X (order grp)) (sig_r sig) =? 0)) eqn:Hcmp;
    [no_fail H|].
  unfold ret in H. injection H as <-.
  split; [exact F|]. exists grp, Q.
  split; [exact Hg|]. split; [exact HQ|].
  unfold verify_calm. cbv zeta.
  destruct (Z.eqb_spec (order grp) 0) as [|_]; [contradiction|].
  rewrite Hrange, Hlen. cbn [negb].
  rewrite <- Ee, Ev, Ez1, Ez2, EX, Hcmp. reflexivity. }
  destruct Hinv as ((Fk & Fr & Fe) & grp & Q & Hg & HQ & Hvalid).
  split; [exact Fk|]. split; [exact Fr|]. split; [exact Fe|].
  intros w2 Hf2 Hk2.
  rewrite (gost_ec_verify_calm dgst sig w2 grp Q Hf2);
    [ | rewrite Hk2; exact Hg | rewrite Hk2; exact HQ ].
  rewrite Hvalid. reflexivity.
Qed.

(** On the small curve: a run whose plan lets the first calls succeed. *)
Lemma verify_failures_never_accept_witness :
  key (toy_world [] []) = key (toy_world [] [false; false; false])
  /\ rand (toy_world [] []) = rand (toy_world [] [false; false; false])
  /\ errq (toy_world [] []) = errq (toy_world [] [false; false; false])
  /\ forall w2, faults w2 = [] ->
       key w2 = key (toy_world [] [false; false; false]) ->
       gost_ec_verify toy_digest (mkSig 5 15) w2 = Ret 1 w2.
Proof.
  apply (verify_failures_never_accept toy_digest (mkSig 5 15)).
  vm_compute. reflexivity.
Defined.



(** * The digest and its negative *)

Lemma ec_add_inf_x grp x y P :
  ec_add grp (Affine x y) P = Infinity -> exists y', P = Affine x y'.
Proof.
  destruct P as [|x' y']; simpl; [discriminate|].
  destruct (Z.eqb_spec x x') as [->|_].
  - destruct (_ =? 0); [|discriminate]. intros _. exists y'. reflexivity.
  - discriminate.
Qed.

(** A signature that passes the check comes from a scalar [z]: [r] is the
    x-coordinate of [z·G] and [s = d·r + z·e]. *)
Lemma valid_nonce grp dgst d r s :
  ec_group_ok grp ->
  (length dgst = 32 \/ length dgst = 64)%nat ->
  1 <= d < order grp ->
  1 <= r < order grp -> 1 <= s < order grp ->
  verify_calm grp (ec_smul grp d (generator grp)) dgst (mkSig r s) = Valid ->
  exists z x y,
    1 <= z < order grp
    /\ ec_smul grp z (generator grp) = Affine x y
    /\ x mod order grp = r
    /\ (d * r + z * reduced_digest dgst (order grp)) mod order grp = s.
Proof.
  intros Hok Hl Hd Hr Hs Hv.
  pose proof (order_ge_2 grp Hok) as Hq.
  pose proof (ok_generator _ Hok) as HG.
  assert (HQ : on_curve grp (ec_smul grp d (generator grp)) = true)
    by (apply on_curve_smul; [exact Hok | lia | exact HG]).
  destruct (verify_calm_in_range grp _ dgst (mkSig r s) Hok HQ Hl Hr Hs)
    as (Hve & Hres).
  cbv zeta in Hve, Hres. simpl sig_r in Hres. simpl sig_s in Hres.
  set (q := order grp) in *. set (e := reduced_digest dgst q) in *.
  set (v := Z.invmod e q) in *.
  set (z1 := (s * v) mod q) in *.
  set (z2 := ((q - r) * v) mod q) in *.
  assert (Hz1 : 0 <= z1) by (apply Z.mod_pos_bound; lia).
  assert (Hz2 : 0 <= z2) by (apply Z.mod_pos_bound; lia).
  rewrite (ec_mul_combined grp Hok z1 z2 d Hz1 Hz2 ltac:(lia)) in Hres.
  set (z := (z1 + z2 * d) mod q).
  assert (Hz : 0 <= z < q) by (apply Z.mod_pos_bound; lia).
  rewrite (ec_smul_mod_order grp Hok (z1 + z2 * d) ltac:(nia)) in Hres.
  fold q z in Hres.
  destruct (ec_smul grp z (generator grp)) as [|x y] eqn:HC.
  { rewrite Hres in Hv. discriminate Hv. }
  destruct (Z.eqb_spec (x mod q) r) as [Hx|Hx];
    [|rewrite Hres in Hv; discriminate Hv].
  exists z, x, y.
  assert (Hz0 : z <> 0) by (intros E; rewrite E in HC; discriminate HC).
  split; [lia|]. split; [exact HC|]. split; [exact Hx|].
  apply (accepted_scalar q d e r s z v); [lia | exact Hve | lia |].
  unfold z. rewrite Z.mod_mod by lia. reflexivity.
Qed.

(** X23: [gost_ec_verify] cannot tell a digest from its negative.  For a key
    with [Q = d·G] in a group that satisfies the group laws, in a run
    without library failures, a signature in range that is accepted for a
    digest with the reduced value [e] is accepted for every digest with the
    reduced value [q - e]: the point [C] of the second check is the opposite
    of the point of the first and has the same x-coordinate. *)
Theorem verify_digest_negation grp dgst dgst' d sig w :
  ec_group_ok grp ->
  (length dgst = 32 \/ length dgst = 64)%nat ->
  (length dgst' = 32 \/ length dgst' = 64)%nat ->
  1 <= d < order grp ->
  key w = mkKey (Some grp) (Some d) (Some (ec_smul grp d (generator grp))) ->
  faults w = [] ->
  1 <= sig_r sig < order grp ->
  1 <= sig_s sig < order grp ->
  reduced_digest dgst' (order grp)
  = order grp - reduced_digest dgst (order grp) ->
  gost_ec_verify dgst sig w = Ret 1 w ->
  gost_ec_verify dgst' sig w = Ret 1 w.
Proof.
  intros Hok Hl Hl' Hd Hkey Hf Hr Hs He Hv.
  pose proof (order_ge_2 grp Hok) as Hq.
  pose proof (ok_generator _ Hok) as HG.
  assert (Hg : group (key w) = Some grp) by (rewrite Hkey; reflexivity).
  assert (Hp : pub_key (key w) = Some (ec_smul grp d (generator grp)))
    by (rewrite Hkey; reflexivity).
  rewrite (gost_ec_verify_calm dgst sig w grp _ Hf Hg Hp) in Hv.
  rewrite (gost_ec_verify_calm dgst' sig w grp _ Hf Hg Hp).
  destruct sig as [r s]. simpl sig_r in *. simpl sig_s in *.
  assert (Hvalid : verify_calm grp (ec_smul grp d (generator grp)) dgst
                     (mkSig r s) = Valid).
  { destruct (verify_calm _ _ _ _); [reflexivity | discriminate Hv
                                    | discriminate Hv]. }
  destruct (valid_nonce grp dgst d r s Hok Hl Hd Hr Hs Hvalid)
    as (z & x & y & Hz & HC & Hx & Hsz).
  set (q := order grp) in *. set (e := reduced_digest dgst q) in *.
  assert (Hsum : ec_add grp (ec_smul grp z (generator grp))
                   (ec_smul grp (q - z) (generator grp)) = Infinity).
  { rewrite <- (ec_smul_add grp Hok) by (try lia; exact HG).
    replace (z + (q - z)) with q by ring.
    exact (ok_generator_order _ Hok). }
  rewrite HC in Hsum. apply ec_add_inf_x in Hsum as (y' & HC').
  rewrite (nonce_signature_valid grp dgst' d (q - z) r s Hok Hl' Hd);
    [reflexivity | | lia | lia].
  unfold sig_of_nonce. fold q. rewrite He. fold e.
  rewrite ec_mul_generator.
  assert (Hz' : 0 <= q - z < q) by lia.
  rewrite (Z.mod_small (q - z) q Hz').
  pose proof (ec_smul_blinded grp Hok (q - z) Hz') as Hb. fold q in Hb.
  rewrite Hb, HC'. simpl affine_x. cbv iota zeta. rewrite Hx.
  f_equal. f_equal. rewrite <- Hsz.
  destruct (blinded_cases (q - z) q) as [-> | ->].
  - replace (d * r + (q - z + q) * (q - e))
      with (d * r + z * e + (2 * q - 2 * e - z) * q) by ring.
    apply Z.mod_add. lia.
  - replace (d * r + (q - z + q + q) * (q - e))
      with (d * r + z * e + (3 * q - 3 * e - z) * q) by ring.
    apply Z.mod_add. lia.
Qed.

(** On the small curve: the digests of the examples with the reduced values
    9 and 10, and the signature (5, 15). *)
Lemma verify_digest_negation_witness :
  gost_ec_verify toy_digest_10 (mkSig 5 15) (toy_world [] [])
  = Ret 1 (toy_world [] []).
Proof.
  apply (verify_digest_negation toy_group toy_digest toy_digest_10 5).
  - exact toy_group_ok.
  - left. reflexivity.
  - left. reflexivity.
  - simpl. lia.
  - reflexivity.
  - reflexivity.
  - simpl. lia.
  - simpl. lia.
  - vm_compute. reflexivity.
  - vm_compute. reflexivity.
Defined.
